(** * Playlist ingestion and catalog partitioning: scripts/convert_m3u8_to_json.py

    A shallow embedding of the converter script and the properties of its
    lexer, classifier, category normaliser, identifier generator,
    deduplicator, partitioner and index builder.

    Python strings are sequences of Unicode code points; they are modelled as
    lists of code points ([list Z]), so that [in], [startswith], slicing and
    the regular expressions read as in the script.  String literals of the
    script are written [u "..."], the code points of the UTF-8 text. *)

From Stdlib Require Import ZArith String Ascii Bool Lia Permutation Sorted.
From Stdlib Require Import DecimalString DecimalPos.
From stdpp Require Import base list gmap.

Local Open Scope Z_scope.

(** ** Python strings *)

Module Py.

Abbreviation str := (list Z).

(** UTF-8 text to code points (malformed tails are dropped). *)
Fixpoint utf8_decode (bs : list Z) : str :=
  match bs with
  | [] => []
  | b0 :: r =>
      if b0 <? 128 then b0 :: utf8_decode r
      else if b0 <? 224 then
        match r with
        | b1 :: r' => ((b0 - 192) * 64 + (b1 - 128)) :: utf8_decode r'
        | _ => []
        end
      else if b0 <? 240 then
        match r with
        | b1 :: b2 :: r' =>
            ((b0 - 224) * 4096 + (b1 - 128) * 64 + (b2 - 128)) :: utf8_decode r'
        | _ => []
        end
      else
        match r with
        | b1 :: b2 :: b3 :: r' =>
            ((b0 - 240) * 262144 + (b1 - 128) * 4096 + (b2 - 128) * 64 + (b3 - 128))
              :: utf8_decode r'
        | _ => []
        end
  end.

Definition u (s : string) : str :=
  utf8_decode (map (fun a => Z.of_N (N_of_ascii a)) (list_ascii_of_string s)).
Arguments u s%_string.

(** [str.isspace] on one code point, which is also what [\s] matches. *)
Definition isspace (c : Z) : bool :=
  ((9 <=? c) && (c <=? 13)) || ((28 <=? c) && (c <=? 32))
  || (c =? 133) || (c =? 160) || (c =? 5760)
  || ((8192 <=? c) && (c <=? 8202))
  || (c =? 8232) || (c =? 8233) || (c =? 8239) || (c =? 8287) || (c =? 12288).

(** First code points of the blocks of decimal digits (category Nd); each
    block holds the digits 0 to 9 in order. *)
Definition digit_blocks : list Z :=
  [48; 1632; 1776; 1984; 2406; 2534; 2662; 2790; 2918; 3046; 3174; 3302;
   3430; 3558; 3664; 3792; 3872; 4160; 4240; 6112; 6160; 6470; 6608; 6784;
   6800; 6992; 7088; 7232; 7248; 42528; 43216; 43264; 43472; 43504; 43600;
   44016; 65296; 66720; 68912; 69734; 69872; 69942; 70096; 70384; 70736;
   70864; 71248; 71360; 71472; 71904; 72016; 72784; 73040; 73120; 92768;
   92864; 93008; 120782; 120792; 120802; 120812; 120822; 123200; 123632;
   125264; 130032].

(** The value of a decimal digit, as [int] reads it. *)
Definition digit_value (c : Z) : option Z :=
  match List.find (fun b => (b <=? c) && (c <? b + 10)) digit_blocks with
  | Some b => Some (c - b)
  | None => None
  end.

(** What [\d] matches. *)
Definition isdigit (c : Z) : bool :=
  match digit_value c with Some _ => true | None => false end.

(** [int(s)] for a string of decimal digits. *)
Definition int (s : str) : Z :=
  fold_left (fun acc c => 10 * acc + default 0 (digit_value c)) s 0.

(** [str(n)] for an integer. *)
Definition str_of_Z (n : Z) : str :=
  u (NilEmpty.string_of_int (Z.to_int n)).

(** *** Case mapping

    [str.lower] and [str.upper] map a string code point by code point, with
    the case mappings of the Unicode Character Database (version 14.0.0, that
    of CPython 3.11).  The tables below hold every code point that is not
    mapped to itself.  A row [(first, last, step, delta)] stands for the code
    points [first], [first + step], ... up to [last], each mapped to itself
    plus [delta]; the special tables hold the code points mapped to more than
    one. *)

Definition in_row (c : Z) (row : Z * Z * Z * Z) : bool :=
  let '(first, last, step, _) := row in
  (first <=? c) && (c <=? last) && ((c - first) mod step =? 0).

Definition map_by_rows (rows : list (Z * Z * Z * Z)) (c : Z) : Z :=
  match List.find (in_row c) rows with
  | Some (_, _, _, delta) => c + delta
  | None => c
  end.

Definition special (table : list (Z * str)) (c : Z) : option str :=
  match List.find (fun e => fst e =? c) table with
  | Some (_, s) => Some s
  | None => None
  end.

Definition in_ranges (ranges : list (Z * Z)) (c : Z) : bool :=
  existsb (fun r => (fst r <=? c) && (c <=? snd r)) ranges.

(** The simple lower-case mappings. *)
Definition LOWER_ROWS : list (Z * Z * Z * Z) :=
  [(65, 90, 1, 32); (192, 214, 1, 32); (216, 222, 1, 32); (256, 302, 2, 1);
   (306, 310, 2, 1); (313, 327, 2, 1); (330, 374, 2, 1); (376, 376, 1, -121);
   (377, 381, 2, 1); (385, 385, 1, 210); (386, 388, 2, 1); (390, 390, 1, 206);
   (391, 391, 1, 1); (393, 394, 1, 205); (395, 395, 1, 1); (398, 398, 1, 79);
   (399, 399, 1, 202); (400, 400, 1, 203); (401, 401, 1, 1);
   (403, 403, 1, 205); (404, 404, 1, 207); (406, 406, 1, 211);
   (407, 407, 1, 209); (408, 408, 1, 1); (412, 412, 1, 211);
   (413, 413, 1, 213); (415, 415, 1, 214); (416, 420, 2, 1);
   (422, 422, 1, 218); (423, 423, 1, 1); (425, 425, 1, 218); (428, 428, 1, 1);
   (430, 430, 1, 218); (431, 431, 1, 1); (433, 434, 1, 217); (435, 437, 2, 1);
   (439, 439, 1, 219); (440, 440, 1, 1); (444, 444, 1, 1); (452, 452, 1, 2);
   (453, 453, 1, 1); (455, 455, 1, 2); (456, 456, 1, 1); (458, 458, 1, 2);
   (459, 475, 2, 1); (478, 494, 2, 1); (497, 497, 1, 2); (498, 500, 2, 1);
   (502, 502, 1, -97); (503, 503, 1, -56); (504, 542, 2, 1);
   (544, 544, 1, -130); (546, 562, 2, 1); (570, 570, 1, 10795);
   (571, 571, 1, 1); (573, 573, 1, -163); (574, 574, 1, 10792);
   (577, 577, 1, 1); (579, 579, 1, -195); (580, 580, 1, 69);
   (581, 581, 1, 71); (582, 590, 2, 1); (880, 882, 2, 1); (886, 886, 1, 1);
   (895, 895, 1, 116); (902, 902, 1, 38); (904, 906, 1, 37);
   (908, 908, 1, 64); (910, 911, 1, 63); (913, 929, 1, 32); (931, 939, 1, 32);
   (975, 975, 1, 8); (984, 1006, 2, 1); (1012, 1012, 1, -60);
   (1015, 1015, 1, 1); (1017, 1017, 1, -7); (1018, 1018, 1, 1);
   (1021, 1023, 1, -130); (1024, 1039, 1, 80); (1040, 1071, 1, 32);
   (1120, 1152, 2, 1); (1162, 1214, 2, 1); (1216, 1216, 1, 15);
   (1217, 1229, 2, 1); (1232, 1326, 2, 1); (1329, 1366, 1, 48);
   (4256, 4293, 1, 7264); (4295, 4295, 1, 7264); (4301, 4301, 1, 7264);
   (5024, 5103, 1, 38864); (5104, 5109, 1, 8); (7312, 7354, 1, -3008);
   (7357, 7359, 1, -3008); (7680, 7828, 2, 1); (7838, 7838, 1, -7615);
   (7840, 7934, 2, 1); (7944, 7951, 1, -8); (7960, 7965, 1, -8);
   (7976, 7983, 1, -8); (7992, 7999, 1, -8); (8008, 8013, 1, -8);
   (8025, 8031, 2, -8); (8040, 8047, 1, -8); (8072, 8079, 1, -8);
   (8088, 8095, 1, -8); (8104, 8111, 1, -8); (8120, 8121, 1, -8);
   (8122, 8123, 1, -74); (8124, 8124, 1, -9); (8136, 8139, 1, -86);
   (8140, 8140, 1, -9); (8152, 8153, 1, -8); (8154, 8155, 1, -100);
   (8168, 8169, 1, -8); (8170, 8171, 1, -112); (8172, 8172, 1, -7);
   (8184, 8185, 1, -128); (8186, 8187, 1, -126); (8188, 8188, 1, -9);
   (8486, 8486, 1, -7517); (8490, 8490, 1, -8383); (8491, 8491, 1, -8262);
   (8498, 8498, 1, 28); (8544, 8559, 1, 16); (8579, 8579, 1, 1);
   (9398, 9423, 1, 26); (11264, 11311, 1, 48); (11360, 11360, 1, 1);
   (11362, 11362, 1, -10743); (11363, 11363, 1, -3814);
   (11364, 11364, 1, -10727); (11367, 11371, 2, 1); (11373, 11373, 1, -10780);
   (11374, 11374, 1, -10749); (11375, 11375, 1, -10783);
   (11376, 11376, 1, -10782); (11378, 11378, 1, 1); (11381, 11381, 1, 1);
   (11390, 11391, 1, -10815); (11392, 11490, 2, 1); (11499, 11501, 2, 1);
   (11506, 11506, 1, 1); (42560, 42604, 2, 1); (42624, 42650, 2, 1);
   (42786, 42798, 2, 1); (42802, 42862, 2, 1); (42873, 42875, 2, 1);
   (42877, 42877, 1, -35332); (42878, 42886, 2, 1); (42891, 42891, 1, 1);
   (42893, 42893, 1, -42280); (42896, 42898, 2, 1); (42902, 42920, 2, 1);
   (42922, 42922, 1, -42308); (42923, 42923, 1, -42319);
   (42924, 42924, 1, -42315); (42925, 42925, 1, -42305);
   (42926, 42926, 1, -42308); (42928, 42928, 1, -42258);
   (42929, 42929, 1, -42282); (42930, 42930, 1, -42261);
   (42931, 42931, 1, 928); (42932, 42946, 2, 1); (42948, 42948, 1, -48);
   (42949, 42949, 1, -42307); (42950, 42950, 1, -35384); (42951, 42953, 2, 1);
   (42960, 42960, 1, 1); (42966, 42968, 2, 1); (42997, 42997, 1, 1);
   (65313, 65338, 1, 32); (66560, 66599, 1, 40); (66736, 66771, 1, 40);
   (66928, 66964, 2, 39); (66929, 66938, 1, 39); (66941, 66954, 1, 39);
   (66957, 66962, 1, 39); (66965, 66965, 1, 39); (68736, 68786, 1, 64);
   (71840, 71871, 1, 32); (93760, 93791, 1, 32); (125184, 125217, 1, 34)].

(** The full lower-case mappings to more than one code point. *)
Definition LOWER_SPECIAL : list (Z * str) :=
  [(304, [105; 775])].

(** The simple upper-case mappings. *)
Definition UPPER_ROWS : list (Z * Z * Z * Z) :=
  [(97, 122, 1, -32); (181, 181, 1, 743); (224, 246, 1, -32);
   (248, 254, 1, -32); (255, 255, 1, 121); (257, 303, 2, -1);
   (305, 305, 1, -232); (307, 311, 2, -1); (314, 328, 2, -1);
   (331, 375, 2, -1); (378, 382, 2, -1); (383, 383, 1, -300);
   (384, 384, 1, 195); (387, 389, 2, -1); (392, 392, 1, -1);
   (396, 396, 1, -1); (402, 402, 1, -1); (405, 405, 1, 97); (409, 409, 1, -1);
   (410, 410, 1, 163); (414, 414, 1, 130); (417, 421, 2, -1);
   (424, 424, 1, -1); (429, 429, 1, -1); (432, 432, 1, -1); (436, 438, 2, -1);
   (441, 441, 1, -1); (445, 445, 1, -1); (447, 447, 1, 56); (453, 453, 1, -1);
   (454, 454, 1, -2); (456, 456, 1, -1); (457, 457, 1, -2); (459, 459, 1, -1);
   (460, 460, 1, -2); (462, 476, 2, -1); (477, 477, 1, -79);
   (479, 495, 2, -1); (498, 498, 1, -1); (499, 499, 1, -2); (501, 501, 1, -1);
   (505, 543, 2, -1); (547, 563, 2, -1); (572, 572, 1, -1);
   (575, 576, 1, 10815); (578, 578, 1, -1); (583, 591, 2, -1);
   (592, 592, 1, 10783); (593, 593, 1, 10780); (594, 594, 1, 10782);
   (595, 595, 1, -210); (596, 596, 1, -206); (598, 599, 1, -205);
   (601, 601, 1, -202); (603, 603, 1, -203); (604, 604, 1, 42319);
   (608, 608, 1, -205); (609, 609, 1, 42315); (611, 611, 1, -207);
   (613, 613, 1, 42280); (614, 614, 1, 42308); (616, 616, 1, -209);
   (617, 617, 1, -211); (618, 618, 1, 42308); (619, 619, 1, 10743);
   (620, 620, 1, 42305); (623, 623, 1, -211); (625, 625, 1, 10749);
   (626, 626, 1, -213); (629, 629, 1, -214); (637, 637, 1, 10727);
   (640, 640, 1, -218); (642, 642, 1, 42307); (643, 643, 1, -218);
   (647, 647, 1, 42282); (648, 648, 1, -218); (649, 649, 1, -69);
   (650, 651, 1, -217); (652, 652, 1, -71); (658, 658, 1, -219);
   (669, 669, 1, 42261); (670, 670, 1, 42258); (837, 837, 1, 84);
   (881, 883, 2, -1); (887, 887, 1, -1); (891, 893, 1, 130);
   (940, 940, 1, -38); (941, 943, 1, -37); (945, 961, 1, -32);
   (962, 962, 1, -31); (963, 971, 1, -32); (972, 972, 1, -64);
   (973, 974, 1, -63); (976, 976, 1, -62); (977, 977, 1, -57);
   (981, 981, 1, -47); (982, 982, 1, -54); (983, 983, 1, -8);
   (985, 1007, 2, -1); (1008, 1008, 1, -86); (1009, 1009, 1, -80);
   (1010, 1010, 1, 7); (1011, 1011, 1, -116); (1013, 1013, 1, -96);
   (1016, 1016, 1, -1); (1019, 1019, 1, -1); (1072, 1103, 1, -32);
   (1104, 1119, 1, -80); (1121, 1153, 2, -1); (1163, 1215, 2, -1);
   (1218, 1230, 2, -1); (1231, 1231, 1, -15); (1233, 1327, 2, -1);
   (1377, 1414, 1, -48); (4304, 4346, 1, 3008); (4349, 4351, 1, 3008);
   (5112, 5117, 1, -8); (7296, 7296, 1, -6254); (7297, 7297, 1, -6253);
   (7298, 7298, 1, -6244); (7299, 7300, 1, -6242); (7301, 7301, 1, -6243);
   (7302, 7302, 1, -6236); (7303, 7303, 1, -6181); (7304, 7304, 1, 35266);
   (7545, 7545, 1, 35332); (7549, 7549, 1, 3814); (7566, 7566, 1, 35384);
   (7681, 7829, 2, -1); (7835, 7835, 1, -59); (7841, 7935, 2, -1);
   (7936, 7943, 1, 8); (7952, 7957, 1, 8); (7968, 7975, 1, 8);
   (7984, 7991, 1, 8); (8000, 8005, 1, 8); (8017, 8023, 2, 8);
   (8032, 8039, 1, 8); (8048, 8049, 1, 74); (8050, 8053, 1, 86);
   (8054, 8055, 1, 100); (8056, 8057, 1, 128); (8058, 8059, 1, 112);
   (8060, 8061, 1, 126); (8112, 8113, 1, 8); (8126, 8126, 1, -7205);
   (8144, 8145, 1, 8); (8160, 8161, 1, 8); (8165, 8165, 1, 7);
   (8526, 8526, 1, -28); (8560, 8575, 1, -16); (8580, 8580, 1, -1);
   (9424, 9449, 1, -26); (11312, 11359, 1, -48); (11361, 11361, 1, -1);
   (11365, 11365, 1, -10795); (11366, 11366, 1, -10792);
   (11368, 11372, 2, -1); (11379, 11379, 1, -1); (11382, 11382, 1, -1);
   (11393, 11491, 2, -1); (11500, 11502, 2, -1); (11507, 11507, 1, -1);
   (11520, 11557, 1, -7264); (11559, 11559, 1, -7264);
   (11565, 11565, 1, -7264); (42561, 42605, 2, -1); (42625, 42651, 2, -1);
   (42787, 42799, 2, -1); (42803, 42863, 2, -1); (42874, 42876, 2, -1);
   (42879, 42887, 2, -1); (42892, 42892, 1, -1); (42897, 42899, 2, -1);
   (42900, 42900, 1, 48); (42903, 42921, 2, -1); (42933, 42947, 2, -1);
   (42952, 42954, 2, -1); (42961, 42961, 1, -1); (42967, 42969, 2, -1);
   (42998, 42998, 1, -1); (43859, 43859, 1, -928); (43888, 43967, 1, -38864);
   (65345, 65370, 1, -32); (66600, 66639, 1, -40); (66776, 66811, 1, -40);
   (66967, 67003, 2, -39); (66968, 66977, 1, -39); (66980, 66993, 1, -39);
   (66996, 67001, 1, -39); (67004, 67004, 1, -39); (68800, 68850, 1, -64);
   (71872, 71903, 1, -32); (93792, 93823, 1, -32); (125218, 125251, 1, -34)].

(** The full upper-case mappings to more than one code point. *)
Definition UPPER_SPECIAL : list (Z * str) :=
  [(223, [83; 83]); (329, [700; 78]); (496, [74; 780]);
   (912, [921; 776; 769]); (944, [933; 776; 769]); (1415, [1333; 1362]);
   (7830, [72; 817]); (7831, [84; 776]); (7832, [87; 778]); (7833, [89; 778]);
   (7834, [65; 702]); (8016, [933; 787]); (8018, [933; 787; 768]);
   (8020, [933; 787; 769]); (8022, [933; 787; 834]); (8064, [7944; 921]);
   (8065, [7945; 921]); (8066, [7946; 921]); (8067, [7947; 921]);
   (8068, [7948; 921]); (8069, [7949; 921]); (8070, [7950; 921]);
   (8071, [7951; 921]); (8072, [7944; 921]); (8073, [7945; 921]);
   (8074, [7946; 921]); (8075, [7947; 921]); (8076, [7948; 921]);
   (8077, [7949; 921]); (8078, [7950; 921]); (8079, [7951; 921]);
   (8080, [7976; 921]); (8081, [7977; 921]); (8082, [7978; 921]);
   (8083, [7979; 921]); (8084, [7980; 921]); (8085, [7981; 921]);
   (8086, [7982; 921]); (8087, [7983; 921]); (8088, [7976; 921]);
   (8089, [7977; 921]); (8090, [7978; 921]); (8091, [7979; 921]);
   (8092, [7980; 921]); (8093, [7981; 921]); (8094, [7982; 921]);
   (8095, [7983; 921]); (8096, [8040; 921]); (8097, [8041; 921]);
   (8098, [8042; 921]); (8099, [8043; 921]); (8100, [8044; 921]);
   (8101, [8045; 921]); (8102, [8046; 921]); (8103, [8047; 921]);
   (8104, [8040; 921]); (8105, [8041; 921]); (8106, [8042; 921]);
   (8107, [8043; 921]); (8108, [8044; 921]); (8109, [8045; 921]);
   (8110, [8046; 921]); (8111, [8047; 921]); (8114, [8122; 921]);
   (8115, [913; 921]); (8116, [902; 921]); (8118, [913; 834]);
   (8119, [913; 834; 921]); (8124, [913; 921]); (8130, [8138; 921]);
   (8131, [919; 921]); (8132, [905; 921]); (8134, [919; 834]);
   (8135, [919; 834; 921]); (8140, [919; 921]); (8146, [921; 776; 768]);
   (8147, [921; 776; 769]); (8150, [921; 834]); (8151, [921; 776; 834]);
   (8162, [933; 776; 768]); (8163, [933; 776; 769]); (8164, [929; 787]);
   (8166, [933; 834]); (8167, [933; 776; 834]); (8178, [8186; 921]);
   (8179, [937; 921]); (8180, [911; 921]); (8182, [937; 834]);
   (8183, [937; 834; 921]); (8188, [937; 921]); (64256, [70; 70]);
   (64257, [70; 73]); (64258, [70; 76]); (64259, [70; 70; 73]);
   (64260, [70; 70; 76]); (64261, [83; 84]); (64262, [83; 84]);
   (64275, [1348; 1350]); (64276, [1348; 1333]); (64277, [1348; 1339]);
   (64278, [1358; 1350]); (64279, [1348; 1341])].

(** The code points with the property Case_Ignorable. *)
Definition CASE_IGNORABLE : list (Z * Z) :=
  [(39, 39); (46, 46); (58, 58); (94, 94); (96, 96); (168, 168); (173, 173);
   (175, 175); (180, 180); (183, 184); (688, 879); (884, 885); (890, 890);
   (900, 901); (903, 903); (1155, 1161); (1369, 1369); (1375, 1375);
   (1425, 1469); (1471, 1471); (1473, 1474); (1476, 1477); (1479, 1479);
   (1524, 1524); (1536, 1541); (1552, 1562); (1564, 1564); (1600, 1600);
   (1611, 1631); (1648, 1648); (1750, 1757); (1759, 1768); (1770, 1773);
   (1807, 1807); (1809, 1809); (1840, 1866); (1958, 1968); (2027, 2037);
   (2042, 2042); (2045, 2045); (2070, 2093); (2137, 2139); (2184, 2184);
   (2192, 2193); (2200, 2207); (2249, 2306); (2362, 2362); (2364, 2364);
   (2369, 2376); (2381, 2381); (2385, 2391); (2402, 2403); (2417, 2417);
   (2433, 2433); (2492, 2492); (2497, 2500); (2509, 2509); (2530, 2531);
   (2558, 2558); (2561, 2562); (2620, 2620); (2625, 2626); (2631, 2632);
   (2635, 2637); (2641, 2641); (2672, 2673); (2677, 2677); (2689, 2690);
   (2748, 2748); (2753, 2757); (2759, 2760); (2765, 2765); (2786, 2787);
   (2810, 2815); (2817, 2817); (2876, 2876); (2879, 2879); (2881, 2884);
   (2893, 2893); (2901, 2902); (2914, 2915); (2946, 2946); (3008, 3008);
   (3021, 3021); (3072, 3072); (3076, 3076); (3132, 3132); (3134, 3136);
   (3142, 3144); (3146, 3149); (3157, 3158); (3170, 3171); (3201, 3201);
   (3260, 3260); (3263, 3263); (3270, 3270); (3276, 3277); (3298, 3299);
   (3328, 3329); (3387, 3388); (3393, 3396); (3405, 3405); (3426, 3427);
   (3457, 3457); (3530, 3530); (3538, 3540); (3542, 3542); (3633, 3633);
   (3636, 3642); (3654, 3662); (3761, 3761); (3764, 3772); (3782, 3782);
   (3784, 3789); (3864, 3865); (3893, 3893); (3895, 3895); (3897, 3897);
   (3953, 3966); (3968, 3972); (3974, 3975); (3981, 3991); (3993, 4028);
   (4038, 4038); (4141, 4144); (4146, 4151); (4153, 4154); (4157, 4158);
   (4184, 4185); (4190, 4192); (4209, 4212); (4226, 4226); (4229, 4230);
   (4237, 4237); (4253, 4253); (4348, 4348); (4957, 4959); (5906, 5908);
   (5938, 5939); (5970, 5971); (6002, 6003); (6068, 6069); (6071, 6077);
   (6086, 6086); (6089, 6099); (6103, 6103); (6109, 6109); (6155, 6159);
   (6211, 6211); (6277, 6278); (6313, 6313); (6432, 6434); (6439, 6440);
   (6450, 6450); (6457, 6459); (6679, 6680); (6683, 6683); (6742, 6742);
   (6744, 6750); (6752, 6752); (6754, 6754); (6757, 6764); (6771, 6780);
   (6783, 6783); (6823, 6823); (6832, 6862); (6912, 6915); (6964, 6964);
   (6966, 6970); (6972, 6972); (6978, 6978); (7019, 7027); (7040, 7041);
   (7074, 7077); (7080, 7081); (7083, 7085); (7142, 7142); (7144, 7145);
   (7149, 7149); (7151, 7153); (7212, 7219); (7222, 7223); (7288, 7293);
   (7376, 7378); (7380, 7392); (7394, 7400); (7405, 7405); (7412, 7412);
   (7416, 7417); (7468, 7530); (7544, 7544); (7579, 7679); (8125, 8125);
   (8127, 8129); (8141, 8143); (8157, 8159); (8173, 8175); (8189, 8190);
   (8203, 8207); (8216, 8217); (8228, 8228); (8231, 8231); (8234, 8238);
   (8288, 8292); (8294, 8303); (8305, 8305); (8319, 8319); (8336, 8348);
   (8400, 8432); (11388, 11389); (11503, 11505); (11631, 11631);
   (11647, 11647); (11744, 11775); (11823, 11823); (12293, 12293);
   (12330, 12333); (12337, 12341); (12347, 12347); (12441, 12446);
   (12540, 12542); (40981, 40981); (42232, 42237); (42508, 42508);
   (42607, 42610); (42612, 42621); (42623, 42623); (42652, 42655);
   (42736, 42737); (42752, 42785); (42864, 42864); (42888, 42890);
   (42994, 42996); (43000, 43001); (43010, 43010); (43014, 43014);
   (43019, 43019); (43045, 43046); (43052, 43052); (43204, 43205);
   (43232, 43249); (43263, 43263); (43302, 43309); (43335, 43345);
   (43392, 43394); (43443, 43443); (43446, 43449); (43452, 43453);
   (43471, 43471); (43493, 43494); (43561, 43566); (43569, 43570);
   (43573, 43574); (43587, 43587); (43596, 43596); (43632, 43632);
   (43644, 43644); (43696, 43696); (43698, 43700); (43703, 43704);
   (43710, 43711); (43713, 43713); (43741, 43741); (43756, 43757);
   (43763, 43764); (43766, 43766); (43867, 43871); (43881, 43883);
   (44005, 44005); (44008, 44008); (44013, 44013); (64286, 64286);
   (64434, 64450); (65024, 65039); (65043, 65043); (65056, 65071);
   (65106, 65106); (65109, 65109); (65279, 65279); (65287, 65287);
   (65294, 65294); (65306, 65306); (65342, 65342); (65344, 65344);
   (65392, 65392); (65438, 65439); (65507, 65507); (65529, 65531);
   (66045, 66045); (66272, 66272); (66422, 66426); (67456, 67461);
   (67463, 67504); (67506, 67514); (68097, 68099); (68101, 68102);
   (68108, 68111); (68152, 68154); (68159, 68159); (68325, 68326);
   (68900, 68903); (69291, 69292); (69446, 69456); (69506, 69509);
   (69633, 69633); (69688, 69702); (69744, 69744); (69747, 69748);
   (69759, 69761); (69811, 69814); (69817, 69818); (69821, 69821);
   (69826, 69826); (69837, 69837); (69888, 69890); (69927, 69931);
   (69933, 69940); (70003, 70003); (70016, 70017); (70070, 70078);
   (70089, 70092); (70095, 70095); (70191, 70193); (70196, 70196);
   (70198, 70199); (70206, 70206); (70367, 70367); (70371, 70378);
   (70400, 70401); (70459, 70460); (70464, 70464); (70502, 70508);
   (70512, 70516); (70712, 70719); (70722, 70724); (70726, 70726);
   (70750, 70750); (70835, 70840); (70842, 70842); (70847, 70848);
   (70850, 70851); (71090, 71093); (71100, 71101); (71103, 71104);
   (71132, 71133); (71219, 71226); (71229, 71229); (71231, 71232);
   (71339, 71339); (71341, 71341); (71344, 71349); (71351, 71351);
   (71453, 71455); (71458, 71461); (71463, 71467); (71727, 71735);
   (71737, 71738); (71995, 71996); (71998, 71998); (72003, 72003);
   (72148, 72151); (72154, 72155); (72160, 72160); (72193, 72202);
   (72243, 72248); (72251, 72254); (72263, 72263); (72273, 72278);
   (72281, 72283); (72330, 72342); (72344, 72345); (72752, 72758);
   (72760, 72765); (72767, 72767); (72850, 72871); (72874, 72880);
   (72882, 72883); (72885, 72886); (73009, 73014); (73018, 73018);
   (73020, 73021); (73023, 73029); (73031, 73031); (73104, 73105);
   (73109, 73109); (73111, 73111); (73459, 73460); (78896, 78904);
   (92912, 92916); (92976, 92982); (92992, 92995); (94031, 94031);
   (94095, 94111); (94176, 94177); (94179, 94180); (110576, 110579);
   (110581, 110587); (110589, 110590); (113821, 113822); (113824, 113827);
   (118528, 118573); (118576, 118598); (119143, 119145); (119155, 119170);
   (119173, 119179); (119210, 119213); (119362, 119364); (121344, 121398);
   (121403, 121452); (121461, 121461); (121476, 121476); (121499, 121503);
   (121505, 121519); (122880, 122886); (122888, 122904); (122907, 122913);
   (122915, 122916); (122918, 122922); (123184, 123197); (123566, 123566);
   (123628, 123631); (125136, 125142); (125252, 125259); (127995, 127999);
   (917505, 917505); (917536, 917631); (917760, 917999)].

(** The code points with the property Cased. *)
Definition CASED : list (Z * Z) :=
  [(65, 90); (97, 122); (170, 170); (181, 181); (186, 186); (192, 214);
   (216, 246); (248, 442); (444, 447); (452, 659); (661, 696); (704, 705);
   (736, 740); (837, 837); (880, 883); (886, 887); (890, 893); (895, 895);
   (902, 902); (904, 906); (908, 908); (910, 929); (931, 1013); (1015, 1153);
   (1162, 1327); (1329, 1366); (1376, 1416); (4256, 4293); (4295, 4295);
   (4301, 4301); (4304, 4346); (4349, 4351); (5024, 5109); (5112, 5117);
   (7296, 7304); (7312, 7354); (7357, 7359); (7424, 7615); (7680, 7957);
   (7960, 7965); (7968, 8005); (8008, 8013); (8016, 8023); (8025, 8025);
   (8027, 8027); (8029, 8029); (8031, 8061); (8064, 8116); (8118, 8124);
   (8126, 8126); (8130, 8132); (8134, 8140); (8144, 8147); (8150, 8155);
   (8160, 8172); (8178, 8180); (8182, 8188); (8305, 8305); (8319, 8319);
   (8336, 8348); (8450, 8450); (8455, 8455); (8458, 8467); (8469, 8469);
   (8473, 8477); (8484, 8484); (8486, 8486); (8488, 8488); (8490, 8493);
   (8495, 8500); (8505, 8505); (8508, 8511); (8517, 8521); (8526, 8526);
   (8544, 8575); (8579, 8580); (9398, 9449); (11264, 11492); (11499, 11502);
   (11506, 11507); (11520, 11557); (11559, 11559); (11565, 11565);
   (42560, 42605); (42624, 42653); (42786, 42887); (42891, 42894);
   (42896, 42954); (42960, 42961); (42963, 42963); (42965, 42969);
   (42997, 42998); (43000, 43002); (43824, 43866); (43868, 43880);
   (43888, 43967); (64256, 64262); (64275, 64279); (65313, 65338);
   (65345, 65370); (66560, 66639); (66736, 66771); (66776, 66811);
   (66928, 66938); (66940, 66954); (66956, 66962); (66964, 66965);
   (66967, 66977); (66979, 66993); (66995, 67001); (67003, 67004);
   (67456, 67456); (67459, 67461); (67463, 67504); (67506, 67514);
   (68736, 68786); (68800, 68850); (71840, 71903); (93760, 93823);
   (119808, 119892); (119894, 119964); (119966, 119967); (119970, 119970);
   (119973, 119974); (119977, 119980); (119982, 119993); (119995, 119995);
   (119997, 120003); (120005, 120069); (120071, 120074); (120077, 120084);
   (120086, 120092); (120094, 120121); (120123, 120126); (120128, 120132);
   (120134, 120134); (120138, 120144); (120146, 120485); (120488, 120512);
   (120514, 120538); (120540, 120570); (120572, 120596); (120598, 120628);
   (120630, 120654); (120656, 120686); (120688, 120712); (120714, 120744);
   (120746, 120770); (120772, 120779); (122624, 122633); (122635, 122654);
   (125184, 125251); (127280, 127305); (127312, 127337); (127344, 127369)].

(** Case mapping of one code point. *)
Definition lower_char (c : Z) : str :=
  match special LOWER_SPECIAL c with
  | Some s => s
  | None => [map_by_rows LOWER_ROWS c]
  end.

Definition upper_char (c : Z) : str :=
  match special UPPER_SPECIAL c with
  | Some s => s
  | None => [map_by_rows UPPER_ROWS c]
  end.

Definition is_case_ignorable (c : Z) : bool := in_ranges CASE_IGNORABLE c.
Definition is_cased (c : Z) : bool := in_ranges CASED c.

(** Whether the first code point of [s] that is not case-ignorable is cased. *)
Fixpoint cased_first (s : str) : bool :=
  match s with
  | [] => false
  | c :: s' => if is_case_ignorable c then cased_first s' else is_cased c
  end.

Definition capital_sigma : Z := 931.

(** [str.lower].  A capital sigma is mapped by its context: to the final
    sigma when a cased letter comes before it and none comes after it,
    case-ignorable code points apart, and to the small sigma otherwise.
    [before] holds the code points already passed, the last one first. *)
Fixpoint lower_from (before s : str) : str :=
  match s with
  | [] => []
  | c :: s' =>
      (if c =? capital_sigma
       then [if cased_first before && negb (cased_first s') then 962 else 963]
       else lower_char c)
      ++ lower_from (c :: before) s'
  end.

Definition lower (s : str) : str := lower_from [] s.

(** [str.upper] *)
Definition upper (s : str) : str := concat (map upper_char s).

Fixpoint startswith (s p : str) : bool :=
  match p, s with
  | [], _ => true
  | a :: p', b :: s' => (a =? b) && startswith s' p'
  | _ :: _, [] => false
  end.

Definition endswith (s p : str) : bool := startswith (rev s) (rev p).

(** [sub in s] *)
Fixpoint contains (s sub : str) : bool :=
  startswith s sub
  || match s with
     | [] => false
     | _ :: s' => contains s' sub
     end.

Fixpoint lstrip (s : str) : str :=
  match s with
  | c :: s' => if isspace c then lstrip s' else s
  | [] => []
  end.

Definition rstrip (s : str) : str := rev (lstrip (rev s)).
Definition strip (s : str) : str := rstrip (lstrip s).

(** [s.replace(old, new)] for a non-empty [old]: every occurrence, left to
    right, without overlap.  [skip] counts the characters of an occurrence
    still to be passed over. *)
Fixpoint replace_go (old new : str) (skip : nat) (s : str) : str :=
  match s with
  | [] => []
  | c :: s' =>
      match skip with
      | S n => replace_go old new n s'
      | O =>
          if startswith s old
          then new ++ replace_go old new (Nat.pred (length old)) s'
          else c :: replace_go old new O s'
      end
  end.

Definition replace (s old new : str) : str := replace_go old new O s.

(** [s.split(sep)] for a one-character separator. *)
Fixpoint split (sep : Z) (s : str) : list str :=
  match s with
  | [] => [[]]
  | c :: s' =>
      if c =? sep then [] :: split sep s'
      else match split sep s' with
           | l :: ls => (c :: l) :: ls
           | [] => [[c]]
           end
  end.

(** Truth value of an optional string: [None] and the empty string are false. *)
Definition truthy (o : option str) : bool :=
  match o with
  | Some (_ :: _) => true
  | _ => false
  end.

End Py.

(** ** Regular expressions

    The patterns of the script repeat single characters only ([\d+], [\s*],
    [.+?], a negated quote), so repetition is over a character class and the
    matcher is structurally recursive on the subject.  The matcher backtracks
    in the order of Python's [re]: alternatives left to right, greedy
    repetition longest first, lazy repetition shortest first. *)

Module Re.

Import Py.

Inductive regex :=
| Eps
| Chr (p : Z -> bool)
| Seq (a b : regex)
| Alt (a b : regex)
| Star (p : Z -> bool)
| LazyStar (p : Z -> bool)
| Grp (n : nat) (a : regex)
| Bol
| Eol.

Definition captures := list (nat * str).

Fixpoint star_greedy {A} (p : Z -> bool) (bol : bool) (s : str)
    (k : bool -> str -> option A) : option A :=
  match s with
  | c :: s' =>
      if p c then
        match star_greedy p false s' k with
        | Some a => Some a
        | None => k bol s
        end
      else k bol s
  | [] => k bol s
  end.

Fixpoint star_lazy {A} (p : Z -> bool) (bol : bool) (s : str)
    (k : bool -> str -> option A) : option A :=
  match k bol s with
  | Some a => Some a
  | None =>
      match s with
      | c :: s' => if p c then star_lazy p false s' k else None
      | [] => None
      end
  end.

(** [bol] tells whether the position is the start of the subject; [k] is the
    rest of the match. *)
Fixpoint rmatch {A} (r : regex) (bol : bool) (s : str) (caps : captures)
    (k : bool -> str -> captures -> option A) : option A :=
  match r with
  | Eps => k bol s caps
  | Chr p =>
      match s with
      | c :: s' => if p c then k false s' caps else None
      | [] => None
      end
  | Seq a b => rmatch a bol s caps (fun bol' s' caps' => rmatch b bol' s' caps' k)
  | Alt a b =>
      match rmatch a bol s caps k with
      | Some x => Some x
      | None => rmatch b bol s caps k
      end
  | Star p => star_greedy p bol s (fun bol' s' => k bol' s' caps)
  | LazyStar p => star_lazy p bol s (fun bol' s' => k bol' s' caps)
  | Grp n a =>
      rmatch a bol s caps
        (fun bol' s' caps' => k bol' s' ((n, take (length s - length s') s) :: caps'))
  | Bol => if bol then k bol s caps else None
  | Eol =>
      match s with
      | [] => k bol s caps
      | [10] => k bol s caps
      | _ => None
      end
  end.

(** A match at the current position: what is left of the subject after it,
    and the groups. *)
Definition match_here (r : regex) (bol : bool) (s : str) : option (str * captures) :=
  rmatch r bol s [] (fun _ s' caps => Some (s', caps)).

(** [pattern.match(s)] *)
Definition match_ (r : regex) (s : str) : option (str * captures) :=
  match_here r true s.

Fixpoint search_from (r : regex) (bol : bool) (s : str) : option (str * str * captures) :=
  match match_here r bol s with
  | Some (rest, caps) => Some (take (length s - length rest) s, rest, caps)
  | None =>
      match s with
      | [] => None
      | _ :: s' => search_from r false s'
      end
  end.

(** [pattern.search(s)]: the leftmost match (its text, what follows it, its groups). *)
Definition search (r : regex) (s : str) : option (str * str * captures) :=
  search_from r true s.

Definition group (n : nat) (caps : captures) : str :=
  match List.find (fun nc => Nat.eqb (fst nc) n) caps with
  | Some (_, g) => g
  | None => []
  end.

(** [re.sub(pattern, repl, s)] for a literal replacement.  [skip] counts the
    characters of the last match still to be passed over. *)
Fixpoint sub_go (r : regex) (repl : str) (bol : bool) (skip : nat) (s : str) : str :=
  match skip with
  | S n =>
      match s with
      | [] => []
      | _ :: s' => sub_go r repl false n s'
      end
  | O =>
      match match_here r bol s with
      | Some (rest, _) =>
          repl ++
          match s with
          | [] => []
          | c :: s' =>
              match (length s - length rest)%nat with
              | O => c :: sub_go r repl false O s'
              | S m => sub_go r repl false m s'
              end
          end
      | None =>
          match s with
          | [] => []
          | c :: s' => c :: sub_go r repl false O s'
          end
      end
  end.

Definition sub (r : regex) (repl : str) (s : str) : str := sub_go r repl true O s.

(** Pattern syntax. *)
Definition lit (c : Z) : regex := Chr (Z.eqb c).
Definition plus (p : Z -> bool) : regex := Seq (Chr p) (Star p).
Definition lazy_plus (p : Z -> bool) : regex := Seq (Chr p) (LazyStar p).
Definition opt (a : regex) : regex := Alt a Eps.
Definition dot (c : Z) : bool := negb (c =? 10).
Definition seqs (rs : list regex) : regex := fold_right Seq Eps rs.
Definition lits (s : str) : regex := seqs (map lit s).

(** A character of a pattern compiled with [re.IGNORECASE]: both cases of a
    letter, and the code points the engine folds onto it. *)
Definition ci_set (c : Z) : list Z :=
  (if (65 <=? c) && (c <=? 90) then [c; c + 32]
   else if (97 <=? c) && (c <=? 122) then [c - 32; c]
   else [c])
  ++ (if (c =? 83) || (c =? 115) then [383] else [])
  ++ (if (c =? 75) || (c =? 107) then [8490] else [])
  ++ (if (c =? 73) || (c =? 105) then [304; 305] else []).

Definition ci (c : Z) : regex := Chr (fun x => existsb (Z.eqb x) (ci_set c)).
Definition cis (s : str) : regex := seqs (map ci s).

End Re.

(** ** The interpreter's string hash

    [hash(s)] is not part of the script: CPython computes it with SipHash-1-3
    over the string's internal buffer, keyed by a secret [(k0, k1)] that is
    drawn when the process starts (all zero when hash randomisation is
    switched off). *)

Module CPython.

Import Py.

Definition mask64 (x : Z) : Z := x mod 2 ^ 64.

Definition rotl (x b : Z) : Z :=
  mask64 (Z.lor (Z.shiftl x b) (Z.shiftr x (64 - b))).

Definition sipstate := (Z * Z * Z * Z)%type.

Definition half_round (a b c d s t : Z) : sipstate :=
  let a := mask64 (a + b) in
  let c := mask64 (c + d) in
  let b := Z.lxor (rotl b s) a in
  let d := Z.lxor (rotl d t) c in
  let a := rotl a 32 in
  (a, b, c, d).

Definition single_round (v : sipstate) : sipstate :=
  let '(v0, v1, v2, v3) := v in
  let '(v0, v1, v2, v3) := half_round v0 v1 v2 v3 13 16 in
  let '(v2, v1, v0, v3) := half_round v2 v1 v0 v3 17 21 in
  (v0, v1, v2, v3).

(** Little-endian value of a run of bytes. *)
Definition le (bs : list Z) : Z :=
  fold_right (fun b acc => b + 256 * acc) 0 bs.

Definition absorb (v : sipstate) (m : Z) : sipstate :=
  let '(v0, v1, v2, v3) := v in
  let '(v0, v1, v2, v3) := single_round (v0, v1, v2, Z.lxor v3 m) in
  (Z.lxor v0 m, v1, v2, v3).

(** The whole 8-byte words, then the 0 to 7 bytes left over. *)
Fixpoint sip_words (v : sipstate) (bs : list Z) : sipstate * list Z :=
  match bs with
  | b0 :: b1 :: b2 :: b3 :: b4 :: b5 :: b6 :: b7 :: r =>
      sip_words (absorb v (le [b0; b1; b2; b3; b4; b5; b6; b7])) r
  | _ => (v, bs)
  end.

Definition siphash13 (k0 k1 : Z) (bs : list Z) : Z :=
  let v := (Z.lxor k0 0x736f6d6570736575, Z.lxor k1 0x646f72616e646f6d,
            Z.lxor k0 0x6c7967656e657261, Z.lxor k1 0x7465646279746573) in
  let '(v, tail) := sip_words v bs in
  let b := Z.lor (mask64 (Z.shiftl (Z.of_nat (length bs)) 56)) (le tail) in
  let '(v0, v1, v2, v3) := absorb v b in
  let v := single_round (single_round (single_round (v0, v1, Z.lxor v2 255, v3))) in
  let '(v0, v1, v2, v3) := v in
  Z.lxor (Z.lxor v0 v1) (Z.lxor v2 v3).

(** The buffer of a string: 1, 2 or 4 bytes a character, by its widest one. *)
Definition le_bytes (n : nat) (c : Z) : list Z :=
  map (fun i => (c / 256 ^ Z.of_nat i) mod 256) (seq 0 n).

Definition buffer (s : str) : list Z :=
  let kind :=
    if forallb (fun c => c <? 256) s then 1%nat
    else if forallb (fun c => c <? 65536) s then 2%nat
    else 4%nat in
  concat (map (le_bytes kind) s).

(** [hash(s)] in a process whose hash secret is [(k0, k1)]. *)
Definition hash (k : Z * Z) (s : str) : Z :=
  match s with
  | [] => 0
  | _ =>
      let x := siphash13 (fst k) (snd k) (buffer s) in
      let x := if x <? 2 ^ 63 then x else x - 2 ^ 64 in
      if x =? -1 then -2 else x
  end.

End CPython.

(** ** The converter script *)

Module Convert.

Import Py Re.

Definition IGNORED_CATEGORIES : list str :=
  [u "⏺️ ABERTO"; u "⏺️ BAND"; u "⏺️ SBT"; u "⏺️ GLOBO"; u "⏺️ RECORD"; u "⏺️ HBO";
   u "⏺️ TELECINE"; u "⏺️ DISCOVERY"; u "⏺️ CINE SKY"; u "⏺️ FILMES E SERIES";
   u "⏺️ NOTICIA"; u "⏺️ NBA"; u "⏺️ RUNTIME"; u "⏺️ 4K";
   u "GLOBO (CENTRO-OESTE)"; u "GLOBO (NORDESTE)"; u "GLOBO (NORTE)";
   u "GLOBO (SUDESTE)"; u "GLOBO (SUL)";
   u "⚽APPLETV"; u "⚽DAZN"; u "⚽DISNEY"; u "⚽ESPORTE"; u "⚽HBO";
   u "⚽PARAMOUNT"; u "⚽PREMIERE"; u "⚽PRIME"; u "⚽ COPINHA";
   u "A FAZENDA"; u "BBB 20"; u "BBB 2026"; u "ESTRELA DA CASA";
   u "Área do cliente"; u "JOGOS DE HOJE"; u "RÁDIOS FM"; u "CANAIS:"].

Definition ADULT_KEYWORDS : list str :=
  [u "ADULTOS"; u "[HOT]"; u "XXX"; u "[Adulto]"; u "ADULTO"; u "❌❤️"].

Definition SERIES_CATEGORY_KEYWORDS : list str :=
  [u "series"; u "série"; u "novelas"; u "doramas"; u "programas"; u "stand up"; u "24h"].

(** Characters of the patterns. *)
Definition ch (s : string) : Z := hd 0 (u s).
Arguments ch s%_string.

Definition digits : regex := plus isdigit.
Definition spaces : regex := Star isspace.

Definition EPISODE_PATTERNS : list regex :=
  [ seqs [ci (ch "S"); digits; spaces; ci (ch "E"); digits];
    seqs [ci (ch "T"); digits; spaces; ci (ch "E"); digits];
    seqs [digits; spaces; ci (ch "x"); spaces; digits];
    seqs [cis (u "Temporada"); spaces; digits];
    seqs [cis (u "Temp"); opt (lit (ch ".")); spaces; digits];
    seqs [cis (u "Season"); spaces; digits] ].

Definition SERIES_INFO_PATTERNS : list regex :=
  [ seqs [Bol; Grp 1 (lazy_plus dot); spaces; ci (ch "S"); Grp 2 digits; spaces;
          ci (ch "E"); Grp 3 digits];
    seqs [Bol; Grp 1 (lazy_plus dot); spaces; ci (ch "T"); Grp 2 digits; spaces;
          ci (ch "E"); Grp 3 digits];
    seqs [Bol; Grp 1 (lazy_plus dot); spaces; Grp 2 digits; spaces; ci (ch "x");
          spaces; Grp 3 digits] ].

Definition should_ignore_category (category : str) : bool :=
  let upper := upper category in
  existsb
    (fun ignored =>
       let upper_ignored := Py.upper ignored in
       startswith upper upper_ignored
       || bool_decide (upper = upper_ignored)
       || bool_decide (category = ignored))
    IGNORED_CATEGORIES.

Definition is_series_by_category (category : str) : bool :=
  let lower := lower category in
  existsb (fun keyword => contains lower keyword) SERIES_CATEGORY_KEYWORDS.

Definition is_series_by_name (name : str) : bool :=
  existsb (fun pattern => bool_decide (is_Some (search pattern name))) EPISODE_PATTERNS.

Definition is_adult_content (name category : str) : bool :=
  let combined := name ++ u " " ++ category in
  existsb (fun keyword => contains combined keyword) ADULT_KEYWORDS.

Fixpoint first_match (patterns : list regex) (name : str) : option (str * Z * Z) :=
  match patterns with
  | [] => None
  | pattern :: rest =>
      match match_ pattern name with
      | Some (_, caps) =>
          Some (strip (group 1 caps), int (group 2 caps), int (group 3 caps))
      | None => first_match rest name
      end
  end.

Definition parse_series_info (name : str) : option (str * Z * Z) :=
  first_match SERIES_INFO_PATTERNS name.

Definition clean_name (name : str) : str :=
  let name :=
    sub (seqs [Bol; digits; spaces;
               Chr (fun c => (c =? ch "-") || (c =? ch "–")); spaces]) [] name in
  let name :=
    sub (seqs [spaces; lit (ch "["); ci (ch "L"); lit (ch "]"); spaces; Eol]) [] name in
  let name :=
    sub (seqs [spaces; lit (ch "("); cis (u "DUB"); lit (ch ")"); spaces]) [] name in
  let name :=
    sub (seqs [spaces; lit (ch "("); cis (u "LEG"); lit (ch ")"); spaces]) [] name in
  strip name.

Definition is_az09 (c : Z) : bool :=
  ((ch "a" <=? c) && (c <=? ch "z")) || ((ch "0" <=? c) && (c <=? ch "9")).

Section with_hash.

(** The interpreter's [hash] on strings. *)
Variable hash : str -> Z.

Definition generate_id (name url : str) : str :=
  let normalized :=
    strip (sub (Chr (fun c => negb (is_az09 c || isspace c))) [] (lower name)) in
  let normalized := sub (plus isspace) (u "-") normalized in
  let url_hash := str_of_Z (Z.abs (hash url)) in
  let hash_part := if (6 <? length url_hash)%nat then take 6 url_hash else url_hash in
  normalized ++ u "-" ++ hash_part.

End with_hash.

(** The prefixes removed before the rules are tried (the first statement of
    [normalize_category]). *)
Definition strip_prefix (category : str) : str :=
  if startswith category (u "OND /") then
    let normalized := strip (replace category (u "OND /") []) in
    let normalized :=
      if endswith normalized (u " -")
      then strip (take (length normalized - 2) normalized)
      else normalized in
    let normalized :=
      match normalized with
      | c :: rest => upper_char c ++ rest
      | [] => normalized
      end in
    match normalized with _ :: _ => normalized | [] => u "Filmes" end
  else if startswith category (u "Series |") then
    let normalized := strip (replace category (u "Series |") []) in
    match normalized with _ :: _ => normalized | [] => u "Séries" end
  else if startswith category (u "COLETÂNEA:") then
    strip (replace category (u "COLETÂNEA:") [])
  else category.

Definition normalize_category (category : str) : str :=
  let category := strip_prefix category in
  let lower := lower category in
  let has := contains lower in
  if has (u "netflix") then u "Netflix"
  else if has (u "prime video") || has (u "amazon prime") then u "Prime Video"
  else if has (u "disney") then u "Disney+"
  else if has (u "max") && negb (has (u "mad max")) then u "Max"
  else if has (u "hbo") then u "Max"
  else if has (u "globoplay") then u "Globoplay"
  else if has (u "paramount") then u "Paramount+"
  else if has (u "apple") then u "Apple TV+"
  else if has (u "star") && has (u "star plus") then u "Star+"
  else if has (u "discovery") then u "Discovery+"
  else if has (u "crunchyroll") then u "Crunchyroll"
  else if has (u "funimation") then u "Funimation"
  else if has (u "directv") then u "DirecTV"
  else if has (u "claro video") then u "Claro Video"
  else if has (u "lionsgate") then u "Lionsgate"
  else if has (u "plutotv") then u "PlutoTV"
  else if has (u "play plus") then u "Play Plus"
  else if has (u "amc") then u "AMC+"
  else if has (u "brasil paralelo") then u "Brasil Paralelo"
  else if has (u "sbt") then u "SBT"
  else if has (u "univer") then u "Univer"
  else if has (u "novela") then u "Novelas"
  else if has (u "dorama") then u "Doramas"
  else if has (u "anime") then u "Animes"
  else if has (u "turca") then u "Turcas"
  else if has (u "programas de tv") || bool_decide (u "programas" = lower)
    then u "Programas de TV"
  else if has (u "stand up") || has (u "stand-up") then u "Stand Up"
  else if has (u "legendad") then u "Legendados"
  else if has (u "document") || bool_decide (u "docu" = lower) then u "Documentário"
  else if has (u "com") && (has (u "dia") || has (u "edia") || has (u "édia"))
    then u "Comédia"
  else if has (u "drama") then u "Drama"
  else if has (u "terror") then u "Terror"
  else if startswith lower (u "a") && (has (u "ção") || has (u "cao")) then u "Ação"
  else if has (u "suspense") then u "Suspense"
  else if has (u "romance") then u "Romance"
  else if has (u "anima") && (has (u "ção") || has (u "cao")) then u "Animação"
  else if has (u "fantasia") || (has (u "fic") && has (u "o")) then u "Fantasia"
  else if has (u "faroeste") then u "Faroeste"
  else if has (u "guerra") then u "Guerra"
  else if has (u "aventura") then u "Aventura"
  else if has (u "religio") then u "Religiosos"
  else if has (u "nacion") then u "Nacionais"
  else if has (u "crime") then u "Crime"
  else if has (u "fam") && has (u "lia") then u "Família"
  else if has (u "marvel") || has (u "ucm") then u "Marvel"
  else if has (u "4k") || has (u "uhd") then u "UHD 4K"
  else if has (u "infantil") then u "Infantil"
  else if has (u "esporte") then u "Esportes"
  else if has (u "show") then u "Shows"
  else if has (u "cinema") then u "Cinema"
  else if has (u "oscar") then u "Oscar"
  else if has (u "hot") || has (u "adult") then u "Adultos"
  else if has (u "sugest") || has (u "semana") then u "Sugestão da Semana"
  else if has (u "outra") && has (u "produtora") then u "Outras Produtoras"
  else if has (u "lançamento") || has (u "lancamento") then
    match search (seqs [lit (ch "2"); lit (ch "0"); Chr isdigit; Chr isdigit]) category with
    | Some (year, _, _) => u "Lançamentos " ++ year
    | None => u "Lançamentos"
    end
  else if has (u "dublagem") && has (u "oficial") then u "Dublagem Não Oficial"
  else if bool_decide (u "alien" = lower) then u "Coletânea: Alien"
  else if has (u "american pie") then u "Coletânea: American Pie"
  else if has (u "john wick") || has (u "jhon wick") then u "Coletânea: John Wick"
  else if has (u "denzel") then u "Coletânea: Denzel Washington"
  else if has (u "mad max") then u "Coletânea: Mad Max"
  else if has (u "homem aranha") || has (u "aranha") then u "Coletânea: Homem Aranha"
  else if has (u "jogos mortais") then u "Coletânea: Jogos Mortais"
  else if has (u "jogos vorazes") then u "Coletânea: Jogos Vorazes"
  else if has (u "mib") || has (u "homens de preto") then u "Coletânea: MIB"
  else if has (u "exterminador") then u "Coletânea: Exterminador"
  else if has (u "shrek") then u "Coletânea: Shrek"
  else if has (u "p") && has (u "nico") && has (u "todo")
    then u "Coletânea: Todo Mundo em Pânico"
  else if has (u "toy story") then u "Coletânea: Toy Story"
  else if has (u "harry potter") then u "Coletânea: Harry Potter"
  else if has (u "senhor dos") && has (u "an") then u "Coletânea: Senhor dos Anéis"
  else if has (u "crep") && has (u "sculo") then u "Coletânea: Crepúsculo"
  else category.

(** *** The rule chain as a table

    The same chain, written as the ordered list of its rules: a test on the
    lower-cased category and the name returned when it is the first to hold.
    [normalize_by_table] is compared with [normalize_category] below. *)

Record rule := {
  applies : str -> bool;
  canonical : str -> str;
}.

(** Rules for the streaming platforms, in the order of the chain. *)
Definition PLATFORM_RULES : list rule :=
  [ {| applies := fun lower => contains lower (u "netflix");
       canonical := fun category => u "Netflix" |};
    {| applies := fun lower => contains lower (u "prime video") || contains lower (u "amazon prime");
       canonical := fun category => u "Prime Video" |};
    {| applies := fun lower => contains lower (u "disney");
       canonical := fun category => u "Disney+" |};
    {| applies := fun lower => contains lower (u "max") && negb (contains lower (u "mad max"));
       canonical := fun category => u "Max" |};
    {| applies := fun lower => contains lower (u "hbo");
       canonical := fun category => u "Max" |};
    {| applies := fun lower => contains lower (u "globoplay");
       canonical := fun category => u "Globoplay" |};
    {| applies := fun lower => contains lower (u "paramount");
       canonical := fun category => u "Paramount+" |};
    {| applies := fun lower => contains lower (u "apple");
       canonical := fun category => u "Apple TV+" |};
    {| applies := fun lower => contains lower (u "star") && contains lower (u "star plus");
       canonical := fun category => u "Star+" |};
    {| applies := fun lower => contains lower (u "discovery");
       canonical := fun category => u "Discovery+" |};
    {| applies := fun lower => contains lower (u "crunchyroll");
       canonical := fun category => u "Crunchyroll" |};
    {| applies := fun lower => contains lower (u "funimation");
       canonical := fun category => u "Funimation" |};
    {| applies := fun lower => contains lower (u "directv");
       canonical := fun category => u "DirecTV" |};
    {| applies := fun lower => contains lower (u "claro video");
       canonical := fun category => u "Claro Video" |};
    {| applies := fun lower => contains lower (u "lionsgate");
       canonical := fun category => u "Lionsgate" |};
    {| applies := fun lower => contains lower (u "plutotv");
       canonical := fun category => u "PlutoTV" |};
    {| applies := fun lower => contains lower (u "play plus");
       canonical := fun category => u "Play Plus" |};
    {| applies := fun lower => contains lower (u "amc");
       canonical := fun category => u "AMC+" |};
    {| applies := fun lower => contains lower (u "brasil paralelo");
       canonical := fun category => u "Brasil Paralelo" |};
    {| applies := fun lower => contains lower (u "sbt");
       canonical := fun category => u "SBT" |};
    {| applies := fun lower => contains lower (u "univer");
       canonical := fun category => u "Univer" |} ].

(** Rules for genres and categories, in the order of the chain. *)
Definition GENRE_RULES : list rule :=
  [ {| applies := fun lower => contains lower (u "novela");
       canonical := fun category => u "Novelas" |};
    {| applies := fun lower => contains lower (u "dorama");
       canonical := fun category => u "Doramas" |};
    {| applies := fun lower => contains lower (u "anime");
       canonical := fun category => u "Animes" |};
    {| applies := fun lower => contains lower (u "turca");
       canonical := fun category => u "Turcas" |};
    {| applies := fun lower => contains lower (u "programas de tv") || bool_decide (u "programas" = lower);
       canonical := fun category => u "Programas de TV" |};
    {| applies := fun lower => contains lower (u "stand up") || contains lower (u "stand-up");
       canonical := fun category => u "Stand Up" |};
    {| applies := fun lower => contains lower (u "legendad");
       canonical := fun category => u "Legendados" |};
    {| applies := fun lower => contains lower (u "document") || bool_decide (u "docu" = lower);
       canonical := fun category => u "Documentário" |};
    {| applies := fun lower => contains lower (u "com") && (contains lower (u "dia") || contains lower (u "edia") || contains lower (u "édia"));
       canonical := fun category => u "Comédia" |};
    {| applies := fun lower => contains lower (u "drama");
       canonical := fun category => u "Drama" |};
    {| applies := fun lower => contains lower (u "terror");
       canonical := fun category => u "Terror" |};
    {| applies := fun lower => startswith lower (u "a") && (contains lower (u "ção") || contains lower (u "cao"));
       canonical := fun category => u "Ação" |};
    {| applies := fun lower => contains lower (u "suspense");
       canonical := fun category => u "Suspense" |};
    {| applies := fun lower => contains lower (u "romance");
       canonical := fun category => u "Romance" |};
    {| applies := fun lower => contains lower (u "anima") && (contains lower (u "ção") || contains lower (u "cao"));
       canonical := fun category => u "Animação" |};
    {| applies := fun lower => contains lower (u "fantasia") || (contains lower (u "fic") && contains lower (u "o"));
       canonical := fun category => u "Fantasia" |};
    {| applies := fun lower => contains lower (u "faroeste");
       canonical := fun category => u "Faroeste" |};
    {| applies := fun lower => contains lower (u "guerra");
       canonical := fun category => u "Guerra" |};
    {| applies := fun lower => contains lower (u "aventura");
       canonical := fun category => u "Aventura" |};
    {| applies := fun lower => contains lower (u "religio");
       canonical := fun category => u "Religiosos" |};
    {| applies := fun lower => contains lower (u "nacion");
       canonical := fun category => u "Nacionais" |};
    {| applies := fun lower => contains lower (u "crime");
       canonical := fun category => u "Crime" |};
    {| applies := fun lower => contains lower (u "fam") && contains lower (u "lia");
       canonical := fun category => u "Família" |};
    {| applies := fun lower => contains lower (u "marvel") || contains lower (u "ucm");
       canonical := fun category => u "Marvel" |};
    {| applies := fun lower => contains lower (u "4k") || contains lower (u "uhd");
       canonical := fun category => u "UHD 4K" |};
    {| applies := fun lower => contains lower (u "infantil");
       canonical := fun category => u "Infantil" |};
    {| applies := fun lower => contains lower (u "esporte");
       canonical := fun category => u "Esportes" |};
    {| applies := fun lower => contains lower (u "show");
       canonical := fun category => u "Shows" |};
    {| applies := fun lower => contains lower (u "cinema");
       canonical := fun category => u "Cinema" |};
    {| applies := fun lower => contains lower (u "oscar");
       canonical := fun category => u "Oscar" |};
    {| applies := fun lower => contains lower (u "hot") || contains lower (u "adult");
       canonical := fun category => u "Adultos" |};
    {| applies := fun lower => contains lower (u "sugest") || contains lower (u "semana");
       canonical := fun category => u "Sugestão da Semana" |};
    {| applies := fun lower => contains lower (u "outra") && contains lower (u "produtora");
       canonical := fun category => u "Outras Produtoras" |};
    {| applies := fun lower => contains lower (u "lançamento") || contains lower (u "lancamento");
       canonical := fun category =>
         match search (seqs [lit (ch "2"); lit (ch "0"); Chr isdigit; Chr isdigit])
                 category with
         | Some (year, _, _) => u "Lançamentos " ++ year
         | None => u "Lançamentos"
         end |};
    {| applies := fun lower => contains lower (u "dublagem") && contains lower (u "oficial");
       canonical := fun category => u "Dublagem Não Oficial" |} ].

(** Rules for the franchise collections, in the order of the chain. *)
Definition COLLECTION_RULES : list rule :=
  [ {| applies := fun lower => bool_decide (u "alien" = lower);
       canonical := fun category => u "Coletânea: Alien" |};
    {| applies := fun lower => contains lower (u "american pie");
       canonical := fun category => u "Coletânea: American Pie" |};
    {| applies := fun lower => contains lower (u "john wick") || contains lower (u "jhon wick");
       canonical := fun category => u "Coletânea: John Wick" |};
    {| applies := fun lower => contains lower (u "denzel");
       canonical := fun category => u "Coletânea: Denzel Washington" |};
    {| applies := fun lower => contains lower (u "mad max");
       canonical := fun category => u "Coletânea: Mad Max" |};
    {| applies := fun lower => contains lower (u "homem aranha") || contains lower (u "aranha");
       canonical := fun category => u "Coletânea: Homem Aranha" |};
    {| applies := fun lower => contains lower (u "jogos mortais");
       canonical := fun category => u "Coletânea: Jogos Mortais" |};
    {| applies := fun lower => contains lower (u "jogos vorazes");
       canonical := fun category => u "Coletânea: Jogos Vorazes" |};
    {| applies := fun lower => contains lower (u "mib") || contains lower (u "homens de preto");
       canonical := fun category => u "Coletânea: MIB" |};
    {| applies := fun lower => contains lower (u "exterminador");
       canonical := fun category => u "Coletânea: Exterminador" |};
    {| applies := fun lower => contains lower (u "shrek");
       canonical := fun category => u "Coletânea: Shrek" |};
    {| applies := fun lower => contains lower (u "p") && contains lower (u "nico") && contains lower (u "todo");
       canonical := fun category => u "Coletânea: Todo Mundo em Pânico" |};
    {| applies := fun lower => contains lower (u "toy story");
       canonical := fun category => u "Coletânea: Toy Story" |};
    {| applies := fun lower => contains lower (u "harry potter");
       canonical := fun category => u "Coletânea: Harry Potter" |};
    {| applies := fun lower => contains lower (u "senhor dos") && contains lower (u "an");
       canonical := fun category => u "Coletânea: Senhor dos Anéis" |};
    {| applies := fun lower => contains lower (u "crep") && contains lower (u "sculo");
       canonical := fun category => u "Coletânea: Crepúsculo" |} ].

Definition CATEGORY_RULES : list rule :=
  PLATFORM_RULES ++ GENRE_RULES ++ COLLECTION_RULES.

Definition first_rule (rules : list rule) (lower : str) : option rule :=
  List.find (fun r => applies r lower) rules.

Definition normalize_by_table (category : str) : str :=
  let category := strip_prefix category in
  match first_rule CATEGORY_RULES (lower category) with
  | Some r => canonical r category
  | None => category
  end.

Definition category_to_filename (category : str) : str :=
  let filename := sub (plus (fun c => negb (is_az09 c))) (u "_") (lower category) in
  sub (Alt (Seq Bol (plus (Z.eqb (ch "_")))) (Seq (plus (Z.eqb (ch "_"))) Eol)) [] filename.

(** *** Catalog items

    An item is a dictionary in the script.  The keys [logo], [isAdult] and
    [seriesName]/[season]/[episode] are optional: an absent key is [None]
    ([false] for [isAdult], which is only ever stored as [True]).  The key
    [_category] is set by the parser and popped by [main] before the item is
    written, so a parsed item carries it beside the item proper. *)

Inductive content_type := movie | series.

Record item := {
  id : str;
  name : str;
  url : str;
  type : content_type;
  logo : option str;
  isAdult : bool;
  seriesName : option str;
  season : option Z;
  episode : option Z;
}.

Record parsed := {
  fields : item;
  _category : str;
}.

Definition is_movie (t : content_type) : bool :=
  match t with movie => true | series => false end.

Definition is_series (t : content_type) : bool :=
  match t with series => true | movie => false end.

(** *** The line lexer of [parse_m3u8_file] *)

Record pending := {
  current_name : option str;
  current_category : option str;
  current_logo : option str;
}.

Definition no_pending : pending :=
  {| current_name := None; current_category := None; current_logo := None |}.

Definition quote : Z := 34.
Definition newline : Z := 10.

Definition group_title_re : regex :=
  seqs [lits (u "group-title="); lit quote;
        Grp 1 (Star (fun c => negb (c =? quote))); lit quote].

Definition tvg_logo_re : regex :=
  seqs [lits (u "tvg-logo="); lit quote;
        Grp 1 (Star (fun c => negb (c =? quote))); lit quote].

Definition name_re : regex := seqs [lit (ch ","); Grp 1 (plus dot); Eol].

Section with_hash.

Variable hash : str -> Z.

(** The body of the loop once a URL line has passed the two filters. *)
Definition build_item (current_name : str) (current_logo : option str)
    (category url : str) : parsed :=
  let cleaned_name := clean_name current_name in
  let is_adult := is_adult_content current_name category in
  let is_series := is_series_by_category category || is_series_by_name current_name in
  let series_info := parse_series_info current_name in
  let content_type :=
    if is_series || bool_decide (is_Some series_info) then series else movie in
  let normalized_category := normalize_category category in
  {| fields :=
       {| id := generate_id hash cleaned_name url;
          name := cleaned_name;
          url := url;
          type := content_type;
          logo := if truthy current_logo then current_logo else None;
          isAdult := is_adult;
          seriesName := (fun t => t.1.1) <$> series_info;
          season := (fun t => t.1.2) <$> series_info;
          episode := (fun t => t.2) <$> series_info |};
     _category := normalized_category |}.

Definition lex_line (acc : pending * list parsed) (line : str) : pending * list parsed :=
  let '(st, items) := acc in
  let line := strip line in
  if startswith line (u "#EXTINF:") then
    let group_match := search group_title_re line in
    let logo_match := search tvg_logo_re line in
    let name_match := search name_re line in
    ({| current_name :=
          match name_match with
          | Some (_, _, caps) => Some (strip (group 1 caps))
          | None => None
          end;
        current_category :=
          match group_match with
          | Some (_, _, caps) => Some (group 1 caps)
          | None => Some (u "Outros")
          end;
        current_logo :=
          match logo_match with
          | Some (_, _, caps) => Some (group 1 caps)
          | None => None
          end |}, items)
  else if startswith line (u "http") && truthy (current_name st) then
    let url := line in
    if endswith (lower url) (u ".ts") then (no_pending, items)
    else
      let category :=
        if truthy (current_category st) then default [] (current_category st)
        else u "Outros" in
      if should_ignore_category category then (no_pending, items)
      else
        (no_pending,
         items ++ [build_item (default [] (current_name st)) (current_logo st) category url])
  else (st, items).

(** [content] is the text of the file as [f.read()] returns it. *)
Definition parse_m3u8_file (content : str) : list parsed :=
  snd (fold_left lex_line (split newline content) (no_pending, [])).

End with_hash.

(** *** Output documents *)

Record index_entry := {
  ix_id : str;
  ix_name : str;
  movieCount : nat;
  seriesCount : nat;
  adultCount : nat;
  totalCount : nat;
  pages : option nat;
  hasMovies : option bool;
}.

Inductive document :=
| CategoryDoc (category : str) (movies series : list item)
| PageDoc (category : str) (page totalPages : nat) (movies series : list item)
| AdultDoc (category : str) (items : list item)
| IndexDoc (version : nat) (generatedAt : str)
    (totalMovies totalSeries totalAdult maxItemsPerPage : nat)
    (categories : list index_entry).

(** A file written to the output directory: its name and its document. *)
Definition write := (str * document)%type.

Definition MAX_ITEMS_PER_FILE : nat := 5000.

(** *** Deduplication by URL *)

Definition dedup_state := (gset str * list parsed * nat)%type.

Definition dedup_step (acc : dedup_state) (m : parsed) : dedup_state :=
  let '(seen_urls, unique_items, duplicates) := acc in
  if decide (url (fields m) ∈ seen_urls)
  then (seen_urls, unique_items, S duplicates)
  else ({[url (fields m)]} ∪ seen_urls, unique_items ++ [m], duplicates).

Definition dedup (all_items : list parsed) : dedup_state :=
  fold_left dedup_step all_items (∅, [], O).

Definition unique_items (all_items : list parsed) : list parsed :=
  (dedup all_items).1.2.

Definition duplicates (all_items : list parsed) : nat :=
  (dedup all_items).2.

(** *** Grouping by category

    [by_category] is a dictionary; its keys are iterated in the order of
    their first insertion, so it is kept as an association list. *)

Fixpoint setdefault_append (by_category : list (str * list item))
    (category : str) (m : item) : list (str * list item) :=
  match by_category with
  | [] => [(category, [m])]
  | (c, items) :: rest =>
      if decide (c = category) then (c, items ++ [m]) :: rest
      else (c, items) :: setdefault_append rest category m
  end.

Definition group_by_category (unique_items : list parsed) : list (str * list item) :=
  fold_left (fun by_category m => setdefault_append by_category (_category m) (fields m))
    unique_items [].

(** *** Partitioning one category *)

(** [range(0, stop, step)] *)
Definition range (stop step : nat) : list nat :=
  map (fun i => i * step)%nat (seq 0 ((stop + step - 1) / step)%nat).

(** [[l[i:i+size] for i in range(0, len(l), size)]] *)
Definition pages_of (size : nat) (l : list item) : list (list item) :=
  map (fun i => take size (drop i l)) (range (length l) size).

Definition str_of_nat (n : nat) : str := str_of_Z (Z.of_nat n).

Fixpoint write_pages (filename_base category : str) (totalPages page_idx : nat)
    (series_pages : list (list item)) : list write :=
  match series_pages with
  | [] => []
  | page_series :: rest =>
      let filename := filename_base ++ u "_p" ++ str_of_nat page_idx in
      (filename ++ u ".json", PageDoc category page_idx totalPages [] page_series)
        :: write_pages filename_base category totalPages (S page_idx) rest
  end.

Definition movies_of (items : list item) : list item :=
  List.filter (fun m => is_movie (type m) && negb (isAdult m)) items.

Definition series_of (items : list item) : list item :=
  List.filter (fun m => is_series (type m) && negb (isAdult m)) items.

Definition adult_of (items : list item) : list item :=
  List.filter (fun m => isAdult m) items.

(** One turn of the loop over [by_category]: the files written and the entry
    added to the index. *)
Definition process_category (category : str) (items : list item)
    : list write * index_entry :=
  let filename_base := category_to_filename category in
  let movies := movies_of items in
  let series := series_of items in
  let adult := adult_of items in
  let total_items := (length movies + length series + length adult)%nat in
  let adult_writes :=
    match adult with
    | _ :: _ => [(filename_base ++ u "_adult.json", AdultDoc category adult)]
    | [] => []
    end in
  if (MAX_ITEMS_PER_FILE <? total_items)%nat then
    let series_pages := pages_of MAX_ITEMS_PER_FILE series in
    let movies_pages := pages_of MAX_ITEMS_PER_FILE movies in
    let page_writes :=
      write_pages filename_base category
        (Nat.max (length series_pages) (length movies_pages)) 1 series_pages in
    let movies_writes :=
      match movies with
      | _ :: _ => [(filename_base ++ u "_movies.json", CategoryDoc category movies [])]
      | [] => []
      end in
    (page_writes ++ movies_writes ++ adult_writes,
     {| ix_id := filename_base;
        ix_name := category;
        movieCount := length movies;
        seriesCount := length series;
        adultCount := length adult;
        totalCount := total_items;
        pages := Some (Nat.max (length series_pages) 1);
        hasMovies := Some (0 <? length movies)%nat |})
  else
    ((filename_base ++ u ".json", CategoryDoc category movies series) :: adult_writes,
     {| ix_id := filename_base;
        ix_name := category;
        movieCount := length movies;
        seriesCount := length series;
        adultCount := length adult;
        totalCount := total_items;
        pages := None;
        hasMovies := None |}).

(** *** The index

    [list.sort] is stable, also with [reverse=True]: entries of equal
    [totalCount] keep the order in which they were appended. *)

Fixpoint insert_by_total (c : index_entry) (sorted : list index_entry) : list index_entry :=
  match sorted with
  | [] => [c]
  | d :: rest =>
      if (totalCount d <? totalCount c)%nat then c :: sorted
      else d :: insert_by_total c rest
  end.

Definition sort_by_total (category_index : list index_entry) : list index_entry :=
  fold_left (fun sorted c => insert_by_total c sorted) category_index [].

Definition sum (l : list nat) : nat := fold_right Nat.add O l.

(** *** [main]

    [files] holds, for each configured playlist in order, its text, or [None]
    when the file does not exist; [now] is [datetime.now().isoformat()].  The
    result is the sequence of files written, [index.json] last. *)

Section with_runtime.

Variable hash : str -> Z.
Variable now : str.

Definition parse_all (files : list (option str)) : list parsed :=
  concat (map (fun f => match f with
                        | Some content => parse_m3u8_file hash content
                        | None => []
                        end) files).

Definition category_writes (by_category : list (str * list item)) : list write :=
  concat (map (fun ci => (process_category ci.1 ci.2).1) by_category).

Definition build_index (by_category : list (str * list item)) : list index_entry :=
  sort_by_total (map (fun ci => (process_category ci.1 ci.2).2) by_category).

Definition index_document (category_index : list index_entry) : document :=
  IndexDoc 2 now
    (sum (map movieCount category_index))
    (sum (map seriesCount category_index))
    (sum (map adultCount category_index))
    MAX_ITEMS_PER_FILE
    category_index.

Definition main (files : list (option str)) : list write :=
  let all_items := parse_all files in
  let unique_items := unique_items all_items in
  let by_category := group_by_category unique_items in
  category_writes by_category
  ++ [(u "index.json", index_document (build_index by_category))].

End with_runtime.

End Convert.

(** ** Vocabulary of the properties *)

Import Py Re Convert.

(** The URLs of a sequence of parsed items, in order. *)
Definition urls (l : list parsed) : list str := map (fun m => url (fields m)) l.

(** The items a document holds, and the items of a sequence of written files. *)
Definition doc_movies (d : document) : list item :=
  match d with
  | CategoryDoc _ ms _ => ms
  | PageDoc _ _ _ ms _ => ms
  | _ => []
  end.

Definition doc_series (d : document) : list item :=
  match d with
  | CategoryDoc _ _ ss => ss
  | PageDoc _ _ _ _ ss => ss
  | _ => []
  end.

Definition doc_items (d : document) : list item :=
  match d with
  | CategoryDoc _ ms ss => ms ++ ss
  | PageDoc _ _ _ ms ss => ms ++ ss
  | AdultDoc _ items => items
  | IndexDoc _ _ _ _ _ _ _ => []
  end.

Definition written_items (ws : list write) : list item :=
  concat (map (fun w => doc_items w.2) ws).

(** The parts of what [process_category] writes. *)
Definition total_items (items : list item) : nat :=
  (length (movies_of items) + length (series_of items) + length (adult_of items))%nat.

Definition adult_writes (category : str) (items : list item) : list write :=
  match adult_of items with
  | _ :: _ => [(category_to_filename category ++ u "_adult.json",
                AdultDoc category (adult_of items))]
  | [] => []
  end.

Definition movies_writes (category : str) (items : list item) : list write :=
  match movies_of items with
  | _ :: _ => [(category_to_filename category ++ u "_movies.json",
                CategoryDoc category (movies_of items) [])]
  | [] => []
  end.

(** The file of the page at index [i] (counted from 0): page number [i + 1]. *)
Definition page_write (category : str) (totalPages : nat) (i : nat) (page : list item)
    : write :=
  (category_to_filename category ++ u "_p" ++ str_of_nat (S i) ++ u ".json",
   PageDoc category (S i) totalPages [] page).

(** Kinds of lines, as the lexer tells them apart. *)
Definition url_line (line : str) : Prop := startswith (strip line) (u "http") = true.
Definition ts_line (line : str) : Prop := endswith (lower (strip line)) (u ".ts") = true.
Definition metadata_line (line : str) : Prop :=
  startswith (strip line) (u "#EXTINF:") = true.

(** The category a pending entry is filed under: [current_category or 'Outros']. *)
Definition pending_category (st : pending) : str :=
  if truthy (current_category st) then default [] (current_category st) else u "Outros".

(** An item the parser can produce: built from an entry that passed both filters. *)
Definition passed_filters (hash : str -> Z) (p : parsed) : Prop :=
  exists name logo category url,
    p = build_item hash name logo category url
    /\ should_ignore_category category = false
    /\ endswith (lower url) (u ".ts") = false.

(** The slug of an identifier, in the words of the specification: the name
    lower-cased, characters other than [a-z], [0-9] and white space removed,
    the ends trimmed, and every run of white space turned into one hyphen. *)
Fixpoint collapse (in_space : bool) (s : str) : str :=
  match s with
  | [] => []
  | c :: s' =>
      if isspace c
      then (if in_space then collapse true s' else ch "-" :: collapse true s')
      else c :: collapse false s'
  end.

Definition slug (name : str) : str :=
  collapse false (strip (List.filter (fun c => is_az09 c || isspace c) (lower name))).

Definition hash6 (hash : str -> Z) (url : str) : str :=
  take 6 (str_of_Z (Z.abs (hash url))).

(** The number of leading white-space characters. *)
Definition lead (s : str) : nat := (length s - length (lstrip s))%nat.

(** What a run writes apart from the two values that come from the
    interpreter and the clock: the ids (whose suffix is a hash) and
    [generatedAt]. *)
Definition without_id (m : item) : item :=
  {| id := []; name := name m; url := url m; type := type m; logo := logo m;
     isAdult := isAdult m; seriesName := seriesName m; season := season m;
     episode := episode m |}.

Definition without_id_parsed (p : parsed) : parsed :=
  {| fields := without_id (fields p); _category := _category p |}.

Definition skeleton_doc (d : document) : document :=
  match d with
  | CategoryDoc c ms ss => CategoryDoc c (map without_id ms) (map without_id ss)
  | PageDoc c page total ms ss =>
      PageDoc c page total (map without_id ms) (map without_id ss)
  | AdultDoc c items => AdultDoc c (map without_id items)
  | IndexDoc v _ tm ts ta mx cats => IndexDoc v [] tm ts ta mx cats
  end.

Definition skeleton (ws : list write) : list write :=
  map (fun w => (w.1, skeleton_doc w.2)) ws.

Definition skeleton_group (g : str * list item) : str * list item :=
  (g.1, map without_id g.2).

(** *** Sample inputs *)

(** A metadata line with a [group-title] attribute and a title. *)
Definition extinf (group title : string) : str :=
  u "#EXTINF:-1 group-title=" ++ [quote] ++ u group ++ [quote] ++ u "," ++ u title.
Arguments extinf (group title)%_string.

Definition text (lines : list str) : str :=
  concat (map (fun l => l ++ [newline]) lines).

Definition sample_playlist : str :=
  text [ u "#EXTM3U";
         extinf "Series | Drama" "Breaking Bad S02E05";
         u "http://h/bb205.mp4";
         extinf "⏺️ GLOBO" "Globo HD";
         u "http://h/globo";
         extinf "Filmes | Netflix Drama" "01 - Matrix (DUB) [L]";
         u "http://h/matrix.mp4";
         extinf "Canais" "Live";
         u "http://h/live.TS";
         extinf "OND / Terror" "Hot XXX";
         u "http://h/hot.mp4";
         extinf "OND / Terror" "Matrix again";
         u "http://h/matrix.mp4" ].

(** [n] items of one type, numbered from [i], that differ in their URL and id. *)
Fixpoint sample_from (title prefix : str) (t : content_type) (i : Z) (n : nat)
    : list item :=
  match n with
  | O => []
  | S n' =>
      {| id := title ++ str_of_Z i; name := title; url := prefix ++ str_of_Z i;
         type := t; logo := None; isAdult := false;
         seriesName := None; season := None; episode := None |}
        :: sample_from title prefix t (i + 1) n'
  end.

Definition sample_items (t : content_type) (thousands extra : nat) : list item :=
  sample_from (u "Item") (u "http://h/") t 0 (thousands * 1000 + extra).

(** Two hash secrets: hash randomisation switched off, and another process. *)
Definition secret0 : Z * Z := (0, 0).
Definition secret1 : Z * Z := (1, 0).

(** *** Vocabulary of the further properties *)

(** The items filed under a category in [by_category] (none when the key is absent). *)
Fixpoint group_of (by_category : list (str * list item)) (category : str) : list item :=
  match by_category with
  | [] => []
  | (c, items) :: rest => if decide (c = category) then items else group_of rest category
  end.

(** The order of the index: [a] may come before [b]. *)
Definition at_least (a b : index_entry) : Prop := (totalCount b <= totalCount a)%nat.

(** The entries with a given total. *)
Definition has_total (n : nat) (e : index_entry) : bool := Nat.eqb (totalCount e) n.

(** The category a document is written for. *)
Definition doc_category (d : document) : option str :=
  match d with
  | CategoryDoc c _ _ => Some c
  | PageDoc c _ _ _ _ => Some c
  | AdultDoc c _ => Some c
  | IndexDoc _ _ _ _ _ _ _ => None
  end.

(** The items of an adult side file. *)
Definition doc_adult (d : document) : list item :=
  match d with
  | AdultDoc _ items => items
  | _ => []
  end.

(** Page files. *)
Definition is_page (d : document) : bool :=
  match d with
  | PageDoc _ _ _ _ _ => true
  | _ => false
  end.

(** What a sequence of files holds under [movies], under [series] and in adult
    side files. *)
Definition written_movies (ws : list write) : list item :=
  concat (map (fun w : write => doc_movies w.2) ws).

Definition written_series (ws : list write) : list item :=
  concat (map (fun w : write => doc_series w.2) ws).

Definition written_adult (ws : list write) : list item :=
  concat (map (fun w : write => doc_adult w.2) ws).

Definition page_files (ws : list write) : list write :=
  List.filter (fun w : write => is_page w.2) ws.

(** A line the parser reads metadata from. *)
Definition is_metadata (line : str) : bool := startswith (strip line) (u "#EXTINF:").

(** Items of the parser carry the URL line they came from. *)
Definition from_url_line (lines : list str) (p : parsed) : Prop :=
  startswith (url (fields p)) (u "http") = true
  /\ url (fields p) ∈ map strip lines.

(** A string without white space at either end. *)
Definition trimmed (s : str) : Prop := strip s = s.

(** The first of the three tests of [should_ignore_category]. *)
Definition ignored_prefix (category ignored : str) : bool :=
  startswith (upper category) (upper ignored).

Definition hyphen : Z := ch "-".

(** A character of an identifier: [a-z], [0-9] or the hyphen. *)
Definition is_id_char (c : Z) : bool := is_az09 c || (c =? hyphen).

(** An ASCII digit. *)
Definition is_ascii_digit (c : Z) : bool := (48 <=? c) && (c <=? 57).

(** A character the first substitution of [generate_id] keeps. *)
Definition kept (c : Z) : bool := is_az09 c || isspace c.

(** Drop the leading characters that satisfy [p]. *)
Fixpoint skip_while (p : Z -> bool) (s : str) : str :=
  match s with
  | c :: s' => if p c then skip_while p s' else s
  | [] => []
  end.

(** Drop the trailing characters that satisfy [p]. *)
Fixpoint rskip_while (p : Z -> bool) (s : str) : str :=
  match s with
  | [] => []
  | c :: s' =>
      match rskip_while p s' with
      | [] => if p c then [] else [c]
      | t => c :: t
      end
  end.

(** Replace every maximal run of characters that satisfy [p] by [r];
    [inside] tells whether the run has already begun. *)
Fixpoint squeeze (p : Z -> bool) (r : str) (inside : bool) (s : str) : str :=
  match s with
  | [] => []
  | c :: s' =>
      if p c then (if inside then squeeze p r true s' else r ++ squeeze p r true s')
      else c :: squeeze p r false s'
  end.

Definition underscore : Z := ch "_".
Definition is_underscore : Z -> bool := Z.eqb underscore.
Definition not_az09 (c : Z) : bool := negb (is_az09 c).

(** A character of a file name: [a-z], [0-9] or the underscore. *)
Definition is_filename_char (c : Z) : bool := is_az09 c || is_underscore c.

(** The file name, computed without regular expressions: runs of characters
    outside [a-z0-9] become one underscore, then the underscores at both ends
    are dropped. *)
Definition squeezed_filename (category : str) : str :=
  rskip_while is_underscore
    (skip_while is_underscore (squeeze not_az09 [underscore] false (lower category))).

(** The number of leading characters that satisfy [p]. *)
Definition run (p : Z -> bool) (s : str) : nat := (length s - length (skip_while p s))%nat.

(** The pattern [^_+|_+$]. *)
Definition edge_underscores : regex :=
  Alt (Seq Bol (plus is_underscore)) (Seq (plus is_underscore) Eol).

(** The pattern without its groups. *)
Fixpoint erase (r : regex) : regex :=
  match r with
  | Seq a b => Seq (erase a) (erase b)
  | Alt a b => Alt (erase a) (erase b)
  | Grp _ a => erase a
  | _ => r
  end.

(** The pattern does not ask for the start of the subject. *)
Fixpoint unanchored (r : regex) : bool :=
  match r with
  | Bol => false
  | Seq a b | Alt a b => unanchored a && unanchored b
  | Grp _ a => unanchored a
  | _ => true
  end.

(** What [$] accepts: the end of the subject, or a final newline. *)
Definition at_end (s : str) : bool :=
  match s with
  | [] | [10] => true
  | _ => false
  end.

Definition comma : Z := ch ",".

(** The character does not occur in the string. *)
Definition without (c : Z) (s : str) : Prop := existsb (Z.eqb c) s = false.

(** * Properties *)

(** ** Deduplication *)

Lemma dedup_snoc l m : dedup (l ++ [m]) = dedup_step (dedup l) m.
Proof. unfold dedup. by rewrite fold_left_app. Qed.

Lemma dedup_seen l x : x ∈ (dedup l).1.1 ↔ x ∈ urls l.
Proof.
  induction l as [|m l IH] using rev_ind.
  - cbn. set_solver.
  - rewrite dedup_snoc. unfold urls in *. rewrite map_app, elem_of_app. cbn.
    destruct (dedup l) as [[seen kept] dups]. cbn in *.
    case_decide; cbn; set_solver.
Qed.

Lemma unique_items_snoc l m :
  unique_items (l ++ [m]) =
  unique_items l ++ (if decide (url (fields m) ∈ urls l) then [] else [m]).
Proof.
  unfold unique_items. rewrite dedup_snoc.
  pose proof (dedup_seen l (url (fields m))) as Hseen.
  destruct (dedup l) as [[seen kept] dups]. cbn in *.
  repeat case_decide; cbn; try tauto. by rewrite app_nil_r.
Qed.

Lemma duplicates_snoc l m :
  duplicates (l ++ [m]) =
  (duplicates l + (if decide (url (fields m) ∈ urls l) then 1 else 0))%nat.
Proof.
  unfold duplicates. rewrite dedup_snoc.
  pose proof (dedup_seen l (url (fields m))) as Hseen.
  destruct (dedup l) as [[seen kept] dups]. cbn in *.
  repeat case_decide; cbn; try tauto; lia.
Qed.

Lemma unique_items_sublist l : sublist (unique_items l) l.
Proof.
  induction l as [|m l IH] using rev_ind; [constructor|].
  rewrite unique_items_snoc. case_decide.
  - rewrite app_nil_r. by apply sublist_inserts_r.
  - by apply sublist_app.
Qed.

Lemma urls_unique_items l x : x ∈ urls (unique_items l) ↔ x ∈ urls l.
Proof.
  induction l as [|m l IH] using rev_ind; [done|].
  rewrite unique_items_snoc. unfold urls in *. rewrite !map_app, !elem_of_app, IH.
  case_decide; cbn; set_solver.
Qed.

Lemma unique_items_NoDup l : NoDup (urls (unique_items l)).
Proof.
  induction l as [|m l IH] using rev_ind; [constructor|].
  rewrite unique_items_snoc. case_decide.
  - by rewrite app_nil_r.
  - unfold urls in *. rewrite map_app. apply NoDup_app. split_and!; [done| |cbn; apply NoDup_singleton].
    intros x Hx Hx'. cbn in Hx'. apply list_elem_of_singleton in Hx' as ->.
    by apply (urls_unique_items l) in Hx.
Qed.

Lemma duplicates_count l : (duplicates l + length (unique_items l) = length l)%nat.
Proof.
  induction l as [|m l IH] using rev_ind; [done|].
  rewrite unique_items_snoc, duplicates_snoc, !length_app. case_decide; cbn; lia.
Qed.

(** ** Written items *)

Lemma MAX_ITEMS_PER_FILE_pos : (0 < MAX_ITEMS_PER_FILE)%nat.
Proof. unfold MAX_ITEMS_PER_FILE. lia. Qed.

Lemma written_items_app ws1 ws2 :
  written_items (ws1 ++ ws2) = written_items ws1 ++ written_items ws2.
Proof. unfold written_items. by rewrite map_app, concat_app. Qed.

(** *** Pages *)

Lemma range_length stop step : length (range stop step) = ((stop + step - 1) / step)%nat.
Proof. unfold range. by rewrite length_map, length_seq. Qed.

Lemma pages_upto (size : nat) (l : list item) n :
  concat (map (fun i => take size (drop i l)) (map (fun i => i * size)%nat (seq 0 n)))
  = take (n * size) l.
Proof.
  induction n as [|n IH]; [done|].
  rewrite seq_S, !map_app, concat_app, IH. cbn. rewrite app_nil_r.
  rewrite take_take_drop. f_equal. lia.
Qed.

Lemma ceil_covers stop step : (0 < step → stop ≤ (stop + step - 1) / step * step)%nat.
Proof.
  intros Hs.
  pose proof (Nat.div_mod_eq (stop + step - 1) step) as Hd.
  pose proof (Nat.mod_upper_bound (stop + step - 1) step ltac:(lia)) as Hm.
  nia.
Qed.

Lemma concat_pages_of size l : (0 < size)%nat → concat (pages_of size l) = l.
Proof.
  intros Hs. unfold pages_of, range. rewrite pages_upto.
  apply take_ge. by apply ceil_covers.
Qed.

Lemma written_items_write_pages base cat total idx ps :
  written_items (write_pages base cat total idx ps) = concat ps.
Proof.
  revert idx. induction ps as [|p ps IH]; intros idx; [done|].
  cbn. unfold written_items in *. cbn. by rewrite IH.
Qed.

(** *** The three sub-lists of a category *)

Lemma sublists_partition items :
  movies_of items ++ series_of items ++ adult_of items ≡ₚ items.
Proof.
  unfold movies_of, series_of, adult_of.
  induction items as [|m items IH]; [done|]. cbn.
  destruct (type m), (isAdult m); cbn.
  - rewrite app_assoc. rewrite <- Permutation_middle. rewrite <- app_assoc. by constructor.
  - by constructor.
  - rewrite app_assoc. rewrite <- Permutation_middle. rewrite <- app_assoc. by constructor.
  - rewrite <- Permutation_middle. by constructor.
Qed.

Lemma process_category_items category items :
  written_items (process_category category items).1 ≡ₚ items.
Proof.
  unfold process_category.
  assert (Hadult : ∀ base, written_items
            match adult_of items with
            | [] => []
            | _ :: _ => [(base, AdultDoc category (adult_of items))]
            end = adult_of items).
  { intros base. destruct (adult_of items); [done|]. unfold written_items. cbn. by rewrite app_nil_r. }
  destruct (Nat.ltb_spec MAX_ITEMS_PER_FILE
              (length (movies_of items) + length (series_of items) + length (adult_of items))).
  - cbn [fst]. rewrite !written_items_app, written_items_write_pages, Hadult.
    rewrite (concat_pages_of _ _ MAX_ITEMS_PER_FILE_pos).
    assert (Hm : ∀ base, written_items
              match movies_of items with
              | [] => []
              | _ :: _ => [(base, CategoryDoc category (movies_of items) [])]
              end = movies_of items).
    { intros base. destruct (movies_of items); [done|]. unfold written_items. cbn. by rewrite !app_nil_r. }
    rewrite Hm. rewrite <- (sublists_partition items) at 4.
    rewrite !app_assoc. apply Permutation_app_tail, Permutation_app_comm.
  - cbn [fst]. change (?x :: ?l) with ([x] ++ l). rewrite written_items_app, Hadult.
    unfold written_items at 1. cbn. rewrite app_nil_r, <- app_assoc. apply sublists_partition.
Qed.

(** *** Grouping *)

Lemma setdefault_append_items d c m :
  concat (map snd (setdefault_append d c m)) ≡ₚ m :: concat (map snd d).
Proof.
  induction d as [|[c' items] d IH]; [done|]. cbn.
  case_decide; cbn.
  - rewrite <- app_assoc. cbn. by rewrite <- Permutation_middle.
  - rewrite IH. by rewrite <- Permutation_middle.
Qed.

Lemma group_by_category_snoc l m :
  group_by_category (l ++ [m]) =
  setdefault_append (group_by_category l) (_category m) (fields m).
Proof. unfold group_by_category. by rewrite fold_left_app. Qed.

Lemma group_by_category_items l :
  concat (map snd (group_by_category l)) ≡ₚ map fields l.
Proof.
  induction l as [|m l IH] using rev_ind; [done|].
  rewrite group_by_category_snoc, setdefault_append_items, IH, map_app. cbn.
  by rewrite <- Permutation_cons_append.
Qed.

Lemma category_writes_items d :
  written_items (category_writes d) ≡ₚ concat (map snd d).
Proof.
  induction d as [|[c items] d IH]; [done|].
  change (category_writes ((c, items) :: d))
    with ((process_category c items).1 ++ category_writes d).
  rewrite written_items_app, IH. cbn [map concat snd]. by rewrite process_category_items.
Qed.

Lemma main_items hash now files :
  written_items (main hash now files) ≡ₚ map fields (unique_items (parse_all hash files)).
Proof.
  unfold main. rewrite written_items_app, category_writes_items, group_by_category_items.
  unfold written_items. cbn. by rewrite app_nil_r.
Qed.

Lemma main_urls_NoDup hash now files :
  NoDup (map url (written_items (main hash now files))).
Proof.
  rewrite main_items, map_map. apply unique_items_NoDup.
Qed.

(** ** What [process_category] writes *)

Lemma write_pages_imap category total idx ps :
  write_pages (category_to_filename category) category total (S idx) ps
  = imap (fun i => page_write category total (idx + i)) ps.
Proof.
  revert idx. induction ps as [|p ps IH]; intros idx; [done|].
  cbn [write_pages imap]. f_equal.
  - unfold page_write. rewrite Nat.add_0_r. by rewrite <- !app_assoc.
  - rewrite IH. apply imap_ext. intros i x _. cbn. f_equal. lia.
Qed.

Lemma process_category_small category items :
  (total_items items <= MAX_ITEMS_PER_FILE)%nat ->
  process_category category items =
  ((category_to_filename category ++ u ".json",
    CategoryDoc category (movies_of items) (series_of items)) :: adult_writes category items,
   {| ix_id := category_to_filename category; ix_name := category;
      movieCount := length (movies_of items); seriesCount := length (series_of items);
      adultCount := length (adult_of items); totalCount := total_items items;
      pages := None; hasMovies := None |}).
Proof.
  intros H. unfold process_category. fold (total_items items).
  destruct (Nat.ltb_spec MAX_ITEMS_PER_FILE (total_items items)); [lia|]. done.
Qed.

Lemma process_category_large category items :
  (MAX_ITEMS_PER_FILE < total_items items)%nat ->
  let series_pages := pages_of MAX_ITEMS_PER_FILE (series_of items) in
  let movies_pages := pages_of MAX_ITEMS_PER_FILE (movies_of items) in
  process_category category items =
  (imap (page_write category (Nat.max (length series_pages) (length movies_pages))) series_pages
     ++ movies_writes category items ++ adult_writes category items,
   {| ix_id := category_to_filename category; ix_name := category;
      movieCount := length (movies_of items); seriesCount := length (series_of items);
      adultCount := length (adult_of items); totalCount := total_items items;
      pages := Some (Nat.max (length series_pages) 1);
      hasMovies := Some (0 <? length (movies_of items))%nat |}).
Proof.
  intros H. unfold process_category. fold (total_items items).
  destruct (Nat.ltb_spec MAX_ITEMS_PER_FILE (total_items items)); [|lia].
  cbv zeta. rewrite (write_pages_imap category _ 0). done.
Qed.

(** *** Shape of the pages *)

Lemma pages_of_length size (l : list item) :
  length (pages_of size l) = ((length l + size - 1) / size)%nat.
Proof. unfold pages_of. by rewrite length_map, range_length. Qed.

Lemma pages_of_lookup size (l : list item) i page :
  (0 < size)%nat ->
  pages_of size l !! i = Some page ->
  page = take size (drop (i * size) l)
  /\ (i * size < length l)%nat.
Proof.
  intros Hs H. unfold pages_of, range in H.
  rewrite !list_lookup_fmap in H.
  destruct (seq 0 ((length l + size - 1) / size) !! i) as [j|] eqn:Hj; [|done].
  apply lookup_seq in Hj as [-> Hlt]. cbn in H. injection H as <-. split; [done|].
  cbn in Hlt.
  pose proof (Nat.div_mod_eq (length l + size - 1) size) as Hd.
  pose proof (Nat.mod_upper_bound (length l + size - 1) size ltac:(lia)) as Hm.
  nia.
Qed.

Lemma pages_of_page_length size (l : list item) i page :
  (0 < size)%nat ->
  pages_of size l !! i = Some page ->
  (0 < length page <= size)%nat
  /\ (S i < length (pages_of size l) -> length page = size)%nat.
Proof.
  intros Hs H. pose proof (pages_of_lookup _ _ _ _ Hs H) as [-> Hlt].
  rewrite length_take, length_drop. split; [lia|].
  rewrite pages_of_length. intros Hi.
  pose proof (Nat.div_mod_eq (length l + size - 1) size) as Hd.
  pose proof (Nat.mod_upper_bound (length l + size - 1) size ltac:(lia)) as Hm.
  nia.
Qed.

Lemma pages_of_nil size : pages_of size [] = [].
Proof.
  unfold pages_of, range. cbn [length].
  destruct size as [|n]; [done|].
  replace (0 + S n - 1)%nat with n by lia. by rewrite Nat.div_small by lia.
Qed.

(** ** The lexer *)

Lemma http_is_not_extinf s :
  startswith s (u "http") = true -> startswith s (u "#EXTINF:") = false.
Proof.
  destruct s as [|c s]; [done|].
  change (u "http") with (104 :: u "ttp"). change (u "#EXTINF:") with (35 :: u "EXTINF:").
  cbn [startswith]. intros [Hc _]%andb_true_iff. apply Z.eqb_eq in Hc as <-. done.
Qed.

Section lexer.

Variable hash : str -> Z.

Lemma lex_ts_line st items line :
  url_line line -> ts_line line -> truthy (current_name st) = true ->
  lex_line hash (st, items) line = (no_pending, items).
Proof.
  unfold url_line, ts_line. intros Hu Ht Hn. unfold lex_line.
  rewrite (http_is_not_extinf _ Hu), Hu, Hn, Ht. done.
Qed.

Lemma lex_ts_line_no_item st items line :
  url_line line -> ts_line line -> (lex_line hash (st, items) line).2 = items.
Proof.
  unfold url_line, ts_line. intros Hu Ht. unfold lex_line.
  rewrite (http_is_not_extinf _ Hu), Hu, Ht.
  by destruct (truthy (current_name st)).
Qed.

Lemma lex_metadata_line st st' items line :
  metadata_line line ->
  (lex_line hash (st, items) line).1 = (lex_line hash (st', items) line).1
  /\ (lex_line hash (st, items) line).2 = items.
Proof. unfold metadata_line. intros Hm. unfold lex_line. by rewrite Hm. Qed.

Lemma lex_ignored_line st items line :
  url_line line -> truthy (current_name st) = true ->
  should_ignore_category (pending_category st) = true ->
  lex_line hash (st, items) line = (no_pending, items).
Proof.
  unfold url_line. intros Hu Hn Hi. unfold lex_line.
  rewrite (http_is_not_extinf _ Hu), Hu, Hn. fold (pending_category st). rewrite Hi.
  by destruct (endswith _ _).
Qed.

Lemma lex_url_line st items line :
  url_line line -> truthy (current_name st) = true ->
  endswith (lower (strip line)) (u ".ts") = false ->
  should_ignore_category (pending_category st) = false ->
  lex_line hash (st, items) line =
  (no_pending,
   items ++ [build_item hash (default [] (current_name st)) (current_logo st)
               (pending_category st) (strip line)]).
Proof.
  unfold url_line. intros Hu Hn Ht Hi. unfold lex_line.
  rewrite (http_is_not_extinf _ Hu), Hu, Hn, Ht. fold (pending_category st). by rewrite Hi.
Qed.

Lemma lex_other_line acc line :
  startswith (strip line) (u "#EXTINF:") = false ->
  startswith (strip line) (u "http") = false ->
  lex_line hash acc line = acc.
Proof. intros H1 H2. destruct acc as [st items]. unfold lex_line. by rewrite H1, H2. Qed.

(** What a line can add: nothing, or the item built from the pending entry. *)
Lemma lex_line_cases st items line :
  (lex_line hash (st, items) line).2 = items
  \/ exists name,
       current_name st = Some name
       /\ url_line line
       /\ endswith (lower (strip line)) (u ".ts") = false
       /\ should_ignore_category (pending_category st) = false
       /\ lex_line hash (st, items) line =
          (no_pending,
           items ++ [build_item hash name (current_logo st) (pending_category st) (strip line)]).
Proof.
  unfold lex_line, url_line. fold (pending_category st).
  destruct (startswith (strip line) (u "#EXTINF:")); [by left|].
  destruct (startswith (strip line) (u "http")) eqn:Hu; [|by left].
  destruct (current_name st) as [[|c name]|] eqn:Hn; cbn [truthy andb]; [by left| |by left].
  destruct (endswith _ _) eqn:Ht; [by left|].
  destruct (should_ignore_category _) eqn:Hi; [by left|].
  right. exists (c :: name). done.
Qed.

Lemma lex_lines_passed lines st items :
  Forall (passed_filters hash) items ->
  Forall (passed_filters hash) (fold_left (lex_line hash) lines (st, items)).2.
Proof.
  revert st items. induction lines as [|line lines IH]; intros st items Hi; [done|].
  cbn [fold_left]. destruct (lex_line_cases st items line) as [H|(name & Hn & Hu & Ht & Hg & H)].
  - destruct (lex_line hash (st, items) line) as [st' items']. cbn in H. subst. by apply IH.
  - rewrite H. apply IH. apply Forall_app. split; [done|]. constructor; [|done].
    by exists name, (current_logo st), (pending_category st), (strip line).
Qed.

Lemma parse_m3u8_file_passed content :
  Forall (passed_filters hash) (parse_m3u8_file hash content).
Proof. apply lex_lines_passed. constructor. Qed.

End lexer.

(** ** The ignore list *)

Lemma should_ignore_category_spec category :
  should_ignore_category category = true <->
  exists ignored, ignored ∈ IGNORED_CATEGORIES
    /\ (category = ignored
        \/ upper category = upper ignored
        \/ startswith (upper category) (upper ignored) = true).
Proof.
  unfold should_ignore_category. rewrite existsb_exists. split.
  - intros (ignored & Hin & H). exists ignored. split; [by apply list_elem_of_In|].
    apply orb_true_iff in H as [H|H]; [apply orb_true_iff in H as [H|H]|].
    + by right; right.
    + right; left. by apply bool_decide_eq_true in H.
    + left. by apply bool_decide_eq_true in H.
  - intros (ignored & Hin & H). exists ignored. split; [by apply list_elem_of_In|].
    destruct H as [H|[H|H]].
    + apply orb_true_iff. right. by apply bool_decide_eq_true.
    + apply orb_true_iff. left. apply orb_true_iff. right. by apply bool_decide_eq_true.
    + by rewrite H.
Qed.

(** ** Adult content *)

Lemma startswith_app s t p : startswith s p = true -> startswith (s ++ t) p = true.
Proof.
  revert s. induction p as [|a p IH]; intros s; [by destruct s, t|].
  destruct s as [|b s]; [done|]. cbn [startswith app].
  intros [-> H]%andb_true_iff. by rewrite IH.
Qed.

Lemma contains_app_l s t k : contains s k = true -> contains (s ++ t) k = true.
Proof.
  induction s as [|c s IH]; cbn [contains app].
  - rewrite orb_false_r. intros H. destruct k; [|done]. by destruct t.
  - intros [H|H]%orb_true_iff.
    + change (c :: s ++ t) with ((c :: s) ++ t). by rewrite (startswith_app _ _ _ H).
    + rewrite (IH H). apply orb_true_r.
Qed.

Lemma contains_app_r s t k : contains t k = true -> contains (s ++ t) k = true.
Proof.
  intros H. induction s as [|c s IH]; [done|].
  cbn [contains app]. rewrite IH. apply orb_true_r.
Qed.

Lemma is_adult_content_spec name category :
  is_adult_content name category = true <->
  exists keyword, keyword ∈ ADULT_KEYWORDS
    /\ contains (name ++ u " " ++ category) keyword = true.
Proof.
  unfold is_adult_content. rewrite existsb_exists.
  split; intros (k & Hk & H); exists k; (split; [by apply list_elem_of_In|done]).
Qed.

Lemma adult_keyword_in_name name category keyword :
  keyword ∈ ADULT_KEYWORDS -> contains name keyword = true ->
  is_adult_content name category = true.
Proof.
  intros Hk H. apply is_adult_content_spec. exists keyword. split; [done|].
  by apply contains_app_l.
Qed.

Lemma adult_keyword_in_category name category keyword :
  keyword ∈ ADULT_KEYWORDS -> contains category keyword = true ->
  is_adult_content name category = true.
Proof.
  intros Hk H. apply is_adult_content_spec. exists keyword. split; [done|].
  by do 2 apply contains_app_r.
Qed.

(** *** The sub-lists *)

Lemma elem_of_movies_of m items :
  m ∈ movies_of items <-> m ∈ items /\ type m = movie /\ isAdult m = false.
Proof.
  unfold movies_of. rewrite !list_elem_of_In, filter_In, andb_true_iff, negb_true_iff.
  destruct (type m); cbn; intuition congruence.
Qed.

Lemma elem_of_series_of m items :
  m ∈ series_of items <-> m ∈ items /\ type m = series /\ isAdult m = false.
Proof.
  unfold series_of. rewrite !list_elem_of_In, filter_In, andb_true_iff, negb_true_iff.
  destruct (type m); cbn; intuition congruence.
Qed.

Lemma elem_of_adult_of m items :
  m ∈ adult_of items <-> m ∈ items /\ isAdult m = true.
Proof. unfold adult_of. by rewrite !list_elem_of_In, filter_In. Qed.

Lemma elem_of_pages_of size (l : list item) page m :
  page ∈ pages_of size l -> m ∈ page -> m ∈ l.
Proof.
  unfold pages_of. intros (i & -> & _)%list_elem_of_fmap Hm.
  by apply (subseteq_drop i l), (subseteq_take size).
Qed.

Lemma process_category_not_adult category items w m :
  w ∈ (process_category category items).1 ->
  m ∈ doc_movies w.2 ++ doc_series w.2 ->
  isAdult m = false.
Proof.
  intros Hw Hm.
  assert (Hside : w ∈ adult_writes category items -> isAdult m = false).
  { unfold adult_writes. destruct (adult_of items); [by intros ?%elem_of_nil|].
    intros ->%list_elem_of_singleton. cbn in Hm. by apply elem_of_nil in Hm. }
  destruct (Nat.le_gt_cases (total_items items) MAX_ITEMS_PER_FILE) as [Hle|Hgt].
  - rewrite (process_category_small _ _ Hle) in Hw. cbn [fst] in Hw.
    apply elem_of_cons in Hw as [->|Hw]; [|by apply Hside].
    cbn in Hm. apply elem_of_app in Hm as [Hm|Hm].
    + by apply elem_of_movies_of in Hm as (_ & _ & ?).
    + by apply elem_of_series_of in Hm as (_ & _ & ?).
  - rewrite (process_category_large _ _ Hgt) in Hw. cbn [fst] in Hw.
    apply elem_of_app in Hw as [Hw|Hw]; [|apply elem_of_app in Hw as [Hw|Hw]; [|by apply Hside]].
    + apply elem_of_lookup_imap in Hw as (i & page & -> & Hp).
      cbn in Hm. apply list_elem_of_lookup_2 in Hp.
      pose proof (elem_of_pages_of _ _ _ _ Hp Hm) as Hs.
      by apply elem_of_series_of in Hs as (_ & _ & ?).
    + unfold movies_writes in Hw. destruct (movies_of items) eqn:E; [by apply elem_of_nil in Hw|].
      apply list_elem_of_singleton in Hw as ->. cbn in Hm. rewrite app_nil_r, <- E in Hm.
      by apply elem_of_movies_of in Hm as (_ & _ & ?).
Qed.

Lemma process_category_adult category items m :
  m ∈ items -> isAdult m = true ->
  (category_to_filename category ++ u "_adult.json", AdultDoc category (adult_of items))
    ∈ (process_category category items).1
  /\ m ∈ adult_of items.
Proof.
  intros Hm Ha.
  assert (Hin : m ∈ adult_of items) by by apply elem_of_adult_of.
  split; [|done].
  assert (Hside : (category_to_filename category ++ u "_adult.json",
                   AdultDoc category (adult_of items)) ∈ adult_writes category items).
  { unfold adult_writes. destruct (adult_of items); [by apply elem_of_nil in Hin|].
    by apply list_elem_of_singleton. }
  destruct (Nat.le_gt_cases (total_items items) MAX_ITEMS_PER_FILE) as [Hle|Hgt].
  - rewrite (process_category_small _ _ Hle). cbn [fst]. by apply elem_of_cons; right.
  - rewrite (process_category_large _ _ Hgt). cbn [fst]. rewrite !elem_of_app. by right; right.
Qed.

(** *** Groups *)

Lemma setdefault_append_elem d c m :
  exists items, (c, items) ∈ setdefault_append d c m /\ m ∈ items.
Proof.
  induction d as [|[c' items'] d (items & Hin & Hm)]; cbn.
  - exists [m]. split; by apply list_elem_of_singleton.
  - case_decide; subst.
    + exists (items' ++ [m]). split; [by left|]. apply elem_of_app. right. by left.
    + exists items. split; [by right|done].
Qed.

Lemma setdefault_append_mono d c m c' items' m' :
  (c', items') ∈ d -> m' ∈ items' ->
  exists items, (c', items) ∈ setdefault_append d c m /\ m' ∈ items.
Proof.
  induction d as [|[c0 items0] d IH]; [by intros ?%elem_of_nil|].
  intros Hin Hm. cbn. apply elem_of_cons in Hin as [Heq|Hin].
  - injection Heq as <- <-. case_decide; subst.
    + exists (items' ++ [m]). split; [by left|]. apply elem_of_app. by left.
    + exists items'. split; [by left|done].
  - destruct (IH Hin Hm) as (items & H1 & H2). case_decide; subst.
    + exists items'. split; [by right|done].
    + exists items. split; [by right|done].
Qed.

Lemma group_by_category_elem l p :
  p ∈ l -> exists items, (_category p, items) ∈ group_by_category l /\ fields p ∈ items.
Proof.
  induction l as [|q l IH] using rev_ind; [by intros ?%elem_of_nil|].
  rewrite group_by_category_snoc. intros [Hp|Hp]%elem_of_app.
  - destruct (IH Hp) as (items & H1 & H2). by eapply setdefault_append_mono.
  - apply list_elem_of_singleton in Hp as ->. apply setdefault_append_elem.
Qed.

Lemma elem_of_category_writes d w :
  w ∈ category_writes d <->
  exists c items, (c, items) ∈ d /\ w ∈ (process_category c items).1.
Proof.
  unfold category_writes. rewrite list_elem_of_In, in_concat. split.
  - intros (ws & Hws & Hw). apply in_map_iff in Hws as ([c items] & <- & Hin).
    exists c, items. by rewrite !list_elem_of_In.
  - intros (c & items & Hin & Hw). exists (process_category c items).1.
    rewrite <- !list_elem_of_In. split; [|done].
    apply list_elem_of_In, in_map_iff. exists (c, items). by rewrite <- list_elem_of_In.
Qed.

Lemma elem_of_main hash now files w :
  w ∈ main hash now files <->
  w ∈ category_writes (group_by_category (unique_items (parse_all hash files)))
  \/ w = (u "index.json",
          index_document now (build_index (group_by_category (unique_items (parse_all hash files))))).
Proof. unfold main. rewrite elem_of_app, list_elem_of_singleton. done. Qed.

(** ** Independence of the hash and the clock *)

Lemma skeleton_app ws1 ws2 : skeleton (ws1 ++ ws2) = skeleton ws1 ++ skeleton ws2.
Proof. apply map_app. Qed.

(** *** The parser *)

Lemma lex_line_skeleton h h' st items items' line :
  map without_id_parsed items = map without_id_parsed items' ->
  (lex_line h (st, items) line).1 = (lex_line h' (st, items') line).1
  /\ map without_id_parsed (lex_line h (st, items) line).2
     = map without_id_parsed (lex_line h' (st, items') line).2.
Proof.
  intros H. unfold lex_line.
  destruct (startswith (strip line) (u "#EXTINF:")); [done|].
  destruct (_ && _); [|done].
  destruct (endswith _ _); [done|].
  destruct (should_ignore_category _); [done|].
  cbn [fst snd]. split; [done|]. rewrite !map_app, H. done.
Qed.

Lemma lex_lines_skeleton h h' lines st items items' :
  map without_id_parsed items = map without_id_parsed items' ->
  map without_id_parsed (fold_left (lex_line h) lines (st, items)).2
  = map without_id_parsed (fold_left (lex_line h') lines (st, items')).2.
Proof.
  revert st items items'. induction lines as [|line lines IH]; intros st items items' H; [done|].
  cbn [fold_left]. destruct (lex_line_skeleton h h' st items items' line H) as [H1 H2].
  destruct (lex_line h (st, items) line) as [st1 items1].
  destruct (lex_line h' (st, items') line) as [st2 items2].
  cbn [fst snd] in *. subst st2. by apply IH.
Qed.

Lemma parse_all_skeleton h h' files :
  map without_id_parsed (parse_all h files) = map without_id_parsed (parse_all h' files).
Proof.
  unfold parse_all. induction files as [|[content|] files IH]; [done| |done].
  cbn [map concat]. rewrite !map_app, IH. f_equal.
  by apply lex_lines_skeleton.
Qed.

(** *** Deduplication and grouping *)

Lemma urls_without_id l : urls (map without_id_parsed l) = urls l.
Proof. unfold urls. rewrite map_map. done. Qed.

Lemma unique_items_without_id l :
  unique_items (map without_id_parsed l) = map without_id_parsed (unique_items l).
Proof.
  induction l as [|m l IH] using rev_ind; [done|].
  rewrite map_app. cbn [map]. rewrite !unique_items_snoc. rewrite map_app, IH, urls_without_id.
  cbn [without_id_parsed fields without_id url]. by case_decide.
Qed.

Lemma setdefault_append_without_id d c m :
  setdefault_append (map skeleton_group d) c (without_id m)
  = map skeleton_group (setdefault_append d c m).
Proof.
  induction d as [|[c' items] d IH]; [done|].
  unfold skeleton_group in *. cbn [map setdefault_append fst snd].
  case_decide; cbn [map fst snd]; [by rewrite map_app|by rewrite IH].
Qed.

Lemma group_by_category_without_id l :
  group_by_category (map without_id_parsed l) = map skeleton_group (group_by_category l).
Proof.
  induction l as [|m l IH] using rev_ind; [done|].
  rewrite map_app. cbn [map]. rewrite !group_by_category_snoc, IH.
  apply setdefault_append_without_id.
Qed.

(** *** Partitioning *)

Lemma filter_without_id (P : item -> bool) items :
  (forall m, P (without_id m) = P m) ->
  List.filter P (map without_id items) = map without_id (List.filter P items).
Proof.
  intros HP. induction items as [|m items IH]; [done|].
  cbn. rewrite HP. destruct (P m); cbn; by rewrite IH.
Qed.

Lemma pages_of_without_id size items :
  pages_of size (map without_id items) = map (map without_id) (pages_of size items).
Proof.
  unfold pages_of. rewrite length_map, map_map. apply map_ext. intros i.
  by rewrite <- fmap_drop, <- fmap_take.
Qed.

Lemma write_pages_skeleton base c total idx ps :
  write_pages base c total idx (map (map without_id) ps)
  = skeleton (write_pages base c total idx ps).
Proof.
  revert idx. induction ps as [|p ps IH]; intros idx; [done|].
  cbn. by rewrite IH.
Qed.

Lemma process_category_skeleton c items :
  process_category c (map without_id items)
  = (skeleton (process_category c items).1, (process_category c items).2).
Proof.
  unfold process_category, movies_of, series_of, adult_of.
  rewrite !filter_without_id by done.
  rewrite !pages_of_without_id, !length_map, write_pages_skeleton.
  destruct (_ <? _)%nat; cbn [fst snd].
  - f_equal. rewrite !skeleton_app. do 2 f_equal; by destruct (List.filter _ items).
  - f_equal. unfold skeleton. cbn [map]. f_equal. by destruct (List.filter _ items).
Qed.

Lemma category_writes_skeleton d :
  category_writes (map skeleton_group d) = skeleton (category_writes d).
Proof.
  induction d as [|[c items] d IH]; [done|].
  change (category_writes (map skeleton_group ((c, items) :: d)))
    with ((process_category c (map without_id items)).1
            ++ category_writes (map skeleton_group d)).
  change (category_writes ((c, items) :: d))
    with ((process_category c items).1 ++ category_writes d).
  by rewrite skeleton_app, IH, process_category_skeleton.
Qed.

Lemma build_index_skeleton d :
  build_index (map skeleton_group d) = build_index d.
Proof.
  unfold build_index. f_equal. rewrite map_map. apply map_ext. intros [c items].
  cbn [skeleton_group fst snd]. by rewrite process_category_skeleton.
Qed.

Lemma main_skeleton h now files :
  skeleton (main h now files) =
  let d := group_by_category (unique_items (map without_id_parsed (parse_all h files))) in
  category_writes d ++ [(u "index.json", index_document [] (build_index d))].
Proof.
  unfold main. cbv zeta.
  rewrite unique_items_without_id, group_by_category_without_id.
  rewrite category_writes_skeleton, build_index_skeleton.
  by rewrite skeleton_app.
Qed.

Lemma main_skeleton_eq h h' now now' files :
  skeleton (main h now files) = skeleton (main h' now' files).
Proof. rewrite !main_skeleton. by rewrite (parse_all_skeleton h h'). Qed.

(** ** The index *)

Lemma insert_by_total_perm c l : insert_by_total c l ≡ₚ c :: l.
Proof.
  induction l as [|d l IH]; [done|]. cbn [insert_by_total].
  destruct (Nat.ltb (totalCount d) (totalCount c)); [done|]. rewrite IH. apply perm_swap.
Qed.

Lemma sort_by_total_perm l : sort_by_total l ≡ₚ l.
Proof.
  unfold sort_by_total.
  assert (H : forall acc, fold_left (fun sorted c => insert_by_total c sorted) l acc ≡ₚ acc ++ l).
  { induction l as [|c l IH]; intros acc; cbn [fold_left].
    - by rewrite app_nil_r.
    - rewrite IH, insert_by_total_perm. by rewrite <- Permutation_middle. }
  apply (H []).
Qed.

Lemma sum_perm l l' : l ≡ₚ l' -> sum l = sum l'.
Proof. unfold sum. induction 1; cbn in *; lia. Qed.

Lemma sum_app l l' : sum (l ++ l') = (sum l + sum l')%nat.
Proof. unfold sum. induction l; cbn in *; lia. Qed.

Lemma process_category_counts c items :
  let e := (process_category c items).2 in
  movieCount e = length (movies_of items)
  /\ seriesCount e = length (series_of items)
  /\ adultCount e = length (adult_of items)
  /\ totalCount e = length items.
Proof.
  assert (Ht : total_items items = length items).
  { unfold total_items. rewrite <- (sublists_partition items) at 4.
    rewrite !length_app. lia. }
  destruct (Nat.le_gt_cases (total_items items) MAX_ITEMS_PER_FILE) as [Hle|Hgt].
  - by rewrite (process_category_small _ _ Hle).
  - by rewrite (process_category_large _ _ Hgt).
Qed.

Lemma index_totals (d : list (str * list item)) :
  let idx := build_index d in
  (sum (map movieCount idx) + sum (map seriesCount idx) + sum (map adultCount idx)
   = length (concat (map snd d)))%nat.
Proof.
  cbv zeta. unfold build_index.
  rewrite !(sum_perm _ _ (Permutation_map _ (sort_by_total_perm _))).
  induction d as [|[c items] d IH]; [done|].
  cbn [map concat sum fold_right fst snd] in *. rewrite length_app.
  destruct (process_category_counts c items) as (-> & -> & -> & _).
  unfold sum in IH.
  rewrite <- (Permutation_length (sublists_partition items)), !length_app. lia.
Qed.

Lemma main_index hash now files :
  exists idx,
    last (main hash now files) = Some (u "index.json", index_document now idx)
    /\ (sum (map movieCount idx) + sum (map seriesCount idx) + sum (map adultCount idx)
        = length (written_items (main hash now files)))%nat.
Proof.
  eexists. split; [apply last_snoc|].
  rewrite index_totals, (Permutation_length (main_items hash now files)).
  by rewrite (Permutation_length (group_by_category_items _)).
Qed.

(** ** Where written items come from *)

Lemma parse_all_passed hash files : Forall (passed_filters hash) (parse_all hash files).
Proof.
  unfold parse_all. induction files as [|[content|] files IH]; [constructor| |done].
  cbn [map concat]. apply Forall_app. split; [apply parse_m3u8_file_passed|done].
Qed.

Lemma written_items_retained hash now files m :
  m ∈ written_items (main hash now files) ->
  exists p, p ∈ unique_items (parse_all hash files) /\ m = fields p.
Proof.
  rewrite main_items. intros (p & -> & Hp)%list_elem_of_fmap. by exists p.
Qed.

Lemma written_items_passed hash now files m :
  m ∈ written_items (main hash now files) ->
  exists p, passed_filters hash p /\ m = fields p.
Proof.
  intros (p & Hp & ->)%written_items_retained. exists p. split; [|done].
  pose proof (parse_all_passed hash files) as Hall.
  rewrite Forall_forall in Hall. apply Hall.
  by apply (sublist_subseteq _ _ (unique_items_sublist _)).
Qed.

Lemma written_items_id hash now files m :
  m ∈ written_items (main hash now files) ->
  id m = generate_id hash (name m) (url m).
Proof.
  intros (p & (n & l & c & x & -> & _) & ->)%written_items_passed. done.
Qed.

(** ** Identifiers *)

(** *** Substitution with one-character patterns *)

Lemma length_cons_sub {A} (c : A) (s : list A) : (length (c :: s) - length s)%nat = 1%nat.
Proof. cbn [length]. lia. Qed.

Lemma sub_go_chr p bol s :
  sub_go (Chr p) [] bol O s = List.filter (fun c => negb (p c)) s.
Proof.
  revert bol. induction s as [|c s IH]; intros bol; [done|].
  cbn [sub_go match_here rmatch List.filter].
  destruct (p c); cbn [negb].
  - rewrite length_cons_sub. cbn [app]. apply IH.
  - f_equal. apply IH.
Qed.

Lemma star_greedy_spaces {A} bol s (f : str -> A) :
  star_greedy isspace bol s (fun _ s' => Some (f s')) = Some (f (lstrip s)).
Proof.
  revert bol. induction s as [|c s IH]; intros bol; [done|].
  cbn [star_greedy lstrip]. destruct (isspace c); [|done]. by rewrite IH.
Qed.

Lemma match_here_spaces bol c s :
  match_here (plus isspace) bol (c :: s) =
  if isspace c then Some (lstrip s, []) else None.
Proof.
  unfold match_here, plus. cbn [rmatch]. destruct (isspace c); [|done].
  apply (star_greedy_spaces false s (fun s' => (s', []))).
Qed.

Lemma lstrip_length s : (length (lstrip s) <= length s)%nat.
Proof. induction s as [|c s IH]; cbn; [lia|]. destruct (isspace c); cbn; lia. Qed.

Lemma lead_cons c s :
  lead (c :: s) = if isspace c then S (lead s) else O.
Proof.
  unfold lead. cbn [lstrip]. pose proof (lstrip_length s).
  destruct (isspace c); cbn [length]; lia.
Qed.

Lemma sub_go_spaces s :
  (forall bol, sub_go (plus isspace) (u "-") bol O s = collapse false s)
  /\ sub_go (plus isspace) (u "-") false (lead s) s = collapse true s.
Proof.
  induction s as [|c s [IH0 IH1]]; [split; done|].
  assert (H0 : forall bol, sub_go (plus isspace) (u "-") bol O (c :: s) = collapse false (c :: s)).
  { intros bol. cbn [sub_go collapse]. rewrite match_here_spaces.
    destruct (isspace c) eqn:Hc.
    - replace (length (c :: s) - length (lstrip s))%nat with (S (lead s))
        by (unfold lead; pose proof (lstrip_length s); cbn [length]; lia).
      by rewrite IH1.
    - by rewrite IH0. }
  split; [exact H0|].
  rewrite lead_cons. cbn [collapse]. destruct (isspace c) eqn:Hc.
  - cbn [sub_go]. apply IH1.
  - rewrite H0. cbn [collapse]. by rewrite Hc.
Qed.

Lemma sub_spaces s : sub (plus isspace) (u "-") s = collapse false s.
Proof. apply sub_go_spaces. Qed.

Lemma sub_chr p s : sub (Chr p) [] s = List.filter (fun c => negb (p c)) s.
Proof. apply sub_go_chr. Qed.

Lemma generate_id_slug hash name url :
  generate_id hash name url = slug name ++ u "-" ++ hash6 hash url.
Proof.
  unfold generate_id, slug, hash6. rewrite sub_chr, sub_spaces.
  f_equal.
  - do 2 f_equal. apply filter_ext. intros c. by rewrite negb_involutive.
  - f_equal. destruct (Nat.ltb_spec 6 (length (str_of_Z (Z.abs (hash url))))); [done|].
    by rewrite take_ge.
Qed.

Lemma generate_id_nonempty hash name url : generate_id hash name url <> [].
Proof.
  rewrite generate_id_slug. intros H. apply app_eq_nil in H as [_ H]. discriminate H.
Qed.

(** ** The rule chain *)

Lemma normalize_category_table category :
  normalize_category category = normalize_by_table category.
Proof.
  unfold normalize_category, normalize_by_table, first_rule.
  generalize (strip_prefix category) as c. intros c.
  generalize (lower c) as l. intros l.
  cbv beta iota zeta delta
    [CATEGORY_RULES PLATFORM_RULES GENRE_RULES COLLECTION_RULES app List.find applies canonical].
  repeat match goal with
         | |- (if ?b then _ else _) = _ => destruct b; [reflexivity|]
         end.
  reflexivity.
Qed.

(** * The claims *)

(** ** Deduplication *)

(** C1.  The deduplication keeps exactly the first entry of every URL, in the
    order of the input: the kept entries have pairwise distinct URLs, form a
    subsequence of the input and cover every URL of the input; an entry
    appended to the input is kept if and only if no earlier entry has its
    URL, the others being counted as duplicates.  Consequently no URL occurs
    twice among the items of all the files a run writes. *)
Theorem dedup_keeps_first_occurrences :
  (forall all_items : list parsed,
      NoDup (urls (unique_items all_items))
      /\ unique_items all_items `sublist_of` all_items
      /\ (forall x, x ∈ urls (unique_items all_items) <-> x ∈ urls all_items)
      /\ (duplicates all_items + length (unique_items all_items))%nat = length all_items)
  /\ (forall (l : list parsed) (m : parsed),
         unique_items (l ++ [m]) =
         unique_items l ++ (if decide (url (fields m) ∈ urls l) then [] else [m]))
  /\ (forall hash now files,
         NoDup (map url (written_items (main hash now files)))).
Proof.
  split_and!.
  - intros all_items. split_and!.
    + apply unique_items_NoDup.
    + apply unique_items_sublist.
    + apply urls_unique_items.
    + apply duplicates_count.
  - apply unique_items_snoc.
  - apply main_urls_NoDup.
Qed.

(** ** Identifiers *)

(** C3 (as stated, refuted).  The identifier of one (name, url) pair is not
    the same in every run: under two hash secrets the interpreter gives the
    URL two hashes, and the identifiers differ.  (The slug keeps the letters
    a to z and the digits 0 to 9 only: the accented letters of a name are
    removed with the punctuation.) *)
Lemma generate_id_differs_between_processes :
  generate_id (CPython.hash secret0) (u "Matrix") (u "http://h/matrix.mp4")
    = u "matrix-125276"
  /\ generate_id (CPython.hash secret1) (u "Matrix") (u "http://h/matrix.mp4")
    = u "matrix-795296"
  /\ generate_id (CPython.hash secret0) (u "Matrix") (u "http://h/matrix.mp4")
     <> generate_id (CPython.hash secret1) (u "Matrix") (u "http://h/matrix.mp4")
  /\ generate_id (CPython.hash secret0) (u "Ação!") (u "http://h/matrix.mp4")
    = u "ao-125276".
Proof.
  split_and!; [by vm_compute|by vm_compute| |by vm_compute].
  intros H. vm_compute in H. discriminate H.
Qed.

(** C3 (amended).  [generate_id] returns the slug of the name, a hyphen and
    the first six characters of the decimal string of the absolute value of
    the interpreter's hash of the URL; the identifier is never empty.  Two
    runs, each with its own hash, give one (name, url) pair the same
    identifier exactly when those six characters agree: they do when the two
    hashes give the URL the same value, and they can agree or differ when the
    values differ, as under the secrets (652, 0) and (1156, 0), whose hashes
    of one URL differ and start with the same six digits. *)
Theorem generate_id_is_slug_and_hash6 (hash : str -> Z) (name url : str) :
  generate_id hash name url
  = slug name ++ u "-" ++ take 6 (str_of_Z (Z.abs (hash url)))
  /\ generate_id hash name url <> []
  /\ (forall hash' : str -> Z,
        generate_id hash' name url = generate_id hash name url
        <-> take 6 (str_of_Z (Z.abs (hash' url))) = take 6 (str_of_Z (Z.abs (hash url))))
  /\ (forall hash' : str -> Z,
        hash' url = hash url ->
        generate_id hash' name url = generate_id hash name url)
  /\ (CPython.hash (652, 0) (u "http://h/matrix.mp4")
      <> CPython.hash (1156, 0) (u "http://h/matrix.mp4")
      /\ generate_id (CPython.hash (652, 0)) (u "Matrix") (u "http://h/matrix.mp4")
         = generate_id (CPython.hash (1156, 0)) (u "Matrix") (u "http://h/matrix.mp4")
      /\ generate_id (CPython.hash (652, 0)) (u "Matrix") (u "http://h/matrix.mp4")
         = u "matrix-243204").
Proof.
  split_and!.
  - apply generate_id_slug.
  - apply generate_id_nonempty.
  - intros hash'. rewrite !generate_id_slug. unfold hash6. split.
    + intros H. by apply app_inv_head in H; apply app_inv_head in H.
    + by intros ->.
  - intros hash' H. rewrite !generate_id_slug. unfold hash6. by rewrite H.
  - intros H. vm_compute in H. discriminate H.
  - by vm_compute.
  - by vm_compute.
Qed.

(** ** Classification *)

(** C4.  The entry named [Breaking Bad S02E05] in the category
    [Series | Drama] is a series by its category and by its name, its series
    tuple is (Breaking Bad, 2, 5) and its canonical category is [Drama]; the
    lexer produces exactly this item from the two lines of the entry. *)
Theorem breaking_bad_is_a_drama_series (hash : str -> Z) (logo : option str) (url : str) :
  let entry := build_item hash (u "Breaking Bad S02E05") logo (u "Series | Drama") url in
  type (fields entry) = series
  /\ seriesName (fields entry) = Some (u "Breaking Bad")
  /\ season (fields entry) = Some 2
  /\ episode (fields entry) = Some 5
  /\ _category entry = u "Drama"
  /\ name (fields entry) = u "Breaking Bad S02E05"
  /\ is_series_by_category (u "Series | Drama") = true
  /\ is_series_by_name (u "Breaking Bad S02E05") = true
  /\ parse_series_info (u "Breaking Bad S02E05") = Some (u "Breaking Bad", 2, 5)
  /\ normalize_category (u "Series | Drama") = u "Drama"
  /\ parse_m3u8_file hash
       (text [extinf "Series | Drama" "Breaking Bad S02E05"; u "http://h/bb205.mp4"])
     = [build_item hash (u "Breaking Bad S02E05") None (u "Series | Drama")
          (u "http://h/bb205.mp4")].
Proof.
  cbv zeta. split_and!.
  1-10: by vm_compute.
  unfold parse_m3u8_file.
  replace (split newline _)
    with [extinf "Series | Drama" "Breaking Bad S02E05"; u "http://h/bb205.mp4"; []]
    by (vm_compute; reflexivity).
  cbn [fold_left].
  replace (lex_line hash (no_pending, []) (extinf "Series | Drama" "Breaking Bad S02E05"))
    with ({| current_name := Some (u "Breaking Bad S02E05");
             current_category := Some (u "Series | Drama");
             current_logo := None |}, @nil parsed)
    by (vm_compute; reflexivity).
  rewrite lex_url_line by (vm_compute; reflexivity).
  rewrite lex_other_line by (vm_compute; reflexivity).
  cbn [snd app]. do 2 f_equal; vm_compute; reflexivity.
Qed.

(** ** Category normalisation *)

Lemma find_first {A} (P : A -> bool) before r after :
  P r = true -> Forall (fun r' => P r' = false) before ->
  List.find P (before ++ r :: after) = Some r.
Proof.
  intros Hr. induction 1 as [|r' before Hr' _ IH]; cbn; [by rewrite Hr|by rewrite Hr'].
Qed.

Lemma find_none_all {A} (P : A -> bool) l :
  Forall (fun r => P r = false) l -> List.find P l = None.
Proof. induction 1 as [|r l Hr _ IH]; cbn; [done|by rewrite Hr]. Qed.

Lemma find_app_some {A} (P : A -> bool) l l' r :
  r ∈ l -> P r = true ->
  exists r', r' ∈ l /\ P r' = true /\ List.find P (l ++ l') = Some r'.
Proof.
  induction l as [|x l IH]; [by intros ?%elem_of_nil|].
  intros Hin Hr. cbn. destruct (P x) eqn:Hx.
  - exists x. split_and!; [by left|done|done].
  - apply elem_of_cons in Hin as [->|Hin]; [congruence|].
    destruct (IH Hin Hr) as (r' & ? & ? & ?). exists r'. split_and!; [by right|done|done].
Qed.

Lemma startswith_prefix p rest : startswith (p ++ rest) p = true.
Proof. induction p as [|a p IH]; [by destruct rest|]. cbn. by rewrite Z.eqb_refl. Qed.

Lemma startswith_app_false p q rest :
  (length q <= length p)%nat -> startswith p q = false ->
  startswith (p ++ rest) q = false.
Proof.
  revert p. induction q as [|b q IH]; intros p Hl H; [by destruct p|].
  destruct p as [|a p]; [cbn in Hl; lia|]. cbn [app startswith] in *.
  destruct (b =? a); [|done]. cbn [andb] in *. apply IH; [cbn in Hl; lia|done].
Qed.

Lemma replace_go_skip old new k rest :
  replace_go old new (length k) (k ++ rest) = replace_go old new O rest.
Proof. induction k as [|c k IH]; [by destruct rest|]. cbn [length app replace_go]. apply IH. Qed.

(** Removing [old] from a string that starts with it and holds it nowhere else
    leaves what follows the prefix. *)
Lemma replace_prefix old rest :
  old <> [] -> contains rest old = false -> replace (old ++ rest) old [] = rest.
Proof.
  intros Hold Hrest. destruct old as [|a old]; [done|]. unfold replace.
  change ((a :: old) ++ rest) with (a :: (old ++ rest)). cbn [replace_go].
  change (a :: old ++ rest) with ((a :: old) ++ rest).
  rewrite startswith_prefix. cbn [length Nat.pred app]. rewrite replace_go_skip.
  clear Hold. induction rest as [|c rest IH]; [done|].
  cbn [contains] in Hrest. apply orb_false_iff in Hrest as [Hs Hc].
  cbn [replace_go]. rewrite Hs. f_equal. by apply IH.
Qed.

Lemma upper_char_nonempty c : upper_char c <> [].
Proof.
  unfold upper_char, special.
  destruct (List.find _ UPPER_SPECIAL) as [[d s]|] eqn:E; [|done].
  apply find_some in E as [Hin _].
  assert (H : Forall (fun e : Z * str => e.2 <> []) UPPER_SPECIAL)
    by (unfold UPPER_SPECIAL; repeat constructor; done).
  rewrite Forall_forall in H. apply (H (d, s)). by apply list_elem_of_In.
Qed.

(** C6.  [normalize_category] strips the prefix and returns the name of the
    first rule of the chain, in the order of the source, whose test holds of
    the lower-cased category, and the stripped category itself when no rule
    holds.  A category that a platform rule matches gets the name of a
    platform rule whatever genre rules match it too: one that contains
    [netflix] is [Netflix], as [Netflix Drama] is although the rule for
    [drama] matches it as well.  The stripped category is the category itself
    when it starts with none of the three prefixes; after [OND /] it is what
    follows, trimmed, without a final [ -], and with its first character in
    upper case, or [Filmes] when nothing is left; after [Series |] it is what
    follows, trimmed, or [Séries] when nothing is left; after [COLETÂNEA:] it
    is what follows, trimmed.  So [Series | Policial], which no rule matches,
    is [Policial]. *)
Theorem normalize_category_first_matching_rule (category : str) :
  let stripped := strip_prefix category in
  let lower := lower stripped in
  normalize_category category =
    match first_rule CATEGORY_RULES lower with
    | Some r => canonical r stripped
    | None => stripped
    end
  /\ (forall before r after,
         CATEGORY_RULES = before ++ r :: after ->
         applies r lower = true ->
         Forall (fun r' => applies r' lower = false) before ->
         normalize_category category = canonical r stripped)
  /\ (Forall (fun r => applies r lower = false) CATEGORY_RULES ->
      normalize_category category = stripped)
  /\ (forall p, p ∈ PLATFORM_RULES -> applies p lower = true ->
        exists p', p' ∈ PLATFORM_RULES /\ applies p' lower = true
                   /\ normalize_category category = canonical p' stripped)
  /\ (contains lower (u "netflix") = true -> normalize_category category = u "Netflix")
  /\ (normalize_category (u "Netflix Drama") = u "Netflix"
      /\ contains (Py.lower (strip_prefix (u "Netflix Drama"))) (u "netflix") = true
      /\ contains (Py.lower (strip_prefix (u "Netflix Drama"))) (u "drama") = true
      /\ normalize_category (u "Drama") = u "Drama")
  /\ (startswith category (u "OND /") = false ->
      startswith category (u "Series |") = false ->
      startswith category (u "COLETÂNEA:") = false ->
      strip_prefix category = category)
  /\ (forall rest, contains rest (u "OND /") = false ->
        strip_prefix (u "OND /" ++ rest) =
          let normalized := strip rest in
          let normalized :=
            if endswith normalized (u " -")
            then strip (take (length normalized - 2) normalized)
            else normalized in
          match normalized with
          | c :: tail => upper_char c ++ tail
          | [] => u "Filmes"
          end)
  /\ (forall rest, contains rest (u "Series |") = false ->
        strip_prefix (u "Series |" ++ rest) =
          match strip rest with
          | [] => u "Séries"
          | normalized => normalized
          end)
  /\ (forall rest, contains rest (u "COLETÂNEA:") = false ->
        strip_prefix (u "COLETÂNEA:" ++ rest) = strip rest)
  /\ (normalize_category (u "Policial") = u "Policial"
      /\ normalize_category (u "OND / policial -") = u "Policial"
      /\ normalize_category (u "OND /") = u "Filmes"
      /\ normalize_category (u "Series | Policial") = u "Policial"
      /\ normalize_category (u "Series |") = u "Séries"
      /\ normalize_category (u "COLETÂNEA: Rocky") = u "Rocky").
Proof.
  cbv zeta. rewrite normalize_category_table. unfold normalize_by_table, first_rule.
  split_and!.
  - done.
  - intros before r after -> Hr Hb.
    by rewrite (find_first (fun r => applies r _) _ _ _ Hr Hb).
  - intros Hall. by rewrite (find_none_all (fun r => applies r _) _ Hall).
  - intros p Hp Happ. unfold CATEGORY_RULES.
    destruct (find_app_some (fun r => applies r (lower (strip_prefix category)))
                PLATFORM_RULES (GENRE_RULES ++ COLLECTION_RULES) p Hp Happ)
      as (p' & Hp' & Happ' & ->).
    by exists p'.
  - intros Hn. unfold CATEGORY_RULES, PLATFORM_RULES.
    cbn [app List.find applies canonical]. by rewrite Hn.
  - by vm_compute.
  - by vm_compute.
  - by vm_compute.
  - by vm_compute.
  - intros H1 H2 H3. unfold strip_prefix. by rewrite H1, H2, H3.
  - intros rest Hr. unfold strip_prefix. rewrite startswith_prefix.
    rewrite (replace_prefix (u "OND /") rest ltac:(by vm_compute) Hr).
    destruct (if endswith (strip rest) (u " -") then _ else _) as [|c tail]; [done|].
    pose proof (upper_char_nonempty c). by destruct (upper_char c).
  - intros rest Hr. unfold strip_prefix.
    rewrite (startswith_app_false (u "Series |") (u "OND /") rest)
      by (vm_compute; (lia || reflexivity)).
    rewrite startswith_prefix, (replace_prefix (u "Series |") rest ltac:(by vm_compute) Hr).
    by destruct (strip rest).
  - intros rest Hr. unfold strip_prefix.
    rewrite (startswith_app_false (u "COLETÂNEA:") (u "OND /") rest)
      by (vm_compute; (lia || reflexivity)).
    rewrite (startswith_app_false (u "COLETÂNEA:") (u "Series |") rest)
      by (vm_compute; (lia || reflexivity)).
    by rewrite startswith_prefix, (replace_prefix (u "COLETÂNEA:") rest ltac:(by vm_compute) Hr).
  - by vm_compute.
  - by vm_compute.
  - by vm_compute.
  - by vm_compute.
  - by vm_compute.
  - by vm_compute.
Qed.

(** A category that holds both [netflix] and [drama]. *)
Lemma normalize_category_first_matching_rule_witness :
  contains (lower (strip_prefix (u "Filmes | Netflix Drama"))) (u "netflix") = true
  /\ normalize_category (u "Filmes | Netflix Drama") = u "Netflix".
Proof.
  split; [by vm_compute|].
  destruct (normalize_category_first_matching_rule (u "Filmes | Netflix Drama"))
    as (_ & _ & _ & _ & Hnetflix & _).
  apply Hnetflix. by vm_compute.
Defined.

(** ** Reproducibility *)

(** C2 (as stated, refuted).  Two runs on the same playlist do not write the
    same documents: run a second later, [index.json] differs; run with another
    hash secret, the ids of the items differ. *)
Lemma rerun_writes_different_documents :
  main (CPython.hash secret0) (u "2026-01-01T00:00:00") [Some sample_playlist; None]
  <> main (CPython.hash secret0) (u "2026-01-01T00:00:01") [Some sample_playlist; None]
  /\ main (CPython.hash secret0) (u "2026-01-01T00:00:00") [Some sample_playlist; None]
     <> main (CPython.hash secret1) (u "2026-01-01T00:00:00") [Some sample_playlist; None].
Proof.
  split; intros H; vm_compute in H; discriminate H.
Qed.

(** C2 (amended).  Whatever the interpreter's hash and the time of the run,
    the same input gives the same files in the same order, each with the same
    category, the same items in the same order and the same index entries in
    the same order: two runs differ at most in the ids of the items, which are
    [generate_id] of the run's hash at the item's name and URL, and in
    [generatedAt] of [index.json], which is the time of the run. *)
Theorem reruns_differ_only_in_ids_and_timestamp
    (hash1 hash2 : str -> Z) (now1 now2 : str) (files : list (option str)) :
  skeleton (main hash1 now1 files) = skeleton (main hash2 now2 files)
  /\ (forall m, m ∈ written_items (main hash1 now1 files) ->
        id m = generate_id hash1 (name m) (url m))
  /\ (exists category_index,
        last (main hash1 now1 files)
        = Some (u "index.json", index_document now1 category_index)).
Proof.
  split_and!.
  - apply main_skeleton_eq.
  - apply written_items_id.
  - destruct (main_index hash1 now1 files) as (idx & H & _). by exists idx.
Qed.

(** ** The lexer *)

(** C9.  A URL line whose lower-cased form ends in [.ts] adds no item in any
    state of the lexer; when a name is pending it resets the pending name,
    category and logo; the metadata line that follows it starts an entry
    that owes nothing to what came before; and no item the parser returns
    has a URL of that form, so such a line is never classified. *)
Theorem ts_line_is_dropped (hash : str -> Z) (st : pending) (items : list parsed)
    (line : str) :
  url_line line -> ts_line line ->
  (lex_line hash (st, items) line).2 = items
  /\ (truthy (current_name st) = true ->
      lex_line hash (st, items) line = (no_pending, items))
  /\ (forall next, metadata_line next ->
        (lex_line hash (lex_line hash (st, items) line) next).1
        = (lex_line hash (no_pending, items) next).1
        /\ (lex_line hash (lex_line hash (st, items) line) next).2 = items)
  /\ (forall content p, p ∈ parse_m3u8_file hash content ->
        endswith (lower (url (fields p))) (u ".ts") = false).
Proof.
  intros Hu Ht. split_and!.
  - by apply lex_ts_line_no_item.
  - intros Hn. by apply lex_ts_line.
  - intros next Hm.
    pose proof (lex_ts_line_no_item hash st items line Hu Ht) as Hitems.
    destruct (lex_line hash (st, items) line) as [st' items']. cbn [snd] in Hitems. subst.
    by apply lex_metadata_line.
  - intros content p Hp.
    pose proof (parse_m3u8_file_passed hash content) as Hall.
    rewrite Forall_forall in Hall.
    by destruct (Hall p Hp) as (n & l & c & x & -> & _ & Hts).
Qed.

(** A pending entry named [Live] followed by [http://h/live.TS]. *)
Lemma ts_line_is_dropped_witness :
  lex_line (CPython.hash secret0)
    ({| current_name := Some (u "Live"); current_category := Some (u "Canais");
        current_logo := None |}, [])
    (u "http://h/live.TS")
  = (no_pending, []).
Proof.
  apply (ts_line_is_dropped (CPython.hash secret0)
           {| current_name := Some (u "Live"); current_category := Some (u "Canais");
              current_logo := None |} [] (u "http://h/live.TS"));
    by vm_compute.
Defined.

(** C8.  [should_ignore_category] holds exactly of the categories that equal
    an entry of the ignore list, equal it up to case, or start with it up to
    case.  A URL line whose pending category is ignored adds no item and
    resets the pending state; every item of every file written comes from an
    entry whose category is not ignored, and the counts of the index add up
    to the number of items written.  The category [⏺️ GLOBO] is ignored. *)
Theorem ignored_categories_are_discarded :
  (forall category,
      should_ignore_category category = true <->
      exists ignored, ignored ∈ IGNORED_CATEGORIES
        /\ (category = ignored
            \/ upper category = upper ignored
            \/ startswith (upper category) (upper ignored) = true))
  /\ (forall hash st items line,
        url_line line -> truthy (current_name st) = true ->
        should_ignore_category (pending_category st) = true ->
        lex_line hash (st, items) line = (no_pending, items))
  /\ (forall hash now files m,
        m ∈ written_items (main hash now files) ->
        exists name logo category url,
          m = fields (build_item hash name logo category url)
          /\ should_ignore_category category = false)
  /\ (forall hash now files,
        exists category_index,
          last (main hash now files)
          = Some (u "index.json", index_document now category_index)
          /\ (sum (map movieCount category_index) + sum (map seriesCount category_index)
              + sum (map adultCount category_index)
              = length (written_items (main hash now files)))%nat)
  /\ should_ignore_category (u "⏺️ GLOBO") = true
  /\ (forall hash,
        parse_m3u8_file hash (text [extinf "⏺️ GLOBO" "Globo HD"; u "http://h/globo"]) = [])
  /\ should_ignore_category (u "⏺️ ſbt ao vivo") = true.
Proof.
  split_and!.
  - apply should_ignore_category_spec.
  - intros hash st items line. apply lex_ignored_line.
  - intros hash now files m (p & (n & l & c & x & -> & Hi & _) & ->)%written_items_passed.
    by exists n, l, c, x.
  - apply main_index.
  - by vm_compute.
  - intros hash. by vm_compute.
  - by vm_compute.
Qed.

(** The entry [Globo HD] of the category [⏺️ GLOBO]. *)
Lemma ignored_categories_are_discarded_witness :
  lex_line (CPython.hash secret0)
    ({| current_name := Some (u "Globo HD"); current_category := Some (u "⏺️ GLOBO");
        current_logo := None |}, [])
    (u "http://h/globo")
  = (no_pending, []).
Proof.
  destruct ignored_categories_are_discarded as (_ & Hline & _).
  apply Hline; by vm_compute.
Defined.

(** ** Partitioning *)

Lemma page_file_names :
  u "_p" ++ str_of_nat 1 ++ u ".json" = u "_p1.json"
  /\ u "_p" ++ str_of_nat 2 ++ u ".json" = u "_p2.json"
  /\ u "_p" ++ str_of_nat 3 ++ u ".json" = u "_p3.json".
Proof. split_and!; by vm_compute. Qed.

(** C5.  A category of at most 5000 items (movies, series and adult items
    together) is written as one document with all its movies and series.
    A larger one has its series cut into consecutive pages of 5000, the last
    one possibly shorter, each written with its page number counted from 1
    and with [totalPages], the larger of the numbers of series pages and of
    movie pages.  With 12000 series (and no more than 15000 movies) these are
    three files of 5000, 5000 and 2000 series, each with [totalPages] 3. *)
Theorem category_pagination (category : str) (items : list item) :
  let movies := movies_of items in
  let series := series_of items in
  let series_pages := pages_of MAX_ITEMS_PER_FILE series in
  let movies_pages := pages_of MAX_ITEMS_PER_FILE movies in
  let totalPages := Nat.max (length series_pages) (length movies_pages) in
  let written := (process_category category items).1 in
  ((total_items items <= MAX_ITEMS_PER_FILE)%nat ->
     written =
     (category_to_filename category ++ u ".json", CategoryDoc category movies series)
       :: adult_writes category items)
  /\ ((MAX_ITEMS_PER_FILE < total_items items)%nat ->
      written =
      imap (page_write category totalPages) series_pages
        ++ movies_writes category items ++ adult_writes category items)
  /\ concat series_pages = series
  /\ (forall i page, series_pages !! i = Some page ->
        page = take MAX_ITEMS_PER_FILE (drop (i * MAX_ITEMS_PER_FILE) series)
        /\ (0 < length page <= MAX_ITEMS_PER_FILE)%nat
        /\ (S i < length series_pages -> length page = MAX_ITEMS_PER_FILE)%nat)
  /\ (Z.of_nat (length series) = 12000 -> Z.of_nat (length movies) <= 15000 ->
      exists p1 p2 p3,
        written =
        [ (category_to_filename category ++ u "_p1.json", PageDoc category 1 3 [] p1);
          (category_to_filename category ++ u "_p2.json", PageDoc category 2 3 [] p2);
          (category_to_filename category ++ u "_p3.json", PageDoc category 3 3 [] p3) ]
          ++ movies_writes category items ++ adult_writes category items
        /\ map (fun p => Z.of_nat (length p)) [p1; p2; p3] = [5000; 5000; 2000]
        /\ p1 ++ p2 ++ p3 = series).
Proof.
  cbv zeta. split_and!.
  - intros H. by rewrite (process_category_small _ _ H).
  - intros H. by rewrite (process_category_large _ _ H).
  - apply concat_pages_of, MAX_ITEMS_PER_FILE_pos.
  - intros i page H.
    destruct (pages_of_lookup _ _ _ _ MAX_ITEMS_PER_FILE_pos H) as [Hp _].
    destruct (pages_of_page_length _ _ _ _ MAX_ITEMS_PER_FILE_pos H) as [Hl Hf].
    done.
  - intros Hs Hm.
    assert (Hlarge : (MAX_ITEMS_PER_FILE < total_items items)%nat)
      by (unfold total_items, MAX_ITEMS_PER_FILE; lia).
    rewrite (process_category_large _ _ Hlarge). cbn [fst].
    pose proof (concat_pages_of _ (series_of items) MAX_ITEMS_PER_FILE_pos) as Hcat.
    pose proof (pages_of_length MAX_ITEMS_PER_FILE (series_of items)) as Hlen.
    pose proof (pages_of_length MAX_ITEMS_PER_FILE (movies_of items)) as Hlenm.
    pose proof (fun i page => pages_of_lookup MAX_ITEMS_PER_FILE (series_of items) i page
                                MAX_ITEMS_PER_FILE_pos) as Hpage.
    assert (Hthree : ((length (series_of items) + MAX_ITEMS_PER_FILE - 1)
                        / MAX_ITEMS_PER_FILE = 3)%nat).
    { replace (length (series_of items)) with (Z.to_nat 12000) by lia. by vm_compute. }
    assert (Hmp : ((length (movies_of items) + MAX_ITEMS_PER_FILE - 1)
                     / MAX_ITEMS_PER_FILE < 4)%nat).
    { apply Nat.Div0.div_lt_upper_bound; unfold MAX_ITEMS_PER_FILE; lia. }
    rewrite Hthree in Hlen.
    destruct (pages_of MAX_ITEMS_PER_FILE (series_of items))
      as [|p1 [|p2 [|p3 [|p4 ps]]]]; try discriminate Hlen.
    destruct (Hpage 0%nat p1 eq_refl) as [H1 _].
    destruct (Hpage 1%nat p2 eq_refl) as [H2 _].
    destruct (Hpage 2%nat p3 eq_refl) as [H3 _].
    exists p1, p2, p3. split_and!.
    + cbn [length imap app]. replace (Nat.max 3 _) with 3%nat by lia.
      unfold page_write, compose.
      destruct page_file_names as (-> & -> & ->). done.
    + rewrite H1, H2, H3. cbn [map]. rewrite !length_take, !length_drop.
      unfold MAX_ITEMS_PER_FILE. repeat f_equal; lia.
    + cbn [concat] in Hcat. by rewrite app_nil_r in Hcat.
Qed.

(** A category of 12000 series. *)
Lemma category_pagination_witness :
  map (fun w => Z.of_nat (length (doc_series w.2)))
    (process_category (u "Drama") (sample_items series 12 0)).1
  = [5000; 5000; 2000].
Proof.
  destruct (category_pagination (u "Drama") (sample_items series 12 0))
    as (_ & _ & _ & _ & H).
  destruct H as (p1 & p2 & p3 & -> & Hlen & _); [by vm_compute|by vm_compute|].
  replace (movies_writes (u "Drama") (sample_items series 12 0)) with (@nil write)
    by (by vm_compute).
  replace (adult_writes (u "Drama") (sample_items series 12 0)) with (@nil write)
    by (by vm_compute).
  exact Hlen.
Defined.

(** C10.  A category of more than 5000 items without any series that is not
    adult gets no [<slug>.json] and no page file: only the movies file when
    it has movies and the adult file when it has adult items are written,
    while its index entry gives [pages] as 1. *)
Theorem overflowing_category_without_series (category : str) (items : list item) :
  (MAX_ITEMS_PER_FILE < total_items items)%nat ->
  series_of items = [] ->
  (process_category category items).1
    = movies_writes category items ++ adult_writes category items
  /\ pages (process_category category items).2 = Some 1%nat
  /\ (forall w, w ∈ (process_category category items).1 ->
        w.1 <> category_to_filename category ++ u ".json"
        /\ (forall n, w.1 <> category_to_filename category ++ u "_p" ++ str_of_nat n ++ u ".json")
        /\ (forall c page total ms ss, w.2 <> PageDoc c page total ms ss)).
Proof.
  intros Hlarge Hnone.
  assert (Hw : (process_category category items).1
               = movies_writes category items ++ adult_writes category items).
  { rewrite (process_category_large _ _ Hlarge). cbn [fst].
    by rewrite Hnone, pages_of_nil. }
  split_and!; [done| |].
  - rewrite (process_category_large _ _ Hlarge). cbn [snd pages].
    by rewrite Hnone, pages_of_nil.
  - intros w. rewrite Hw. unfold movies_writes, adult_writes.
    intros [Hin|Hin]%elem_of_app.
    + destruct (movies_of items); [by apply elem_of_nil in Hin|].
      apply list_elem_of_singleton in Hin as ->. cbn [fst snd]. split_and!; [| |done].
      * intros H%app_inv_head. by vm_compute in H.
      * intros n H%app_inv_head.
        change (u "_movies.json") with (95 :: 109 :: u "ovies.json") in H.
        change (u "_p") with [95; 112] in H. cbn [app] in H. by injection H.
    + destruct (adult_of items); [by apply elem_of_nil in Hin|].
      apply list_elem_of_singleton in Hin as ->. cbn [fst snd]. split_and!; [| |done].
      * intros H%app_inv_head. by vm_compute in H.
      * intros n H%app_inv_head.
        change (u "_adult.json") with (95 :: 97 :: u "dult.json") in H.
        change (u "_p") with [95; 112] in H. cbn [app] in H. by injection H.
Qed.

(** A category of 5001 movies. *)
Lemma overflowing_category_without_series_witness :
  (process_category (u "Filmes") (sample_items movie 5 1)).1
    = movies_writes (u "Filmes") (sample_items movie 5 1)
  /\ pages (process_category (u "Filmes") (sample_items movie 5 1)).2 = Some 1%nat.
Proof.
  destruct (overflowing_category_without_series (u "Filmes") (sample_items movie 5 1))
    as (Hw & Hp & _).
  - apply Nat.ltb_lt. by vm_compute.
  - by vm_compute.
  - split; [|exact Hp]. rewrite Hw.
    replace (adult_writes (u "Filmes") (sample_items movie 5 1)) with (@nil write)
      by (by vm_compute).
    apply app_nil_r.
Defined.

(** ** Adult content *)

Lemma NoDup_concat_same {A} (ls : list (list A)) i j l1 l2 x :
  NoDup (concat ls) -> ls !! i = Some l1 -> ls !! j = Some l2 ->
  x ∈ l1 -> x ∈ l2 -> i = j.
Proof.
  revert i j. induction ls as [|l ls IH]; intros i j Hnd Hi Hj H1 H2; [done|].
  cbn [concat] in Hnd. apply NoDup_app in Hnd as (_ & Hdisj & Hnd).
  assert (Hin : forall k l', ls !! k = Some l' -> x ∈ l' -> x ∈ concat ls).
  { intros k l' Hk Hx. apply list_elem_of_In, in_concat. exists l'.
    split; apply list_elem_of_In; [by eapply list_elem_of_lookup_2|done]. }
  destruct i as [|i], j as [|j]; cbn in Hi, Hj.
  - done.
  - injection Hi as <-. destruct (Hdisj x H1). by eapply Hin.
  - injection Hj as <-. destruct (Hdisj x H2). by eapply Hin.
  - f_equal. by eapply IH.
Qed.

Lemma written_items_NoDup hash now files :
  NoDup (written_items (main hash now files)).
Proof. eapply NoDup_fmap_1, main_urls_NoDup. Qed.

Lemma written_once hash now files (w w' : write) m :
  w ∈ main hash now files -> w' ∈ main hash now files ->
  m ∈ doc_items w.2 -> m ∈ doc_items w'.2 -> w = w'.
Proof.
  intros [i Hi]%list_elem_of_lookup_1 [j Hj]%list_elem_of_lookup_1 Hm Hm'.
  assert (i = j) as ->; [|congruence].
  apply (NoDup_concat_same ((fun w : write => doc_items w.2) <$> main hash now files)
           i j (doc_items w.2) (doc_items w'.2) m); [| | |done..].
  - exact (written_items_NoDup hash now files).
  - by rewrite list_lookup_fmap, Hi.
  - by rewrite list_lookup_fmap, Hj.
Qed.

Lemma main_not_adult hash now files (w : write) m :
  w ∈ main hash now files -> m ∈ doc_movies w.2 ++ doc_series w.2 -> isAdult m = false.
Proof.
  intros [Hw| ->]%elem_of_main Hm.
  - apply elem_of_category_writes in Hw as (c & items & _ & Hw).
    by eapply process_category_not_adult.
  - by apply elem_of_nil in Hm.
Qed.

(** C7.  An entry has [isAdult] set exactly when its original name, a space
    and its category contain an adult keyword, as when the name contains
    [XXX].  A retained item with the flag is written into the [items] of the
    [_adult.json] file of its category and into no other file, and into no
    [movies] or [series] list.  The adult items, the other movies and the
    other series of a category are pairwise disjoint and make up its items. *)
Theorem adult_items_go_to_the_side_file :
  (forall hash name logo category url,
      isAdult (fields (build_item hash name logo category url))
      = is_adult_content name category)
  /\ (forall name category,
        is_adult_content name category = true <->
        exists keyword, keyword ∈ ADULT_KEYWORDS
          /\ contains (name ++ u " " ++ category) keyword = true)
  /\ (forall name category,
        contains name (u "XXX") = true -> is_adult_content name category = true)
  /\ (forall hash now files p,
        p ∈ unique_items (parse_all hash files) -> isAdult (fields p) = true ->
        exists adult,
          let side := (category_to_filename (_category p) ++ u "_adult.json",
                       AdultDoc (_category p) adult) in
          side ∈ main hash now files
          /\ fields p ∈ adult
          /\ (forall w, w ∈ main hash now files ->
                (fields p ∈ doc_items w.2 -> w = side)
                /\ fields p ∉ doc_movies w.2 /\ fields p ∉ doc_series w.2))
  /\ (forall items,
        movies_of items ++ series_of items ++ adult_of items ≡ₚ items
        /\ (forall m, ~ (m ∈ movies_of items /\ m ∈ series_of items))
        /\ (forall m, ~ (m ∈ movies_of items /\ m ∈ adult_of items))
        /\ (forall m, ~ (m ∈ series_of items /\ m ∈ adult_of items))).
Proof.
  split_and!.
  - done.
  - apply is_adult_content_spec.
  - intros name category H. apply (adult_keyword_in_name _ _ (u "XXX")); [|done].
    apply list_elem_of_In. vm_compute. tauto.
  - intros hash now files p Hp Ha.
    destruct (group_by_category_elem _ _ Hp) as (items & Hg & Hin).
    destruct (process_category_adult (_category p) items (fields p) Hin Ha) as [Hside Hadult].
    exists (adult_of items). cbv zeta.
    assert (Hmain : (category_to_filename (_category p) ++ u "_adult.json",
                     AdultDoc (_category p) (adult_of items)) ∈ main hash now files).
    { apply elem_of_main. left. apply elem_of_category_writes. by exists (_category p), items. }
    split_and!; [done|done|]. intros w Hw. split_and!.
    + intros Hm. by apply (written_once hash now files _ _ (fields p)).
    + intros Hm. assert (isAdult (fields p) = false); [|congruence].
      apply (main_not_adult hash now files w); [done|]. apply elem_of_app. by left.
    + intros Hm. assert (isAdult (fields p) = false); [|congruence].
      apply (main_not_adult hash now files w); [done|]. apply elem_of_app. by right.
  - intros items. split_and!.
    + apply sublists_partition.
    + intros m [(_ & H1 & _)%elem_of_movies_of (_ & H2 & _)%elem_of_series_of]. congruence.
    + intros m [(_ & _ & H1)%elem_of_movies_of (_ & H2)%elem_of_adult_of]. congruence.
    + intros m [(_ & _ & H1)%elem_of_series_of (_ & H2)%elem_of_adult_of]. congruence.
Qed.

(** The entry [Hot XXX] of the sample playlist, filed under [Terror]. *)
Lemma adult_items_go_to_the_side_file_witness :
  exists adult,
    (u "terror_adult.json", AdultDoc (u "Terror") adult)
      ∈ main (CPython.hash secret0) (u "2026-01-01T00:00:00") [Some sample_playlist; None]
    /\ fields (build_item (CPython.hash secret0) (u "Hot XXX") None (u "OND / Terror")
                 (u "http://h/hot.mp4")) ∈ adult.
Proof.
  destruct adult_items_go_to_the_side_file as (_ & _ & _ & H & _).
  destruct (H (CPython.hash secret0) (u "2026-01-01T00:00:00") [Some sample_playlist; None]
              (build_item (CPython.hash secret0) (u "Hot XXX") None (u "OND / Terror")
                 (u "http://h/hot.mp4")))
    as (adult & Hside & Hin & _).
  - apply list_elem_of_In. vm_compute. tauto.
  - by vm_compute.
  - exists adult. split; [|exact Hin].
    replace (u "terror_adult.json")
      with (category_to_filename
              (_category (build_item (CPython.hash secret0) (u "Hot XXX") None
                            (u "OND / Terror") (u "http://h/hot.mp4")))
            ++ u "_adult.json") by (by vm_compute).
    exact Hside.
Defined.

(** * Further properties *)

(** ** Order of the index, groups and deduplication *)

(** *** A stable sort *)

Lemma insert_by_total_sorted c l :
  StronglySorted at_least l -> StronglySorted at_least (insert_by_total c l).
Proof.
  induction 1 as [|d l Hl IH Hd]; cbn [insert_by_total].
  - repeat constructor.
  - destruct (Nat.ltb_spec (totalCount d) (totalCount c)) as [Hlt|Hge].
    + constructor; [by constructor|]. constructor; [unfold at_least; lia|].
      eapply Forall_impl; [exact Hd|]. unfold at_least. intros e He. lia.
    + constructor; [done|].
      rewrite (insert_by_total_perm c l). constructor; [exact Hge|done].
Qed.

Lemma insert_by_total_filter n c l :
  StronglySorted at_least l ->
  List.filter (has_total n) (insert_by_total c l)
  = List.filter (has_total n) l ++ (if has_total n c then [c] else []).
Proof.
  induction 1 as [|d l Hl IH Hd]; cbn [insert_by_total]; [by cbn; destruct (has_total n c)|].
  destruct (Nat.ltb_spec (totalCount d) (totalCount c)) as [Hlt|Hge].
  - cbn [List.filter]. destruct (has_total n c) eqn:Hc; [|by rewrite app_nil_r].
    unfold has_total in *. apply Nat.eqb_eq in Hc.
    replace (totalCount d =? n)%nat with false by (symmetry; apply Nat.eqb_neq; lia).
    assert (Hnone : List.filter (fun e => (totalCount e =? n)%nat) l = []).
    { clear IH Hl. induction Hd as [|e l He _ IHl]; [done|]. cbn.
      unfold at_least in He.
      replace (totalCount e =? n)%nat with false by (symmetry; apply Nat.eqb_neq; lia).
      done. }
    by rewrite Hnone.
  - cbn [List.filter]. rewrite IH. by destruct (has_total n d).
Qed.

Lemma sort_by_total_snoc l c :
  sort_by_total (l ++ [c]) = insert_by_total c (sort_by_total l).
Proof. unfold sort_by_total. by rewrite fold_left_app. Qed.

Lemma sort_by_total_sorted l : StronglySorted at_least (sort_by_total l).
Proof.
  induction l as [|c l IH] using rev_ind; [constructor|].
  rewrite sort_by_total_snoc. by apply insert_by_total_sorted.
Qed.

Lemma sort_by_total_stable n l :
  List.filter (has_total n) (sort_by_total l) = List.filter (has_total n) l.
Proof.
  induction l as [|c l IH] using rev_ind; [done|].
  rewrite sort_by_total_snoc, insert_by_total_filter by apply sort_by_total_sorted.
  by rewrite IH, List.filter_app.
Qed.

(** X1. Sorting the index (the [sort] call with [reverse=True] at the end of
    [main]) rearranges the entries without adding or dropping any, leaves them
    in descending order of [totalCount], and keeps entries with equal totals
    in the order in which they were listed. *)
Theorem index_is_sorted_and_stable (category_index : list index_entry) :
  sort_by_total category_index ≡ₚ category_index
  /\ StronglySorted at_least (sort_by_total category_index)
  /\ (forall n, List.filter (has_total n) (sort_by_total category_index)
                = List.filter (has_total n) category_index).
Proof.
  split_and!; [apply sort_by_total_perm|apply sort_by_total_sorted|].
  intros n. apply sort_by_total_stable.
Qed.

(** *** Groups and their keys *)

Lemma group_of_setdefault_append d c m c' :
  group_of (setdefault_append d c m) c'
  = group_of d c' ++ (if decide (c = c') then [m] else []).
Proof.
  induction d as [|[c0 items] d IH]; cbn [setdefault_append group_of].
  - by repeat case_decide.
  - destruct (decide (c0 = c)) as [->|Hne]; cbn [group_of].
    + destruct (decide (c = c')); [done|by rewrite app_nil_r].
    + destruct (decide (c0 = c')) as [->|]; [|done].
      rewrite decide_False by congruence. by rewrite app_nil_r.
Qed.

Lemma keys_setdefault_append d c m :
  map fst (setdefault_append d c m)
  = map fst d ++ (if decide (c ∈ map fst d) then [] else [c]).
Proof.
  induction d as [|[c0 items] d IH]; cbn [setdefault_append map fst].
  - rewrite decide_False; [done|]. by intros ?%elem_of_nil.
  - destruct (decide (c0 = c)) as [->|Hne]; cbn [map fst].
    + rewrite decide_True by (by left). by rewrite app_nil_r.
    + rewrite IH. cbn [app]. f_equal. f_equal.
      destruct (decide (c ∈ map fst d)) as [Hin|Hnin].
      * rewrite decide_True; [done|]. by right.
      * rewrite decide_False; [done|]. intros [?|?]%elem_of_cons; congruence.
Qed.

Lemma group_of_group_by_category l c :
  group_of (group_by_category l) c
  = map fields (List.filter (fun p => bool_decide (_category p = c)) l).
Proof.
  induction l as [|p l IH] using rev_ind; [done|].
  rewrite group_by_category_snoc, group_of_setdefault_append, IH, List.filter_app, map_app.
  f_equal. cbn. by case_decide; [rewrite bool_decide_eq_true_2|rewrite bool_decide_eq_false_2].
Qed.

Lemma keys_group_by_category l c :
  c ∈ map fst (group_by_category l) <-> c ∈ map _category l.
Proof.
  revert c. induction l as [|p l IH] using rev_ind; intros c; [done|].
  rewrite group_by_category_snoc, keys_setdefault_append, map_app, !elem_of_app, IH.
  cbn. rewrite list_elem_of_singleton. case_decide as Hd.
  - rewrite IH in Hd. rewrite elem_of_nil. split; [tauto|]. intros [H|H]; [by left|subst; by left].
  - rewrite list_elem_of_singleton. done.
Qed.

Lemma keys_group_by_category_snoc l p :
  map fst (group_by_category (l ++ [p]))
  = map fst (group_by_category l)
    ++ (if decide (_category p ∈ map _category l) then [] else [_category p]).
Proof.
  rewrite group_by_category_snoc, keys_setdefault_append.
  f_equal. pose proof (keys_group_by_category l (_category p)) as H.
  repeat case_decide; tauto.
Qed.

Lemma keys_group_by_category_NoDup l : NoDup (map fst (group_by_category l)).
Proof.
  induction l as [|p l IH] using rev_ind; [constructor|].
  rewrite keys_group_by_category_snoc. case_decide as Hd; [by rewrite app_nil_r|].
  apply NoDup_app. split_and!; [done| |apply NoDup_singleton].
  intros c Hc ->%list_elem_of_singleton. by apply keys_group_by_category in Hc.
Qed.

Lemma group_of_elem d c items :
  NoDup (map fst d) -> (c, items) ∈ d -> group_of d c = items.
Proof.
  induction d as [|[c0 items0] d IH]; [by intros _ ?%elem_of_nil|].
  cbn [map fst group_of]. intros [Hnin Hnd]%NoDup_cons [Heq|Hin]%elem_of_cons.
  - injection Heq as -> ->. by rewrite decide_True.
  - rewrite decide_False; [by apply IH|]. intros ->. apply Hnin.
    apply list_elem_of_fmap. by exists (c, items).
Qed.

(** X2. Grouping by category: every category of the unique items has exactly
    one group; a group holds the items of its category, in input order, and is
    never empty; the groups are ordered by the first item of each category:
    one more item adds a group, at the end, only when its category is new. *)
Theorem groups_keep_input_order (unique_items : list parsed) :
  NoDup (map fst (group_by_category unique_items))
  /\ (forall c, c ∈ map fst (group_by_category unique_items)
                <-> c ∈ map _category unique_items)
  /\ (forall c items, (c, items) ∈ group_by_category unique_items ->
        items = map fields
                  (List.filter (fun p => bool_decide (_category p = c)) unique_items)
        /\ items <> [])
  /\ (forall p,
        map fst (group_by_category (unique_items ++ [p]))
        = map fst (group_by_category unique_items)
          ++ (if decide (_category p ∈ map _category unique_items)
              then [] else [_category p])).
Proof.
  split_and!.
  - apply keys_group_by_category_NoDup.
  - apply keys_group_by_category.
  - intros c items Hin.
    pose proof (group_of_elem _ _ _ (keys_group_by_category_NoDup unique_items) Hin) as Hg.
    rewrite group_of_group_by_category in Hg. split; [done|].
    assert (Hc : c ∈ map _category unique_items).
    { apply keys_group_by_category, list_elem_of_fmap. by exists (c, items). }
    apply list_elem_of_fmap in Hc as (p & -> & Hp). rewrite <- Hg.
    intros Hnil. assert (Hf : fields p ∈ @nil item); [|by apply elem_of_nil in Hf].
    rewrite <- Hnil. apply list_elem_of_fmap. exists p. split; [done|].
    apply list_elem_of_In, filter_In. split; [by apply list_elem_of_In|].
    by apply bool_decide_eq_true_2.
  - apply keys_group_by_category_snoc.
Qed.

(** *** Deduplication of a concatenation *)

Lemma unique_items_app l1 l2 :
  unique_items (l1 ++ l2)
  = unique_items l1
    ++ List.filter (fun p => negb (bool_decide (url (fields p) ∈ urls l1))) (unique_items l2).
Proof.
  induction l2 as [|m l2 IH] using rev_ind.
  - rewrite app_nil_r. change (unique_items []) with (@nil parsed).
    cbn [List.filter]. by rewrite app_nil_r.
  - rewrite app_assoc, !unique_items_snoc, IH, List.filter_app, <- app_assoc. f_equal. f_equal.
    assert (Hsplit : url (fields m) ∈ urls (l1 ++ l2)
                     <-> url (fields m) ∈ urls l1 \/ url (fields m) ∈ urls l2).
    { unfold urls. by rewrite map_app, elem_of_app. }
    destruct (decide (url (fields m) ∈ urls l2)) as [H2|H2].
    + rewrite decide_True by tauto. done.
    + destruct (decide (url (fields m) ∈ urls l1)) as [H1|H1].
      * rewrite decide_True by tauto. cbn [List.filter].
        by rewrite bool_decide_eq_true_2.
      * rewrite decide_False by tauto. cbn [List.filter].
        by rewrite bool_decide_eq_false_2.
Qed.

Lemma unique_items_id l : NoDup (urls l) -> unique_items l = l.
Proof.
  induction l as [|m l IH] using rev_ind; [done|].
  unfold urls. rewrite map_app. fold (urls l). cbn.
  intros (Hnd & Hdisj & _)%NoDup_app.
  rewrite unique_items_snoc, IH by done.
  rewrite decide_False; [done|]. intros Hin. apply (Hdisj _ Hin). by left.
Qed.

(** X3. Deduplication by URL composes: the unique items of two inputs read
    one after the other are the unique items of the first, followed by those
    unique items of the second whose URL the first does not hold;
    deduplicating twice changes nothing; a list without repeated URL is
    returned as it is, with no duplicate counted. *)
Theorem dedup_composes (l1 l2 : list parsed) :
  unique_items (l1 ++ l2)
  = unique_items l1
    ++ List.filter (fun p => negb (bool_decide (url (fields p) ∈ urls l1))) (unique_items l2)
  /\ unique_items (unique_items l1) = unique_items l1
  /\ (NoDup (urls l1) -> unique_items l1 = l1 /\ duplicates l1 = 0%nat).
Proof.
  split_and!.
  - apply unique_items_app.
  - apply unique_items_id, unique_items_NoDup.
  - intros H. pose proof (unique_items_id l1 H) as Hid. split; [done|].
    pose proof (duplicates_count l1) as Hc. rewrite Hid in Hc. lia.
Qed.

(** ** Index entries and the parser's output *)

(** *** The index entry of a category and its files *)

Lemma concat_imap_pages {B} (f : document -> list B) category total (ps : list (list item))
    (g : list item -> list B) :
  (forall i p, f (page_write category total i p).2 = g p) ->
  concat (map (fun w : write => f w.2) (imap (page_write category total) ps))
  = concat (map g ps).
Proof.
  intros Hf. generalize (page_write category total) Hf. clear Hf.
  induction ps as [|p ps IH]; intros h Hh; [done|].
  cbn [imap map concat]. rewrite (Hh 0%nat p). f_equal.
  apply IH. intros i q. apply Hh.
Qed.

Lemma concat_map_nil {A B} (l : list A) : concat (map (fun _ => @nil B) l) = [].
Proof. induction l; [done|]. done. Qed.

Lemma adult_writes_lists category items :
  written_movies (adult_writes category items) = []
  /\ written_series (adult_writes category items) = []
  /\ written_adult (adult_writes category items) = adult_of items.
Proof.
  unfold written_movies, written_series, written_adult, adult_writes.
  destruct (adult_of items); [done|]. cbn. by rewrite app_nil_r.
Qed.

Lemma movies_writes_lists category items :
  written_movies (movies_writes category items) = movies_of items
  /\ written_series (movies_writes category items) = []
  /\ written_adult (movies_writes category items) = [].
Proof.
  unfold written_movies, written_series, written_adult, movies_writes.
  destruct (movies_of items); [done|]. cbn. by rewrite app_nil_r.
Qed.

(** X4. The index entry of a category agrees with the files written for it:
    it carries the category's name and file name; the movies, series and adult
    items written are the three sub-lists of the category; the three counts
    are their lengths, and the total is their sum, the number of items of the
    category; every document written carries the category's name; [pages] is
    absent exactly when the category has at most [MAX_ITEMS_PER_FILE] items
    and, for a category with series, it is the number of page files. *)
Theorem index_entry_matches_files (category : str) (items : list item) :
  let written := (process_category category items).1 in
  let entry := (process_category category items).2 in
  ix_name entry = category
  /\ ix_id entry = category_to_filename category
  /\ written_movies written = movies_of items
  /\ written_series written = series_of items
  /\ written_adult written = adult_of items
  /\ movieCount entry = length (movies_of items)
  /\ seriesCount entry = length (series_of items)
  /\ adultCount entry = length (adult_of items)
  /\ totalCount entry = (movieCount entry + seriesCount entry + adultCount entry)%nat
  /\ totalCount entry = length items
  /\ (forall w, w ∈ written -> doc_category w.2 = Some category)
  /\ (pages entry = None <-> (length items <= MAX_ITEMS_PER_FILE)%nat)
  /\ (forall n, pages entry = Some n -> series_of items <> [] ->
        n = length (page_files written)).
Proof.
  cbv zeta.
  assert (Ht : total_items items = length items).
  { unfold total_items. rewrite <- (Permutation_length (sublists_partition items)), !length_app. lia. }
  destruct (adult_writes_lists category items) as (Ha1 & Ha2 & Ha3).
  destruct (movies_writes_lists category items) as (Hm1 & Hm2 & Hm3).
  assert (Hac : forall w, w ∈ adult_writes category items -> doc_category w.2 = Some category).
  { unfold adult_writes. destruct (adult_of items); [by intros w ?%elem_of_nil|].
    by intros w ->%list_elem_of_singleton. }
  assert (Hap : page_files (adult_writes category items) = []).
  { unfold adult_writes. by destruct (adult_of items). }
  assert (Happ : forall f ws1 ws2,
             concat (map (fun w : write => f w.2) (ws1 ++ ws2))
             = concat (map (fun w : write => f w.2) ws1)
               ++ concat (map (fun w : write => f w.2) ws2) :> list item).
  { intros f ws1 ws2. by rewrite map_app, concat_app. }
  destruct (Nat.le_gt_cases (total_items items) MAX_ITEMS_PER_FILE) as [Hle|Hgt].
  - rewrite (process_category_small _ _ Hle). cbn [fst snd ix_name ix_id movieCount
      seriesCount adultCount totalCount pages].
    change (?w :: adult_writes category items) with ([w] ++ adult_writes category items).
    unfold written_movies, written_series, written_adult in *.
    rewrite !Happ, Ha1, Ha2, Ha3. cbn [map concat snd doc_movies doc_series doc_adult].
    rewrite !app_nil_r. split_and!; try done.
    + intros w [->%list_elem_of_singleton|Hw]%elem_of_app; [done|by apply Hac].
    + split; [intros _; lia|done].
  - rewrite (process_category_large _ _ Hgt). cbn [fst snd ix_name ix_id movieCount
      seriesCount adultCount totalCount pages].
    unfold written_movies, written_series, written_adult in *.
    rewrite !Happ, Ha1, Ha2, Ha3, Hm1, Hm2, Hm3, !app_nil_r.
    rewrite (concat_imap_pages doc_movies _ _ _ (fun _ => [])) by done.
    rewrite (concat_imap_pages doc_series _ _ _ (fun p => p)) by done.
    rewrite (concat_imap_pages doc_adult _ _ _ (fun _ => [])) by done.
    rewrite !concat_map_nil, map_id, (concat_pages_of _ _ MAX_ITEMS_PER_FILE_pos).
    split_and!; try done.
    + intros w [Hw|[Hw|Hw]%elem_of_app]%elem_of_app.
      * by apply elem_of_lookup_imap in Hw as (i & p & -> & _).
      * unfold movies_writes in Hw. destruct (movies_of items); [by apply elem_of_nil in Hw|].
        by apply list_elem_of_singleton in Hw as ->.
      * by apply Hac.
    + split; [done|lia].
    + intros n [= <-] Hs. unfold page_files in *. rewrite !List.filter_app, Hap, app_nil_r.
      assert (Hmp : List.filter (fun w : write => is_page w.2) (movies_writes category items) = []).
      { unfold movies_writes. by destruct (movies_of items). }
      rewrite Hmp, app_nil_r.
      assert (Hall : forall (h : nat -> list item -> write) (ps : list (list item)),
                 (forall i p, is_page (h i p).2 = true) ->
                 List.filter (fun w : write => is_page w.2) (imap h ps) = imap h ps).
      { intros h ps. revert h. induction ps as [|p ps IH]; intros h Hh; [done|].
        cbn [imap List.filter]. rewrite Hh. f_equal. apply IH. intros i q. apply Hh. }
      rewrite Hall by done. rewrite length_imap.
      assert (0 < length (pages_of MAX_ITEMS_PER_FILE (series_of items)))%nat; [|lia].
      rewrite pages_of_length. destruct (series_of items) as [|x l]; [done|].
      cbn [length]. apply Nat.div_str_pos. unfold MAX_ITEMS_PER_FILE. lia.
Qed.

(** *** Items and metadata lines *)

Section lexer_facts.

Variable hash : str -> Z.

Lemma lex_lines_urls lines0 lines st items :
  (forall l, l ∈ lines -> l ∈ lines0) ->
  Forall (from_url_line lines0) items ->
  Forall (from_url_line lines0) (fold_left (lex_line hash) lines (st, items)).2.
Proof.
  revert st items. induction lines as [|line lines IH]; intros st items Hsub Hi; [done|].
  cbn [fold_left].
  assert (Hsub' : forall l, l ∈ lines -> l ∈ lines0) by (intros l Hl; apply Hsub; by right).
  destruct (lex_line_cases hash st items line) as [H|(name & Hn & Hu & Ht & Hg & H)].
  - destruct (lex_line hash (st, items) line) as [st' items']. cbn in H. subst. by apply IH.
  - rewrite H. apply IH; [done|]. apply Forall_app. split; [done|]. constructor; [|done].
    split; [exact Hu|]. cbn. apply list_elem_of_fmap. exists line. split; [done|].
    apply Hsub. by left.
Qed.

(** Items never outnumber the metadata lines read so far: a pending name
    stands for one metadata line not yet used. *)
Lemma lex_lines_count lines st items n :
  (length items + (if truthy (current_name st) then 1 else 0) <= n)%nat ->
  (length (fold_left (lex_line hash) lines (st, items)).2
   <= n + length (List.filter is_metadata lines))%nat.
Proof.
  revert st items n. induction lines as [|line lines IH]; intros st items n Hn.
  - cbn. destruct (truthy (current_name st)); lia.
  - cbn [fold_left List.filter]. unfold is_metadata at 1.
    destruct (startswith (strip line) (u "#EXTINF:")) eqn:Hm.
    + destruct (lex_metadata_line hash st st items line Hm) as [_ Hitems].
      destruct (lex_line hash (st, items) line) as [st' items'] eqn:Hl. cbn [snd] in Hitems.
      subst items'. cbn [length]. rewrite Nat.add_succ_r, <- Nat.add_succ_l.
      apply IH. destruct (truthy (current_name st')), (truthy (current_name st)); lia.
    + destruct (lex_line_cases hash st items line) as [H|(name & Hname & Hu & Ht & Hg & H)].
      * destruct (lex_line hash (st, items) line) as [st' items'] eqn:Hl. cbn [snd] in H.
        subst items'. apply IH.
        assert (Hst : truthy (current_name st') = true -> truthy (current_name st) = true).
        { revert Hl. unfold lex_line. rewrite Hm.
          destruct (_ && _); [|by intros Heq; inversion Heq; subst].
          destruct (endswith _ _); [by intros Heq; inversion Heq; subst|].
          destruct (should_ignore_category _); by intros Heq; inversion Heq; subst. }
        destruct (truthy (current_name st')); [rewrite Hst in Hn by done|]; lia.
      * rewrite H. apply IH. rewrite length_app. cbn.
        revert Hn. rewrite Hname.
        assert (Htr : truthy (Some name) = true).
        { revert H. unfold lex_line. rewrite Hm, Hu, Hname.
          destruct (truthy (Some name)); [done|]. cbn [andb].
          intros Heq. inversion Heq as [[Hst Hitems]]. apply (f_equal length) in Hitems.
          rewrite length_app in Hitems. cbn in Hitems. lia. }
        rewrite Htr. lia.
Qed.

End lexer_facts.

(** X5. The parser yields at most one item for each [#EXTINF] line: a
    playlist has no more items than it has such lines, and none when it has
    none. *)
Theorem one_item_per_metadata_line (hash : str -> Z) (content : str) :
  (length (parse_m3u8_file hash content)
   <= length (List.filter is_metadata (split newline content)))%nat
  /\ (List.filter is_metadata (split newline content) = [] ->
      parse_m3u8_file hash content = []).
Proof.
  assert (H : (length (parse_m3u8_file hash content)
               <= length (List.filter is_metadata (split newline content)))%nat).
  { apply (lex_lines_count hash _ no_pending [] 0%nat). cbn. lia. }
  split; [done|]. intros Hnone. rewrite Hnone in H.
  destruct (parse_m3u8_file hash content); [done|cbn in H; lia].
Qed.

(** ** URLs, names and the ignore list *)

(** *** Trimming *)

Lemma lstrip_head s : match lstrip s with c :: _ => isspace c = false | [] => True end.
Proof.
  induction s as [|c s IH]; [done|]. cbn [lstrip].
  destruct (isspace c) eqn:Hc; [done|]. done.
Qed.

Lemma lstrip_fixed c s : isspace c = false -> lstrip (c :: s) = c :: s.
Proof. intros H. cbn [lstrip]. by rewrite H. Qed.

Lemma lstrip_snoc l c :
  isspace c = false -> exists x, lstrip (l ++ [c]) = x ++ [c].
Proof.
  intros Hc. induction l as [|d l [x IH]]; cbn [app lstrip].
  - rewrite Hc. by exists [].
  - destruct (isspace d); [by exists x|]. by exists (d :: l).
Qed.

Lemma rstrip_head c s :
  isspace c = false -> exists x, rstrip (c :: s) = c :: x.
Proof.
  intros Hc. unfold rstrip. cbn [rev].
  destruct (lstrip_snoc (rev s) c Hc) as [x ->].
  exists (rev x). by rewrite rev_app_distr.
Qed.

Lemma lstrip_idem s : lstrip (lstrip s) = lstrip s.
Proof.
  pose proof (lstrip_head s) as H. destruct (lstrip s) as [|c t]; [done|].
  by apply lstrip_fixed.
Qed.

Lemma strip_idem s : strip (strip s) = strip s.
Proof.
  unfold strip.
  assert (H : lstrip (rstrip (lstrip s)) = rstrip (lstrip s)).
  { pose proof (lstrip_head s) as Hh. destruct (lstrip s) as [|c t]; [done|].
    destruct (rstrip_head c t Hh) as [x ->]. by apply lstrip_fixed. }
  rewrite H. unfold rstrip. by rewrite rev_involutive, lstrip_idem.
Qed.

Lemma clean_name_trimmed name : trimmed (clean_name name).
Proof. unfold trimmed, clean_name. apply strip_idem. Qed.

(** X6. The URL of every parsed item is a line of the playlist, stripped,
    that starts with [http]: it is not empty and has no white space at either
    end; neither has the item's name. *)
Theorem parsed_urls_are_url_lines (hash : str -> Z) (content : str) :
  Forall (fun p =>
            startswith (url (fields p)) (u "http") = true
            /\ url (fields p) ∈ map strip (split newline content)
            /\ url (fields p) <> []
            /\ trimmed (url (fields p))
            /\ trimmed (name (fields p)))
    (parse_m3u8_file hash content).
Proof.
  pose proof (lex_lines_urls hash (split newline content) (split newline content)
                no_pending [] (fun _ H => H) (List.Forall_nil _)) as Hu.
  pose proof (parse_m3u8_file_passed hash content) as Hp.
  unfold parse_m3u8_file.
  rewrite Forall_forall in Hu, Hp. apply Forall_forall. intros p Hin.
  destruct (Hu p Hin) as [Hs Hl]. split_and!; [done|done| | |].
  - intros Hnil. rewrite Hnil in Hs. by vm_compute in Hs.
  - apply list_elem_of_fmap in Hl as (line & -> & _). apply strip_idem.
  - destruct (Hp p Hin) as (n & l & c & x & -> & _). apply clean_name_trimmed.
Qed.

(** *** The ignore list is a list of prefixes *)

Lemma upper_app a b : upper (a ++ b) = upper a ++ upper b.
Proof. unfold upper. by rewrite map_app, concat_app. Qed.

Lemma startswith_refl s : startswith s s = true.
Proof. induction s as [|c s IH]; [done|]. cbn. by rewrite Z.eqb_refl. Qed.

(** X7. [should_ignore_category] is a prefix test on upper-cased text: of its
    three tests only [startswith] decides, so a category is ignored exactly
    when its upper-cased form starts with an upper-cased entry of the list; an
    ignored category stays ignored whatever is appended to it; and two
    categories with the same upper-cased form are treated alike. *)
Theorem ignore_list_is_prefix_closed (category : str) :
  should_ignore_category category = existsb (ignored_prefix category) IGNORED_CATEGORIES
  /\ (should_ignore_category category = true ->
      forall rest, should_ignore_category (category ++ rest) = true)
  /\ (forall other, upper other = upper category ->
        should_ignore_category other = should_ignore_category category).
Proof.
  assert (H : forall c,
             should_ignore_category c = existsb (ignored_prefix c) IGNORED_CATEGORIES).
  { intros c. unfold should_ignore_category, ignored_prefix.
    induction IGNORED_CATEGORIES as [|ig l IH]; [done|]. cbn [existsb]. rewrite IH. f_equal.
    destruct (startswith (upper c) (upper ig)) eqn:Hs; [done|]. cbn [orb].
    destruct (bool_decide_reflect (upper c = upper ig)) as [Heq|Hne].
    - rewrite Heq, startswith_refl in Hs. done.
    - cbn [orb]. apply bool_decide_eq_false_2. intros ->. done. }
  split_and!.
  - apply H.
  - rewrite !H. intros Hex rest. apply existsb_exists in Hex as (ig & Hin & Hp).
    unfold ignored_prefix in *.
    rewrite H. apply existsb_exists. exists ig. split; [done|].
    rewrite upper_app. by apply startswith_app.
  - intros other Ho. rewrite !H. unfold ignored_prefix. by rewrite Ho.
Qed.

(** ** Shape of identifiers *)

(** *** Decimal strings *)

Lemma u_ascii_cons (a : ascii) (s : string) :
  Z.of_N (N_of_ascii a) < 128 ->
  u (String a s) = Z.of_N (N_of_ascii a) :: u s.
Proof.
  intros H. unfold u. cbn [list_ascii_of_string map utf8_decode].
  destruct (Z.ltb_spec (Z.of_N (N_of_ascii a)) 128); [done|lia].
Qed.

Lemma string_of_uint_digits d :
  Forall (fun c => is_ascii_digit c = true) (u (NilEmpty.string_of_uint d))
  /\ length (u (NilEmpty.string_of_uint d)) = Decimal.nb_digits d.
Proof.
  induction d as [|d [IH1 IH2]|d [IH1 IH2]|d [IH1 IH2]|d [IH1 IH2]|d [IH1 IH2]
                  |d [IH1 IH2]|d [IH1 IH2]|d [IH1 IH2]|d [IH1 IH2]|d [IH1 IH2]];
    [by split|..];
    cbn [NilEmpty.string_of_uint Decimal.nb_digits];
    (rewrite u_ascii_cons by (vm_compute; reflexivity));
    (split; [constructor; [by vm_compute|done]|cbn [length]; by rewrite IH2]).
Qed.

Lemma str_of_Z_digits n :
  0 <= n ->
  Forall (fun c => is_ascii_digit c = true) (str_of_Z n) /\ str_of_Z n <> [].
Proof.
  intros Hn. unfold str_of_Z. destruct n as [|p|p]; [|clear Hn|lia].
  - split; [|by vm_compute]. by repeat constructor.
  - cbn [Z.to_int NilEmpty.string_of_int].
    destruct (string_of_uint_digits (Pos.to_uint p)) as [Hd Hl]. split; [done|].
    intros Hnil. rewrite Hnil in Hl. cbn in Hl.
    pose proof (Unsigned.to_uint_nonnil p) as Hnn.
    destruct (Pos.to_uint p); [done|discriminate..].
Qed.

(** *** The slug *)

Lemma is_az09_spec c : is_az09 c = true <-> (97 <= c <= 122 \/ 48 <= c <= 57).
Proof.
  unfold is_az09. change (ch "a") with 97. change (ch "z") with 122.
  change (ch "0") with 48. change (ch "9") with 57.
  rewrite orb_true_iff, !andb_true_iff, !Z.leb_le. tauto.
Qed.

Lemma is_az09_not_space c : is_az09 c = true -> isspace c = false.
Proof.
  intros H%is_az09_spec. unfold isspace.
  repeat (apply orb_false_intro); rewrite ?andb_false_iff, ?Z.leb_gt, ?Z.eqb_neq; lia.
Qed.

Lemma is_az09_id_char c : is_az09 c = true -> is_id_char c = true.
Proof. intros H. unfold is_id_char. by rewrite H. Qed.

Lemma is_az09_not_hyphen c : is_az09 c = true -> c <> hyphen.
Proof. intros H%is_az09_spec. change hyphen with 45. lia. Qed.

Lemma collapse_id_chars b s :
  Forall (fun c => kept c = true) s -> Forall (fun c => is_id_char c = true) (collapse b s).
Proof.
  intros H. revert b. induction H as [|c s Hc _ IH]; intros b; [constructor|].
  cbn [collapse]. destruct (isspace c) eqn:Hs.
  - destruct b; [apply IH|]. constructor; [by vm_compute|apply IH].
  - constructor; [|apply IH]. unfold kept in Hc. rewrite Hs, orb_false_r in Hc.
    by apply is_az09_id_char.
Qed.

Lemma collapse_last b s c :
  isspace c = false -> collapse b (s ++ [c]) = collapse b s ++ [c].
Proof.
  intros Hc. revert b. induction s as [|d s IH]; intros b; cbn [app collapse].
  - by rewrite Hc.
  - destruct (isspace d); [destruct b|]; by rewrite IH.
Qed.

(** No two hyphens in a row: after a hyphen comes a kept character. *)
Lemma collapse_no_double b s :
  Forall (fun c => kept c = true) s ->
  contains (collapse b s) [hyphen; hyphen] = false
  /\ (b = true -> startswith (collapse b s) [hyphen] = false).
Proof.
  intros H. revert b. induction H as [|c s Hc _ IH]; intros b; [by split|].
  cbn [collapse]. destruct (isspace c) eqn:Hs.
  - destruct (IH true) as [IH1 IH2]. destruct b.
    + split; [done|]. intros _. by apply IH2.
    + split; [|done]. change (ch "-") with hyphen. cbn [contains]. rewrite IH1, orb_false_r.
      cbn [startswith]. rewrite Z.eqb_refl. cbn [andb]. exact (IH2 eq_refl).
  - unfold kept in Hc. rewrite Hs, orb_false_r in Hc.
    pose proof (is_az09_not_hyphen c Hc) as Hne.
    destruct (IH false) as [IH1 _]. split.
    + cbn [contains startswith]. rewrite IH1, orb_false_r.
      apply andb_false_intro1. apply Z.eqb_neq. congruence.
    + intros _. cbn [startswith]. apply andb_false_intro1. apply Z.eqb_neq. congruence.
Qed.

Lemma Forall_lstrip (P : Z -> Prop) s : Forall P s -> Forall P (lstrip s).
Proof.
  induction 1 as [|c s Hc Hs IH]; [constructor|]. cbn [lstrip].
  destruct (isspace c); [done|by constructor].
Qed.

Lemma Forall_strip (P : Z -> Prop) s : Forall P s -> Forall P (strip s).
Proof.
  intros H. unfold strip, rstrip.
  apply List.Forall_rev, Forall_lstrip, List.Forall_rev. by apply Forall_lstrip.
Qed.

(** A trimmed string neither starts nor ends with white space. *)
Lemma strip_ends s :
  match strip s with
  | [] => True
  | c :: _ => isspace c = false /\ exists x d, strip s = x ++ [d] /\ isspace d = false
  end.
Proof.
  unfold strip.
  pose proof (lstrip_head s) as Hh. destruct (lstrip s) as [|c t]; [done|].
  destruct (rstrip_head c t Hh) as [x Hx]. rewrite Hx. split; [done|].
  unfold rstrip in *. pose proof (lstrip_head (rev (c :: t))) as Hl.
  destruct (lstrip (rev (c :: t))) as [|d r]; [done|].
  cbn [rev] in *. exists (rev r), d. by rewrite <- Hx.
Qed.

Lemma slug_id_chars name : Forall (fun c => is_id_char c = true) (slug name).
Proof.
  unfold slug. apply collapse_id_chars, Forall_strip.
  apply Forall_forall. intros c Hc. apply list_elem_of_In, filter_In in Hc. apply Hc.
Qed.

Lemma slug_ends name :
  startswith (slug name) [hyphen] = false
  /\ endswith (slug name) [hyphen] = false
  /\ contains (slug name) [hyphen; hyphen] = false.
Proof.
  unfold slug.
  set (t := List.filter (fun c => is_az09 c || isspace c) (lower name)).
  assert (Hk : Forall (fun c => kept c = true) (strip t)).
  { apply Forall_strip, Forall_forall. intros c Hc.
    apply list_elem_of_In, filter_In in Hc. apply Hc. }
  split_and!; [| |by apply collapse_no_double].
  - pose proof (strip_ends t) as He. destruct (strip t) as [|c r] eqn:E; [done|].
    destruct He as [Hc _]. cbn [collapse]. rewrite Hc. cbn [startswith].
    apply Forall_cons in Hk as [Hkc _]. unfold kept in Hkc. rewrite Hc, orb_false_r in Hkc.
    apply andb_false_intro1, Z.eqb_neq. intros Heq. by apply (is_az09_not_hyphen c).
  - pose proof (strip_ends t) as He. destruct (strip t) as [|c r] eqn:E; [done|].
    destruct He as (_ & x & d & Hx & Hd). rewrite Hx in *. rewrite collapse_last by done.
    unfold endswith. rewrite rev_app_distr. cbn [rev app startswith].
    apply Forall_app in Hk as [_ Hkd]. apply Forall_cons in Hkd as [Hkd _].
    unfold kept in Hkd. rewrite Hd, orb_false_r in Hkd.
    apply andb_false_intro1, Z.eqb_neq. intros Heq. by apply (is_az09_not_hyphen d).
Qed.

Lemma hash6_digits hash url :
  Forall (fun c => is_ascii_digit c = true) (hash6 hash url)
  /\ (1 <= length (hash6 hash url) <= 6)%nat.
Proof.
  unfold hash6. destruct (str_of_Z_digits (Z.abs (hash url)) (Z.abs_nonneg _)) as [Hd Hn].
  split; [by apply Forall_take|]. rewrite length_take.
  destruct (str_of_Z (Z.abs (hash url))); [done|cbn [length]; lia].
Qed.

(** X8. An identifier is made of [a-z], [0-9] and hyphens only.  Its slug
    neither starts nor ends with a hyphen and has no two hyphens in a row; the
    hash part is one to six ASCII digits; the identifier is two to seven
    characters longer than the slug. *)
Theorem generate_id_is_ascii_safe (hash : str -> Z) (name url : str) :
  Forall (fun c => is_id_char c = true) (generate_id hash name url)
  /\ startswith (slug name) [hyphen] = false
  /\ endswith (slug name) [hyphen] = false
  /\ contains (slug name) [hyphen; hyphen] = false
  /\ Forall (fun c => is_ascii_digit c = true) (hash6 hash url)
  /\ (1 <= length (hash6 hash url) <= 6)%nat
  /\ (length (slug name) + 2 <= length (generate_id hash name url)
      <= length (slug name) + 7)%nat.
Proof.
  destruct (slug_ends name) as (H1 & H2 & H3).
  destruct (hash6_digits hash url) as [Hd Hl].
  rewrite generate_id_slug. split_and!; try done; try lia.
  - apply Forall_app. split; [apply slug_id_chars|]. apply Forall_app. split.
    + by repeat constructor.
    + eapply Forall_impl; [exact Hd|]. intros c Hc. apply is_az09_id_char, is_az09_spec.
      unfold is_ascii_digit in Hc. apply andb_true_iff in Hc as [?%Z.leb_le ?%Z.leb_le]. lia.
  - rewrite !length_app. change (length (u "-")) with 1%nat. lia.
  - rewrite !length_app. change (length (u "-")) with 1%nat. lia.
Qed.

(** ** Shape of file names *)

(** *** Substitution of runs *)

Lemma star_greedy_all {A} p bol s (f : str -> A) :
  star_greedy p bol s (fun _ s' => Some (f s')) = Some (f (skip_while p s)).
Proof.
  revert bol. induction s as [|c s IH]; intros bol; [done|].
  cbn [star_greedy skip_while]. destruct (p c); [|done]. by rewrite IH.
Qed.

Lemma match_here_plus p bol c s :
  match_here (plus p) bol (c :: s) = if p c then Some (skip_while p s, []) else None.
Proof.
  unfold match_here, plus. cbn [rmatch]. destruct (p c); [|done].
  apply (star_greedy_all p false s (fun s' => (s', []))).
Qed.

Lemma skip_while_length p s : (length (skip_while p s) <= length s)%nat.
Proof. induction s as [|c s IH]; cbn; [lia|]. destruct (p c); cbn; lia. Qed.

Lemma run_cons p c s : run p (c :: s) = if p c then S (run p s) else O.
Proof.
  unfold run. cbn [skip_while]. pose proof (skip_while_length p s).
  destruct (p c); cbn [length]; lia.
Qed.

Lemma sub_go_skip r repl p s :
  sub_go r repl false (run p s) s = sub_go r repl false O (skip_while p s).
Proof.
  induction s as [|c s IH]; [done|]. rewrite run_cons. cbn [skip_while].
  destruct (p c); [|done]. cbn [sub_go]. apply IH.
Qed.

Lemma sub_go_plus p r s :
  (forall bol, sub_go (plus p) r bol O s = squeeze p r false s)
  /\ sub_go (plus p) r false (run p s) s = squeeze p r true s.
Proof.
  induction s as [|c s [IH0 IH1]]; [split; done|].
  assert (H0 : forall bol, sub_go (plus p) r bol O (c :: s) = squeeze p r false (c :: s)).
  { intros bol. cbn [sub_go squeeze]. rewrite match_here_plus.
    destruct (p c) eqn:Hc.
    - replace (length (c :: s) - length (skip_while p s))%nat with (S (run p s))
        by (unfold run; pose proof (skip_while_length p s); cbn [length]; lia).
      by rewrite IH1.
    - by rewrite IH0. }
  split; [exact H0|].
  rewrite run_cons. cbn [squeeze]. destruct (p c) eqn:Hc.
  - cbn [sub_go]. apply IH1.
  - rewrite H0. cbn [squeeze]. by rewrite Hc.
Qed.

Lemma sub_plus p r s : sub (plus p) r s = squeeze p r false s.
Proof. apply sub_go_plus. Qed.

(** *** Trimming underscores *)

Lemma rmatch_eol_cons {A} bol c s caps (k : bool -> str -> captures -> option A) :
  c <> 10 -> rmatch Eol bol (c :: s) caps k = None.
Proof.
  intros Hc. cbn [rmatch].
  destruct c as [|p|p]; [by destruct s| |by destruct s].
  destruct p as [p|p|]; [by destruct s| |by destruct s].
  destruct p as [p|p|]; [|by destruct s|by destruct s].
  destruct p as [p|p|]; [by destruct s| |by destruct s].
  destruct p as [p|p|]; [by destruct s|by destruct s|].
  done.
Qed.

Lemma star_greedy_eol bol s :
  Forall (fun c => c <> 10) s ->
  star_greedy is_underscore bol s
    (fun b s' => rmatch Eol b s' [] (fun _ s'' caps => Some (s'', caps)))
  = match skip_while is_underscore s with
    | [] => Some ([], [])
    | _ => None
    end.
Proof.
  intros H. revert bol. induction H as [|c s Hc Hs IH]; intros bol; [done|].
  cbn [star_greedy skip_while]. destruct (is_underscore c) eqn:Hu.
  - rewrite IH. destruct (skip_while is_underscore s); [done|].
    by apply rmatch_eol_cons.
  - by apply rmatch_eol_cons.
Qed.

Lemma match_here_edge_nil bol : match_here edge_underscores bol [] = None.
Proof. by destruct bol. Qed.

Lemma match_here_edge_inner c s :
  Forall (fun c => c <> 10) s ->
  match_here edge_underscores false (c :: s)
  = if is_underscore c
    then match skip_while is_underscore s with [] => Some ([], []) | _ => None end
    else None.
Proof.
  intros Hs. unfold match_here, edge_underscores, plus. cbn [rmatch].
  destruct (is_underscore c); [|done]. by apply star_greedy_eol.
Qed.

Lemma match_here_edge_start c s :
  match_here edge_underscores true (c :: s)
  = if is_underscore c then Some (skip_while is_underscore s, []) else None.
Proof.
  unfold match_here, edge_underscores, plus. cbn [rmatch].
  destruct (is_underscore c); [|done].
  match goal with
  | |- match ?X with _ => _ end = Some ?y =>
      replace X with (Some y); [done|]
  end.
  symmetry. apply (star_greedy_all is_underscore false s (fun s' => (s', []))).
Qed.

Lemma rskip_while_nil p s : skip_while p s = [] -> rskip_while p s = [].
Proof.
  induction s as [|c s IH]; [done|]. cbn [skip_while rskip_while].
  destruct (p c); [|done]. intros H. by rewrite (IH H).
Qed.

Lemma rskip_while_cons_keep p c s :
  skip_while p (c :: s) <> [] -> rskip_while p (c :: s) = c :: rskip_while p s.
Proof.
  cbn [skip_while rskip_while]. destruct (rskip_while p s) as [|d t] eqn:Hr; [|done].
  destruct (p c) eqn:Hc; [|done]. intros Hne. exfalso. apply Hne. clear Hne.
  induction s as [|e s IH]; [done|]. cbn [skip_while rskip_while] in *.
  destruct (rskip_while p s); [|done]. destruct (p e); [by apply IH|done].
Qed.

Lemma sub_go_all r repl s :
  (forall bol, match_here r bol [] = None) ->
  sub_go r repl false (length s) s = [].
Proof.
  intros Hnil. induction s as [|c s IH]; [|done].
  cbn [length sub_go]. by rewrite Hnil.
Qed.

Lemma sub_edge_inner s :
  Forall (fun c => c <> 10) s ->
  sub_go edge_underscores [] false O s = rskip_while is_underscore s.
Proof.
  induction 1 as [|c s Hc Hs IH]; [done|].
  cbn [sub_go]. rewrite (match_here_edge_inner c s Hs).
  destruct (is_underscore c) eqn:Hu.
  - destruct (skip_while is_underscore s) as [|d t] eqn:Hk.
    + cbn [length app]. rewrite Nat.sub_0_r.
      rewrite (sub_go_all _ _ s match_here_edge_nil).
      symmetry. apply rskip_while_nil. cbn [skip_while]. by rewrite Hu.
    + rewrite IH. symmetry. apply rskip_while_cons_keep. cbn [skip_while]. by rewrite Hu, Hk.
  - rewrite IH. symmetry. apply rskip_while_cons_keep. cbn [skip_while]. by rewrite Hu.
Qed.

Lemma Forall_skip_while (P : Z -> Prop) p s : Forall P s -> Forall P (skip_while p s).
Proof.
  induction 1 as [|c s Hc Hs IH]; [constructor|]. cbn [skip_while].
  destruct (p c); [done|by constructor].
Qed.

Lemma sub_edge s :
  Forall (fun c => c <> 10) s ->
  sub edge_underscores [] s = rskip_while is_underscore (skip_while is_underscore s).
Proof.
  intros H. unfold sub. destruct H as [|c s Hc Hs]; [done|].
  cbn [sub_go]. rewrite match_here_edge_start. cbn [skip_while].
  destruct (is_underscore c) eqn:Hu.
  - replace (length (c :: s) - length (skip_while is_underscore s))%nat
      with (S (run is_underscore s))
      by (unfold run; pose proof (skip_while_length is_underscore s); cbn [length]; lia).
    cbn [app]. rewrite sub_go_skip. apply sub_edge_inner. by apply Forall_skip_while.
  - rewrite sub_edge_inner by done. symmetry. apply rskip_while_cons_keep.
    cbn [skip_while]. by rewrite Hu.
Qed.

(** *** File names *)

Lemma squeeze_filename_chars b s :
  Forall (fun c => is_filename_char c = true) (squeeze not_az09 [underscore] b s).
Proof.
  revert b. induction s as [|c s IH]; intros b; [constructor|].
  cbn [squeeze]. unfold not_az09 at 1. destruct (is_az09 c) eqn:Hc; cbn [negb].
  - constructor; [|apply IH]. unfold is_filename_char. by rewrite Hc.
  - destruct b; [apply IH|]. constructor; [by vm_compute|apply IH].
Qed.

Lemma filename_char_not_newline c : is_filename_char c = true -> c <> 10.
Proof.
  unfold is_filename_char, is_underscore. change underscore with 95.
  intros [H%is_az09_spec|H%Z.eqb_eq]%orb_true_iff; lia.
Qed.

Lemma category_to_filename_squeezed category :
  category_to_filename category = squeezed_filename category.
Proof.
  unfold category_to_filename, squeezed_filename.
  change (sub (plus (fun c => negb (is_az09 c))) (u "_") (lower category))
    with (sub (plus not_az09) [underscore] (lower category)).
  rewrite sub_plus.
  change (Alt (Seq Bol (plus (Z.eqb (ch "_")))) (Seq (plus (Z.eqb (ch "_"))) Eol))
    with edge_underscores.
  apply sub_edge. eapply Forall_impl; [apply squeeze_filename_chars|].
  apply filename_char_not_newline.
Qed.

Lemma Forall_rskip_while (P : Z -> Prop) p s : Forall P s -> Forall P (rskip_while p s).
Proof.
  induction 1 as [|c s Hc Hs IH]; [constructor|]. cbn [rskip_while].
  destruct (rskip_while p s); [destruct (p c); by repeat constructor|by constructor].
Qed.

Lemma skip_while_head p s :
  match skip_while p s with c :: _ => p c = false | [] => True end.
Proof.
  induction s as [|c s IH]; [done|]. cbn [skip_while]. by destruct (p c) eqn:Hc.
Qed.

Lemma rskip_while_head p c s :
  p c = false -> exists t, rskip_while p (c :: s) = c :: t.
Proof.
  intros Hc. cbn [rskip_while]. destruct (rskip_while p s) as [|d t]; rewrite ?Hc; eauto.
Qed.

Lemma rskip_while_last p s :
  match rev (rskip_while p s) with c :: _ => p c = false | [] => True end.
Proof.
  induction s as [|c s IH]; [done|]. cbn [rskip_while].
  destruct (rskip_while p s) as [|d t] eqn:Hr.
  - destruct (p c) eqn:Hc; [done|]. cbn. done.
  - change (rev (c :: d :: t)) with (rev (d :: t) ++ [c]).
    destruct (rev (d :: t)) as [|e r] eqn:He; [|done].
    apply (f_equal (@length Z)) in He. rewrite length_rev in He. done.
Qed.

(** No two underscores in a row. *)
Lemma squeeze_no_double b s :
  contains (squeeze not_az09 [underscore] b s) [underscore; underscore] = false
  /\ (b = true -> startswith (squeeze not_az09 [underscore] b s) [underscore] = false).
Proof.
  revert b. induction s as [|c s IH]; intros b; [by split|].
  cbn [squeeze]. assert (Hn : not_az09 c = negb (is_az09 c)) by done.
  rewrite !Hn. clear Hn. destruct (is_az09 c) eqn:Hc; cbn [negb].
  - destruct (IH false) as [IH1 _].
    assert (Hne : (underscore =? c) = false).
    { apply Z.eqb_neq. apply is_az09_spec in Hc. change underscore with 95. lia. }
    split.
    + cbn [contains startswith]. rewrite Hne. exact IH1.
    + intros _. cbn [startswith]. by rewrite Hne.
  - destruct (IH true) as [IH1 IH2]. destruct b.
    + split; [done|]. intros _. by apply IH2.
    + split; [|done]. cbn [app contains]. rewrite IH1, orb_false_r.
      cbn [startswith]. rewrite Z.eqb_refl. cbn [andb]. exact (IH2 eq_refl).
Qed.

Lemma skip_while_suffix p s : exists t, s = t ++ skip_while p s.
Proof.
  induction s as [|c s [t IH]]; [by exists []|]. cbn [skip_while].
  destruct (p c); [|by exists []]. exists (c :: t). cbn [app]. by rewrite <- IH.
Qed.

Lemma rskip_while_prefix p s : exists t, s = rskip_while p s ++ t.
Proof.
  induction s as [|c s [t IH]]; [by exists []|]. cbn [rskip_while].
  destruct (rskip_while p s) as [|d r].
  - destruct (p c); [by exists (c :: s)|]. exists s. done.
  - exists t. cbn [app] in *. by rewrite <- IH.
Qed.

Lemma contains_false_app s t k :
  contains (s ++ t) k = false -> contains s k = false /\ contains t k = false.
Proof.
  intros H. split.
  - destruct (contains s k) eqn:E; [|done]. by rewrite (contains_app_l _ t _ E) in H.
  - destruct (contains t k) eqn:E; [|done]. by rewrite (contains_app_r s _ _ E) in H.
Qed.

Lemma skip_while_all p s : skip_while p s = [] <-> Forall (fun c => p c = true) s.
Proof.
  induction s as [|c s IH]; [done|]. cbn [skip_while]. destruct (p c) eqn:Hc.
  - rewrite IH. split; [by constructor|by inversion 1].
  - split; [done|]. inversion 1; congruence.
Qed.

Lemma skip_while_idem p s : skip_while p (skip_while p s) = skip_while p s.
Proof.
  pose proof (skip_while_head p s) as H. destruct (skip_while p s) as [|c t]; [done|].
  cbn [skip_while]. by rewrite H.
Qed.

Lemma rskip_while_all p s : rskip_while p s = [] <-> skip_while p s = [].
Proof.
  split; [|apply rskip_while_nil]. intros H.
  destruct (skip_while p s) as [|d t] eqn:Hk; [done|].
  destruct s as [|c s]; [done|]. rewrite rskip_while_cons_keep in H; [done|by rewrite Hk].
Qed.

Lemma squeeze_all b s :
  Forall (fun c => is_underscore c = true) (squeeze not_az09 [underscore] b s)
  <-> Forall (fun c => is_az09 c = false) s.
Proof.
  revert b. induction s as [|c s IH]; intros b; [done|].
  cbn [squeeze]. assert (Hn : not_az09 c = negb (is_az09 c)) by done.
  rewrite Hn. clear Hn. destruct (is_az09 c) eqn:Hc; cbn [negb].
  - split; inversion 1; subst; [|congruence].
    apply is_az09_spec in Hc. unfold is_underscore in *. change underscore with 95 in *. lia.
  - destruct b.
    + rewrite IH. split; [by constructor|by inversion 1].
    + cbn [app]. split.
      * inversion 1; subst. constructor; [done|]. by apply (IH true).
      * inversion 1; subst. constructor; [done|]. by apply (IH true).
Qed.

(** X9. The file name of a category is its lower-cased name with every run
    of characters outside [a-z0-9] turned into one underscore and the
    underscores at both ends dropped.  So it is made of [a-z], [0-9] and
    underscores only, neither starts nor ends with an underscore, has no two
    underscores in a row, and is empty exactly when the lower-cased category
    has no character in [a-z0-9]. *)
Theorem category_file_name_shape (category : str) :
  category_to_filename category = squeezed_filename category
  /\ Forall (fun c => is_filename_char c = true) (category_to_filename category)
  /\ startswith (category_to_filename category) [underscore] = false
  /\ endswith (category_to_filename category) [underscore] = false
  /\ contains (category_to_filename category) [underscore; underscore] = false
  /\ (category_to_filename category = []
      <-> Forall (fun c => is_az09 c = false) (lower category)).
Proof.
  split; [apply category_to_filename_squeezed|].
  rewrite category_to_filename_squeezed. unfold squeezed_filename.
  set (s := squeeze not_az09 [underscore] false (lower category)).
  split_and!.
  - apply Forall_rskip_while, Forall_skip_while, squeeze_filename_chars.
  - pose proof (skip_while_head is_underscore s) as Hh.
    destruct (skip_while is_underscore s) as [|c t]; [done|].
    destruct (rskip_while_head is_underscore c t Hh) as [r ->].
    cbn [startswith]. unfold is_underscore in Hh. by rewrite Hh.
  - unfold endswith. pose proof (rskip_while_last is_underscore (skip_while is_underscore s)) as Hl.
    destruct (rev (rskip_while is_underscore (skip_while is_underscore s))) as [|c t]; [done|].
    cbn [rev app startswith]. unfold is_underscore in Hl. by rewrite Hl.
  - destruct (squeeze_no_double false (lower category)) as [Hd _]. fold s in Hd.
    destruct (skip_while_suffix is_underscore s) as [t Ht].
    rewrite Ht in Hd. apply contains_false_app in Hd as [_ Hd].
    destruct (rskip_while_prefix is_underscore (skip_while is_underscore s)) as [r Hr].
    rewrite Hr in Hd. by apply contains_false_app in Hd as [Hd _].
  - rewrite rskip_while_all, skip_while_idem, skip_while_all. apply squeeze_all.
Qed.

(** ** Rules that cannot answer, and the empty name *)

Lemma startswith_spec s p : startswith s p = true <-> exists t, s = p ++ t.
Proof.
  revert s. induction p as [|a p IH]; intros s.
  - split; [by exists s|by destruct s].
  - destruct s as [|b s]; cbn [startswith].
    + split; [done|by intros [t Ht]].
    + rewrite andb_true_iff, IH, Z.eqb_eq. split.
      * intros [-> [t ->]]. by exists t.
      * intros [t Ht]. cbn [app] in Ht. inversion Ht; subst. eauto.
Qed.

Lemma contains_spec s k : contains s k = true <-> exists a b, s = a ++ k ++ b.
Proof.
  induction s as [|c s IH]; cbn [contains].
  - rewrite orb_false_r, startswith_spec. split.
    + intros [t Ht]. by exists [], t.
    + intros (a & b & H). destruct a; [by exists b|done].
  - rewrite orb_true_iff, startswith_spec, IH. split.
    + intros [[t Ht]|(a & b & ->)]; [by exists [], t|by exists (c :: a), b].
    + intros (a & b & H). destruct a as [|d a]; [left; by exists b|right].
      cbn [app] in H. inversion H; subst. by exists a, b.
Qed.

(** A string that contains [k] contains every substring of [k]. *)
Lemma contains_trans s k k' :
  contains k k' = true -> contains s k = true -> contains s k' = true.
Proof.
  rewrite !contains_spec. intros (a & b & ->) (a' & b' & ->).
  exists (a' ++ a), (b ++ b'). by rewrite <- !app_assoc.
Qed.

Ltac chain_step :=
  match goal with
  | |- (if true then ?x else _) <> ?t => change (x <> t); by vm_compute
  | |- (if false then _ else ?y) <> ?t => change (y <> t)
  | |- (if ?b then ?x else _) <> ?t => destruct b; [by vm_compute|]
  end.

Lemma fiction_shadows_dubbing lower :
  contains lower (u "dublagem") && contains lower (u "oficial") = true ->
  contains lower (u "fantasia")
  || contains lower (u "fic") && contains lower (u "o") = true.
Proof.
  intros [_ H]%andb_true_iff.
  rewrite (contains_trans lower (u "oficial") (u "fic")) by (done || by vm_compute).
  rewrite (contains_trans lower (u "oficial") (u "o")) by (done || by vm_compute).
  apply orb_true_r.
Qed.

(** X10. The rule for unofficial dubbing never answers: a lower-cased
    category that contains [dublagem] and [oficial] contains [fic] and [o], so
    the rule for Fantasia, which comes earlier in the chain, holds as well,
    and [normalize_category] returns [Dublagem Não Oficial] for no category. *)
Theorem unofficial_dubbing_rule_is_dead (category : str) :
  normalize_category category <> u "Dublagem Não Oficial"
  /\ (forall lower,
        contains lower (u "dublagem") && contains lower (u "oficial") = true ->
        contains lower (u "fantasia")
        || contains lower (u "fic") && contains lower (u "o") = true).
Proof.
  split; [|apply fiction_shadows_dubbing].
  unfold normalize_category. cbv zeta. generalize (strip_prefix category) as cat.
  clear category. intros cat.
  destruct (contains (lower cat) (u "fic") && contains (lower cat) (u "o")) eqn:Hf.
  - rewrite orb_true_r. repeat chain_step. by vm_compute.
  - assert (Ho : contains (lower cat) (u "oficial") = false).
    { destruct (contains (lower cat) (u "oficial")) eqn:Ho; [|done].
      rewrite <- Hf. symmetry. apply andb_true_iff.
      split; (eapply contains_trans; [|exact Ho]); by vm_compute. }
    rewrite Ho, andb_false_r.
    generalize (search (seqs [lit (ch "2"); lit (ch "0"); Chr isdigit; Chr isdigit]) cat).
    intros found. repeat chain_step.
    match goal with
    | |- (if ?b then _ else _) <> _ =>
        destruct b; [destruct found as [[[year ?] ?]|]; by vm_compute|]
    end.
    repeat chain_step.
    intros ->. by vm_compute in Hf.
Qed.

Lemma strip_prefix_empty category :
  strip_prefix category = [] <->
  category = []
  \/ (startswith category (u "COLETÂNEA:") = true
      /\ strip (replace category (u "COLETÂNEA:") []) = []).
Proof.
  unfold strip_prefix.
  destruct (startswith category (u "OND /")) eqn:H1.
  { split.
    - cbv zeta. intros H. exfalso. revert H.
      set (n0 := strip (replace category (u "OND /") [])).
      generalize (if endswith n0 (u " -") then strip (take (length n0 - 2) n0) else n0).
      intros [|c n]; [by vm_compute|]. cbn beta iota.
      pose proof (upper_char_nonempty c). by destruct (upper_char c).
    - intros [->|[H _]]; [done|]. exfalso.
      destruct category as [|c category]; [done|]. cbn in H, H1.
      apply andb_true_iff in H as [H%Z.eqb_eq _]. apply andb_true_iff in H1 as [H1%Z.eqb_eq _].
      lia. }
  destruct (startswith category (u "Series |")) eqn:H2.
  { split.
    - cbv zeta. intros H. exfalso. revert H.
      generalize (strip (replace category (u "Series |") [])).
      intros [|c n]; [by vm_compute|done].
    - intros [->|[H _]]; [done|]. exfalso.
      destruct category as [|c category]; [done|]. cbn in H, H2.
      apply andb_true_iff in H as [H%Z.eqb_eq _]. apply andb_true_iff in H2 as [H2%Z.eqb_eq _].
      lia. }
  destruct (startswith category (u "COLETÂNEA:")) eqn:H3.
  - split; [by right|]. intros [->|[_ H]]; [done|exact H].
  - split; [by left|]. by intros [H|[? _]].
Qed.

Ltac chain_step_nonempty :=
  match goal with
  | |- (if ?b then ?x else _) <> [] => destruct b; [by vm_compute|]
  end.

(** X11. [normalize_category] returns the empty name in two cases only: the
    category is empty, or it starts with [COLETÂNEA:] and only white space is
    left once the occurrences of that prefix are removed. *)
Theorem canonical_category_is_empty_iff (category : str) :
  normalize_category category = [] <->
  category = []
  \/ (startswith category (u "COLETÂNEA:") = true
      /\ strip (replace category (u "COLETÂNEA:") []) = []).
Proof.
  etrans; [|apply strip_prefix_empty].
  unfold normalize_category. cbv zeta. generalize (strip_prefix category) as cat.
  clear category. intros cat. split.
  - destruct cat as [|c cat]; [done|]. intros H. exfalso. revert H.
    generalize (search (seqs [lit (ch "2"); lit (ch "0"); Chr isdigit; Chr isdigit]) (c :: cat)).
    generalize (lower (c :: cat)).
    intros l found.
    match goal with |- ?x = [] -> False => change (x <> []) end.
    repeat chain_step_nonempty.
    match goal with
    | |- (if ?b then _ else _) <> _ =>
        destruct b; [destruct found as [[[year ?] ?]|]; by vm_compute|]
    end.
    repeat chain_step_nonempty. done.
  - intros ->. by vm_compute.
Qed.

(** ** Series information *)

(** *** Matching without groups, and matching further on *)

Lemma rmatch_eol {A} bol s caps (k : bool -> str -> captures -> option A) :
  rmatch Eol bol s caps k = if at_end s then k bol s caps else None.
Proof.
  cbn [rmatch]. unfold at_end. destruct s as [|c s]; [done|].
  destruct c as [|q|q]; [by destruct s| |by destruct s].
  repeat (destruct q as [q|q|]; try by destruct s).
Qed.

Lemma star_greedy_is_Some {A B} p bol bol' s
    (k : bool -> str -> option A) (k' : bool -> str -> option B) :
  (forall b b' s1, is_Some (k b s1) -> is_Some (k' b' s1)) ->
  is_Some (star_greedy p bol s k) -> is_Some (star_greedy p bol' s k').
Proof.
  intros Hk. revert bol bol'. induction s as [|c s IH]; intros bol bol'; cbn [star_greedy].
  - apply Hk.
  - destruct (p c); [|apply Hk].
    destruct (star_greedy p false s k) eqn:E.
    + intros _. destruct (IH false false) as [x ->]; [by rewrite E|]. done.
    + intros H. destruct (star_greedy p false s k'); [done|]. by apply (Hk bol).
Qed.

Lemma star_lazy_is_Some {A B} p bol bol' s
    (k : bool -> str -> option A) (k' : bool -> str -> option B) :
  (forall b b' s1, is_Some (k b s1) -> is_Some (k' b' s1)) ->
  is_Some (star_lazy p bol s k) -> is_Some (star_lazy p bol' s k').
Proof.
  intros Hk. revert bol bol'. induction s as [|c s IH]; intros bol bol'; cbn [star_lazy].
  - destruct (k bol []) eqn:E; [|by intros []].
    intros _. destruct (Hk bol bol' []) as [x ->]; [by rewrite E|]. done.
  - destruct (k bol (c :: s)) eqn:E.
    + intros _. destruct (Hk bol bol' (c :: s)) as [x ->]; [by rewrite E|]. done.
    + destruct (k' bol' (c :: s)); [done|]. destruct (p c); [apply IH|done].
Qed.

Lemma rmatch_erase {A B} r :
  unanchored r = true ->
  forall bol bol' s caps caps'
    (k : bool -> str -> captures -> option A) (k' : bool -> str -> captures -> option B),
  (forall b b' s1 c c', is_Some (k b s1 c) -> is_Some (k' b' s1 c')) ->
  is_Some (rmatch r bol s caps k) -> is_Some (rmatch (erase r) bol' s caps' k').
Proof.
  induction r as [|p|a IHa b IHb|a IHa b IHb|p|p|n a IHa| |];
    intros Hu bol bol' s caps caps' k k' Hk; cbn [erase unanchored] in *; try rewrite !rmatch_eol; cbn [rmatch].
  - apply Hk.
  - destruct s as [|c s]; [done|]. destruct (p c); [apply Hk|done].
  - apply andb_true_iff in Hu as [Ha Hb]. apply (IHa Ha).
    intros b1 b1' s1 c1 c1'. by apply (IHb Hb).
  - apply andb_true_iff in Hu as [Ha Hb].
    destruct (rmatch a bol s caps k) eqn:E.
    + intros _. destruct (IHa Ha bol bol' s caps caps' k k' Hk) as [x ->]; [by rewrite E|]. done.
    + intros H. destruct (rmatch (erase a) bol' s caps' k'); [done|].
      by apply (IHb Hb bol bol' s caps caps' k k' Hk).
  - apply star_greedy_is_Some. intros b1 b1' s1. apply Hk.
  - apply star_lazy_is_Some. intros b1 b1' s1. apply Hk.
  - apply (IHa Hu). intros b1 b1' s1 c1 c1'. apply Hk.
  - done.
  - destruct (at_end s); [apply Hk|done].
Qed.

Lemma star_greedy_reaches {A} p bol s (k : bool -> str -> option A) :
  is_Some (star_greedy p bol s k) ->
  exists b' s', s' `suffix_of` s /\ is_Some (k b' s').
Proof.
  revert bol. induction s as [|c s IH]; intros bol; cbn [star_greedy].
  - intros H. by exists bol, [].
  - destruct (p c); [|intros H; by exists bol, (c :: s)].
    destruct (star_greedy p false s k) eqn:E.
    + intros _. destruct (IH false) as (b' & s' & Hs & H); [by rewrite E|].
      exists b', s'. split; [by apply suffix_cons_r|done].
    + intros H; by exists bol, (c :: s).
Qed.

Lemma star_lazy_reaches {A} p bol s (k : bool -> str -> option A) :
  is_Some (star_lazy p bol s k) ->
  exists b' s', s' `suffix_of` s /\ is_Some (k b' s').
Proof.
  revert bol. induction s as [|c s IH]; intros bol; cbn [star_lazy].
  - destruct (k bol []) eqn:E; [|by intros []]. intros _. exists bol, []. by rewrite E.
  - destruct (k bol (c :: s)) eqn:E.
    + intros _. exists bol, (c :: s). by rewrite E.
    + destruct (p c); [|by intros []]. intros H.
      destruct (IH false H) as (b' & s' & Hs & H').
      exists b', s'. split; [by apply suffix_cons_r|done].
Qed.

(** A match that succeeds hands to its continuation a suffix of the subject. *)
Lemma rmatch_reaches {A} r :
  forall bol s caps (k : bool -> str -> captures -> option A),
  is_Some (rmatch r bol s caps k) ->
  exists b' s' c', s' `suffix_of` s /\ is_Some (k b' s' c').
Proof.
  induction r as [|p|a IHa b IHb|a IHa b IHb|p|p|n a IHa| |];
    intros bol s caps k; try rewrite rmatch_eol; cbn [rmatch].
  - intros H. by exists bol, s, caps.
  - destruct s as [|c s]; [by intros []|]. destruct (p c); [|by intros []].
    intros H. exists false, s, caps. split; [by apply suffix_cons_r|done].
  - intros H. destruct (IHa _ _ _ _ H) as (b1 & s1 & c1 & Hs1 & H1).
    destruct (IHb _ _ _ _ H1) as (b2 & s2 & c2 & Hs2 & H2).
    exists b2, s2, c2. split; [by etrans|done].
  - destruct (rmatch a bol s caps k) eqn:E.
    + intros _. apply (IHa bol s caps k). by rewrite E.
    + apply IHb.
  - intros H. destruct (star_greedy_reaches _ _ _ _ H) as (b' & s' & Hs & H').
    by exists b', s', caps.
  - intros H. destruct (star_lazy_reaches _ _ _ _ H) as (b' & s' & Hs & H').
    by exists b', s', caps.
  - intros H. destruct (IHa _ _ _ _ H) as (b1 & s1 & c1 & Hs1 & H1). eauto.
  - destruct bol; [|by intros []]. intros H. by exists true, s, caps.
  - destruct (at_end s); [|by intros []].
    intros H. by exists bol, s, caps.
Qed.

Lemma search_from_suffix r bol s s' :
  s' `suffix_of` s ->
  (forall b, is_Some (match_here r b s')) ->
  is_Some (search_from r bol s).
Proof.
  intros Hs Hm. revert bol. induction s as [|c s IH]; intros bol.
  - apply suffix_nil_inv in Hs as ->. cbn [search_from].
    destruct (Hm bol) as [[rest caps] ->]. done.
  - cbn [search_from]. destruct (match_here r bol (c :: s)) as [[rest caps]|] eqn:E; [done|].
    destruct Hs as [[|d t] Ht]; cbn [app] in Ht.
    + subst s'. destruct (Hm bol) as [x Hx]. congruence.
    + inversion Ht; subst. apply IH. by exists t.
Qed.

(** A pattern [^(.+?)\s*tail], matched at the start of the name, lets
    [tail] without its groups be found somewhere in the name. *)
Lemma anchored_match_search tail name :
  unanchored tail = true ->
  is_Some (match_ (Seq Bol (Seq (Grp 1 (lazy_plus dot)) (Seq spaces tail))) name) ->
  is_Some (search (erase tail) name).
Proof.
  intros Hu. unfold match_, match_here.
  change (rmatch (Seq Bol (Seq (Grp 1 (lazy_plus dot)) (Seq spaces tail))) true name []
            (fun _ s' caps => Some (s', caps)))
    with (rmatch (Seq (Grp 1 (lazy_plus dot)) spaces) true name []
            (fun b s c => rmatch tail b s c (fun _ s' caps => Some (s', caps)))).
  intros H. destruct (rmatch_reaches _ _ _ _ _ H) as (b' & s' & c' & Hs & H').
  apply (search_from_suffix _ _ _ s' Hs). intros b. unfold match_here.
  revert H'. apply (rmatch_erase tail Hu). done.
Qed.

Lemma digit_value_nonneg c v : digit_value c = Some v -> 0 <= v.
Proof.
  unfold digit_value. destruct (List.find _ digit_blocks) as [b|] eqn:E; [|done].
  apply find_some in E as [_ [H _]%andb_true_iff]. intros [= <-]. lia.
Qed.

Lemma int_nonneg s : 0 <= int s.
Proof.
  unfold int.
  assert (H : forall acc, 0 <= acc ->
            0 <= fold_left (fun acc c => 10 * acc + default 0 (digit_value c)) s acc).
  { induction s as [|c s IH]; intros acc Hacc; [exact Hacc|]. cbn [fold_left]. apply IH.
    destruct (digit_value c) as [v|] eqn:E; cbn; [|lia].
    apply digit_value_nonneg in E. lia. }
  by apply H.
Qed.

Lemma first_match_Some patterns name :
  is_Some (first_match patterns name) ->
  exists pattern, pattern ∈ patterns /\ is_Some (match_ pattern name).
Proof.
  induction patterns as [|pattern rest IH]; cbn [first_match]; [by intros []|].
  destruct (match_ pattern name) as [[? caps]|] eqn:E.
  - intros _. exists pattern. split; [by left|by rewrite E].
  - intros H. destruct (IH H) as (q & Hq & Hm). exists q. split; [by right|done].
Qed.

Lemma first_match_shape patterns name series_name season episode :
  first_match patterns name = Some (series_name, season, episode) ->
  trimmed series_name /\ 0 <= season /\ 0 <= episode.
Proof.
  induction patterns as [|pattern rest IH]; cbn [first_match]; [done|].
  destruct (match_ pattern name) as [[? caps]|]; [|done].
  intros [= <- <- <-]. split_and!; [apply strip_idem|apply int_nonneg..].
Qed.

(** X12. A name from which [parse_series_info] reads a series, a season and
    an episode is matched by one of [EPISODE_PATTERNS]; so the test on
    [series_info] adds nothing to the item's type, which is [series] exactly
    when the category or the name says so.  The series name read has no white
    space at either end, and season and episode are not negative. *)
Theorem series_info_needs_an_episode_pattern (name : str) :
  (is_Some (parse_series_info name) -> is_series_by_name name = true)
  /\ (forall hash logo category url,
        type (fields (build_item hash name logo category url))
        = if is_series_by_category category || is_series_by_name name
          then series else movie)
  /\ (forall series_name season episode,
        parse_series_info name = Some (series_name, season, episode) ->
        trimmed series_name /\ 0 <= season /\ 0 <= episode).
Proof.
  assert (H : is_Some (parse_series_info name) -> is_series_by_name name = true).
  { intros (pattern & Hp & Hm)%first_match_Some.
    unfold is_series_by_name. apply existsb_exists.
    assert (Hs : forall tail, unanchored tail = true ->
              is_Some (match_ (Seq Bol (Seq (Grp 1 (lazy_plus dot)) (Seq spaces tail))) name) ->
              erase tail ∈ EPISODE_PATTERNS ->
              exists x, In x EPISODE_PATTERNS /\ bool_decide (is_Some (search x name)) = true).
    { intros tail Hu Ht Hin. exists (erase tail). split; [by apply list_elem_of_In|].
      apply bool_decide_eq_true. by apply anchored_match_search. }
    unfold SERIES_INFO_PATTERNS in Hp.
    apply elem_of_cons in Hp as [->|Hp]; [|apply elem_of_cons in Hp as [->|Hp];
      [|apply list_elem_of_singleton in Hp as ->]].
    - apply (Hs (seqs [ci (ch "S"); Grp 2 digits; spaces; ci (ch "E"); Grp 3 digits]));
        [done|exact Hm|]. by left.
    - apply (Hs (seqs [ci (ch "T"); Grp 2 digits; spaces; ci (ch "E"); Grp 3 digits]));
        [done|exact Hm|]. right. by left.
    - apply (Hs (seqs [Grp 2 digits; spaces; ci (ch "x"); spaces; Grp 3 digits]));
        [done|exact Hm|]. right. right. by left. }
  split_and!; [exact H| |].
  2:{ intros sn se ep Hp. exact (first_match_shape _ _ _ _ _ Hp). }
  intros hash logo category url. cbn [build_item fields type].
  destruct (is_series_by_category category); [done|]. cbn [orb].
  destruct (is_series_by_name name) eqn:E; [done|]. cbn [orb].
  case_bool_decide as Hi; [|done]. pose proof (H Hi); congruence.
Qed.

(** ** The index as a whole *)

Lemma group_by_category_nonempty l c items :
  (c, items) ∈ group_by_category l -> items <> [].
Proof.
  intros Hin.
  pose proof (group_of_elem _ _ _ (keys_group_by_category_NoDup l) Hin) as Hg.
  rewrite group_of_group_by_category in Hg.
  assert (Hc : c ∈ map _category l).
  { apply keys_group_by_category, list_elem_of_fmap. by exists (c, items). }
  apply list_elem_of_fmap in Hc as (p & -> & Hp). rewrite <- Hg.
  intros Hnil. assert (Hf : fields p ∈ @nil item); [|by apply elem_of_nil in Hf].
  rewrite <- Hnil. apply list_elem_of_fmap. exists p. split; [done|].
  apply list_elem_of_In, filter_In. split; [by apply list_elem_of_In|].
  by apply bool_decide_eq_true_2.
Qed.

Lemma process_category_name category items :
  ix_name (process_category category items).2 = category.
Proof.
  destruct (Nat.le_gt_cases (total_items items) MAX_ITEMS_PER_FILE) as [Hle|Hgt].
  - by rewrite (process_category_small _ _ Hle).
  - by rewrite (process_category_large _ _ Hgt).
Qed.

Lemma entries_names (d : list (str * list item)) :
  map ix_name (map (fun ci => (process_category ci.1 ci.2).2) d) = map fst d.
Proof.
  induction d as [|[c items] d IH]; [done|]. cbn [map fst snd].
  by rewrite process_category_name, IH.
Qed.

Lemma entries_totals (d : list (str * list item)) :
  sum (map totalCount (map (fun ci => (process_category ci.1 ci.2).2) d))
  = length (concat (map snd d)).
Proof.
  induction d as [|[c items] d IH]; [done|]. cbn [map fst snd concat].
  rewrite length_app, <- IH.
  destruct (process_category_counts c items) as (_ & _ & _ & ->). done.
Qed.

(** X13. The last file [main] writes is [index.json].  Its entries name each
    canonical category of the unique items exactly once, each with at least
    one item, in descending order of total, and the totals add up to the
    number of unique items. *)
Theorem index_lists_each_category_once (hash : str -> Z) (now : str)
    (files : list (option str)) :
  exists category_index,
    last (main hash now files) = Some (u "index.json", index_document now category_index)
    /\ NoDup (map ix_name category_index)
    /\ (forall c, c ∈ map ix_name category_index
                  <-> c ∈ map _category (unique_items (parse_all hash files)))
    /\ Forall (fun e => (1 <= totalCount e)%nat) category_index
    /\ StronglySorted at_least category_index
    /\ sum (map totalCount category_index) = length (unique_items (parse_all hash files)).
Proof.
  set (l := unique_items (parse_all hash files)).
  set (d := group_by_category l).
  exists (build_index d). unfold build_index.
  set (entries := map (fun ci => (process_category ci.1 ci.2).2) d).
  pose proof (sort_by_total_perm entries) as Hperm.
  assert (Hnames : map ix_name (sort_by_total entries) ≡ₚ map fst d).
  { rewrite Hperm. unfold entries. by rewrite entries_names. }
  split_and!.
  - unfold main. apply last_snoc.
  - rewrite Hnames. apply keys_group_by_category_NoDup.
  - intros c. rewrite Hnames. apply keys_group_by_category.
  - rewrite Hperm. unfold entries. apply Forall_forall. intros e He.
    apply list_elem_of_fmap in He as ([c items] & -> & Hin). cbn [fst snd].
    destruct (process_category_counts c items) as (_ & _ & _ & ->).
    pose proof (group_by_category_nonempty _ _ _ Hin). destruct items; [done|cbn; lia].
  - apply sort_by_total_sorted.
  - rewrite (sum_perm _ _ (Permutation_map _ Hperm)). unfold entries.
    rewrite entries_totals. unfold d.
    by rewrite (Permutation_length (group_by_category_items l)), length_map.
Qed.

(** ** Names of entries *)

(** *** The name of an entry *)

Lemma star_greedy_to_end {A} p s (k : bool -> str -> option A) x :
  forallb p s = true -> k false [] = Some x -> star_greedy p false s k = Some x.
Proof.
  intros Hs Hk. induction s as [|c s IH]; [done|]. cbn [forallb] in Hs.
  apply andb_true_iff in Hs as [Hc Hs]. cbn [star_greedy]. by rewrite Hc, (IH Hs).
Qed.

Lemma without_dot s : without newline s -> forallb dot s = true.
Proof.
  unfold without, dot, newline. induction s as [|c s IH]; [done|]. cbn [existsb forallb].
  intros [Hc Hs]%orb_false_iff. rewrite (IH Hs), andb_true_r.
  rewrite Z.eqb_sym. by rewrite Hc.
Qed.

Lemma match_here_name_re bol after :
  after <> [] -> without newline after ->
  match_here name_re bol (comma :: after) = Some ([], [(1%nat, after)]).
Proof.
  intros Hne Hnl. destruct after as [|a after]; [done|].
  pose proof (without_dot _ Hnl) as Hd. cbn [forallb] in Hd.
  apply andb_true_iff in Hd as [Ha Hd].
  unfold match_here, name_re, seqs, lit, plus. cbn [fold_right rmatch].
  change (ch ",") with comma. rewrite Z.eqb_refl, Ha.
  rewrite (star_greedy_to_end dot after _ ([], [(1%nat, a :: after)]) Hd); [done|].
  cbn [length]. rewrite Nat.sub_0_r. cbn [take]. by rewrite firstn_all.
Qed.

Lemma match_here_name_re_other bol c s :
  (comma =? c) = false -> match_here name_re bol (c :: s) = None.
Proof.
  intros Hc. unfold match_here, name_re, seqs, lit. cbn [fold_right rmatch].
  change (ch ",") with comma. by rewrite Hc.
Qed.

Lemma search_name_re before after :
  without comma before -> after <> [] -> without newline after ->
  exists matched rest caps,
    search name_re (before ++ comma :: after) = Some (matched, rest, caps)
    /\ group 1 caps = after.
Proof.
  intros Hb Hne Hnl. unfold search. generalize true as bol.
  induction before as [|c before IH]; intros bol; cbn [app search_from].
  - rewrite (match_here_name_re bol after Hne Hnl). eauto.
  - unfold without in Hb. cbn [existsb] in Hb. apply orb_false_iff in Hb as [Hc Hb].
    rewrite (match_here_name_re_other bol c _ Hc). apply (IH Hb).
Qed.

Lemma search_name_re_none s : without comma s -> search name_re s = None.
Proof.
  intros Hs. unfold search. generalize true as bol.
  induction s as [|c s IH]; intros bol; cbn [search_from].
  - by destruct bol.
  - unfold without in Hs. cbn [existsb] in Hs. apply orb_false_iff in Hs as [Hc Hs].
    rewrite (match_here_name_re_other bol c _ Hc). apply (IH Hs).
Qed.

(** X14. The name of an entry is what follows the first comma of its
    [#EXTINF] line, up to the end of the line, stripped: the search for
    [,(.+)$] stops at the leftmost comma, also when the title holds further
    commas. *)
Theorem name_follows_the_first_comma (hash : str -> Z) (st : pending)
    (items : list parsed) (line before after : str) :
  metadata_line line ->
  strip line = before ++ comma :: after ->
  without comma before -> after <> [] -> without newline after ->
  current_name (lex_line hash (st, items) line).1 = Some (strip after).
Proof.
  unfold metadata_line. intros Hm Hl Hb Hne Hnl. unfold lex_line. rewrite Hm.
  cbn [fst current_name]. rewrite Hl.
  destruct (search_name_re before after Hb Hne Hnl) as (matched & rest & caps & -> & ->).
  done.
Qed.

(** The entry [Rápido, Devagar] of the category [Filmes]. *)
Lemma name_follows_the_first_comma_witness :
  current_name
    (lex_line (fun _ => 0) (no_pending, []) (extinf "Filmes" "Rápido, Devagar")).1
  = Some (u "Rápido, Devagar").
Proof.
  apply (name_follows_the_first_comma (fun _ => 0) no_pending []
           (extinf "Filmes" "Rápido, Devagar")
           (u "#EXTINF:-1 group-title=" ++ [quote] ++ u "Filmes" ++ [quote])
           (u "Rápido, Devagar")).
  - vm_compute. reflexivity.
  - vm_compute. reflexivity.
  - vm_compute. reflexivity.
  - vm_compute. discriminate.
  - vm_compute. reflexivity.
Defined.

(** X15. An [#EXTINF] line without any comma leaves no pending name, so
    the line after it, a URL or not, adds no item. *)
Theorem nameless_metadata_yields_nothing (hash : str -> Z) (st : pending)
    (items : list parsed) (line next : str) :
  metadata_line line ->
  without comma (strip line) ->
  current_name (lex_line hash (st, items) line).1 = None
  /\ (lex_line hash (lex_line hash (st, items) line) next).2 = items.
Proof.
  unfold metadata_line. intros Hm Hc. unfold lex_line at 1 3. rewrite Hm.
  rewrite (search_name_re_none _ Hc). split; [done|].
  unfold lex_line. destruct (startswith (strip next) (u "#EXTINF:")); [done|].
  cbn [current_name truthy]. by rewrite andb_false_r.
Qed.

(** A metadata line without title, followed by a URL. *)
Lemma nameless_metadata_yields_nothing_witness :
  current_name (lex_line (fun _ => 0) (no_pending, []) (u "#EXTINF:-1 tvg-id=7")).1 = None
  /\ (lex_line (fun _ => 0)
        (lex_line (fun _ => 0) (no_pending, []) (u "#EXTINF:-1 tvg-id=7"))
        (u "http://h/a.mp4")).2 = [].
Proof.
  apply (nameless_metadata_yields_nothing (fun _ => 0) no_pending []
           (u "#EXTINF:-1 tvg-id=7") (u "http://h/a.mp4")).
  - vm_compute. reflexivity.
  - vm_compute. reflexivity.
Defined.

(** *** Cleaning a name *)

Lemma sub_go_sublist r bol skip s : sub_go r [] bol skip s `sublist_of` s.
Proof.
  revert bol skip. induction s as [|c s IH]; intros bol skip.
  - destruct skip; cbn [sub_go]; [|done]. by destruct (match_here r bol []) as [[]|].
  - destruct skip as [|n]; cbn [sub_go].
    + destruct (match_here r bol (c :: s)) as [[rest caps]|]; cbn [app].
      * destruct (length (c :: s) - length rest)%nat.
        -- apply sublist_skip, IH.
        -- apply sublist_cons, IH.
      * apply sublist_skip, IH.
    + apply sublist_cons, IH.
Qed.

Lemma lstrip_suffix s : exists k, s = k ++ lstrip s.
Proof.
  induction s as [|c s [k IH]]; [by exists []|]. cbn [lstrip].
  destruct (isspace c); [|by exists []]. exists (c :: k). cbn [app]. by rewrite <- IH.
Qed.

Lemma strip_sublist s : strip s `sublist_of` s.
Proof.
  unfold strip, rstrip. destruct (lstrip_suffix s) as [k Hk].
  destruct (lstrip_suffix (rev (lstrip s))) as [k' Hk'].
  apply (f_equal (@rev Z)) in Hk'. rewrite rev_involutive, rev_app_distr in Hk'.
  rewrite Hk at 2. apply sublist_inserts_l. rewrite Hk' at 2. by apply sublist_inserts_r.
Qed.

(** X16. [clean_name] only deletes characters: the cleaned name is the
    name with some characters left out, in the same order; it has no white
    space at either end and is never longer than the name. *)
Theorem clean_name_only_deletes (name : str) :
  clean_name name `sublist_of` name
  /\ trimmed (clean_name name)
  /\ (length (clean_name name) <= length name)%nat.
Proof.
  assert (H : clean_name name `sublist_of` name).
  { unfold clean_name. cbv zeta. etrans; [apply strip_sublist|]. unfold sub.
    repeat (etrans; [apply sub_go_sublist|]). done. }
  split_and!; [done|apply clean_name_trimmed|by apply sublist_length].
Qed.
